(** * gitlab-triage: policy engine, command framework and action executor

  A shallow embedding of the JavaScript sources
    - [src/core/policyEngine.js]      (module [PolicyEngine]),
    - [src/core/CommandFramework.js]  (module [CommandFramework]),
    - the action executor with [registerExtension] (module [ActionExecutor]),
  followed by the properties established about them.

  Conventions.  JavaScript strings are [string]s restricted to ASCII code
  units; numbers that the code only uses as integers (identifiers, counts,
  epoch milliseconds) are [Z]; [undefined]/[null] fields are [option]s or
  the [jsval] constructors below. *)

From Stdlib Require Import ZArith List String Ascii Bool Lia.
From Stdlib Require Import Sorting.Permutation Sorting.Sorted.
From stdpp Require Import base option list strings gmap.

Import ListNotations.
Local Open Scope string_scope.
Local Open Scope Z_scope.

(* ===================================================================== *)
(** * The JavaScript primitives the sources rely on *)
(* ===================================================================== *)

Module JS.

(** Scalar values as they flow through truthiness tests, [===] and
    string conversion.  [JObject tag] is an ordinary object known only
    by its identity, [JNative f] a built-in function such as
    [Object.prototype.toString]. *)
Inductive jsval : Type :=
| JUndefined
| JNull
| JBool (b : bool)
| JNum (n : Z)
| JStr (s : string)
| JObject (tag : string)
| JNative (fname : string).

(** ToBoolean *)
Definition truthy (v : jsval) : bool :=
  match v with
  | JUndefined | JNull => false
  | JBool b => b
  | JNum n => negb (n =? 0)
  | JStr s => negb (String.eqb s "")
  | JObject _ | JNative _ => true
  end.

(** [a === b]: values of different types are never strictly equal. *)
Definition strict_equal (a b : jsval) : bool :=
  match a, b with
  | JUndefined, JUndefined => true
  | JNull, JNull => true
  | JBool x, JBool y => Bool.eqb x y
  | JNum x, JNum y => x =? y
  | JStr x, JStr y => String.eqb x y
  | JObject x, JObject y => String.eqb x y
  | JNative f, JNative g => String.eqb f g
  | _, _ => false
  end.

(** [a || b] *)
Definition or_else (a b : jsval) : jsval := if truthy a then a else b.

(** Decimal rendering of an integer-valued number. *)
Fixpoint digits_of_pos (fuel : nat) (n : Z) (acc : string) : string :=
  match fuel with
  | O => acc
  | S fuel' =>
      let d := ascii_of_nat (48 + Z.to_nat (n mod 10)) in
      if n <? 10 then String d acc
      else digits_of_pos fuel' (n / 10) (String d acc)
  end.

Definition number_to_string (n : Z) : string :=
  if n <? 0
  then String "-" (digits_of_pos (S (Z.to_nat (Z.log2 (- n)))) (- n) "")
  else digits_of_pos (S (Z.to_nat (Z.log2 n))) n "".

(** ToString, as applied by template literals and by [String.prototype.replace]
    to the value a replacer function returns. *)
Definition to_string (v : jsval) : string :=
  match v with
  | JUndefined => "undefined"
  | JNull => "null"
  | JBool true => "true"
  | JBool false => "false"
  | JNum n => number_to_string n
  | JStr s => s
  | JObject _ => "[object Object]"
  | JNative f => "function " ++ f ++ "() { [native code] }"
  end.

(** White space and line terminators (the ASCII part of [\s], which is
    also what [String.prototype.trim] strips). *)
Definition is_space (c : ascii) : bool :=
  let n := nat_of_ascii c in
  ((9 <=? n)%nat && (n <=? 13)%nat) || (n =? 32)%nat.

(** Characters the regular-expression dot does not match. *)
Definition is_line_terminator (c : ascii) : bool :=
  let n := nat_of_ascii c in (n =? 10)%nat || (n =? 13)%nat.

(** [\w] *)
Definition is_word_char (c : ascii) : bool :=
  let n := nat_of_ascii c in
  ((48 <=? n)%nat && (n <=? 57)%nat) || ((65 <=? n)%nat && (n <=? 90)%nat)
  || ((97 <=? n)%nat && (n <=? 122)%nat) || (n =? 95)%nat.

Fixpoint trimStart (s : string) : string :=
  match s with
  | String c s' => if is_space c then trimStart s' else s
  | EmptyString => EmptyString
  end.

Fixpoint trimEnd (s : string) : string :=
  match s with
  | EmptyString => EmptyString
  | String c s' =>
      match trimEnd s' with
      | EmptyString => if is_space c then EmptyString else String c EmptyString
      | t => String c t
      end
  end.

Definition trim (s : string) : string := trimEnd (trimStart s).

(** [s.includes(c)] for a one-character needle. *)
Fixpoint includes_char (c : ascii) (s : string) : bool :=
  match s with
  | EmptyString => false
  | String d s' => Ascii.eqb c d || includes_char c s'
  end.

(** [arr.includes(x)] on an array of strings. *)
Definition includes (x : string) (arr : list string) : bool :=
  existsb (String.eqb x) arr.

(** [s.split(c)] for a one-character separator: never empty. *)
Fixpoint split_on (sep : ascii) (acc : string) (s : string) : list string :=
  match s with
  | EmptyString => [acc]
  | String c s' =>
      if Ascii.eqb c sep then acc :: split_on sep "" s'
      else split_on sep (acc ++ String c "") s'
  end.

Definition split (sep : ascii) (s : string) : list string := split_on sep "" s.

(** [s.split(/\s+/)]: cut at every maximal run of white space. *)
Fixpoint split_ws_from (in_run : bool) (acc : string) (s : string) : list string :=
  match s with
  | EmptyString => [acc]
  | String c s' =>
      if is_space c
      then (if in_run then split_ws_from true "" s'
            else acc :: split_ws_from true "" s')
      else split_ws_from false (acc ++ String c "") s'
  end.

Definition split_ws (s : string) : list string := split_ws_from false "" s.

(** [s.startsWith(p)] *)
Fixpoint startsWith (p s : string) : bool :=
  match p with
  | EmptyString => true
  | String a p' =>
      match s with
      | EmptyString => false
      | String b s' => Ascii.eqb a b && startsWith p' s'
      end
  end.

(** [s.slice(1)] *)
Definition slice1 (s : string) : string :=
  match s with
  | EmptyString => EmptyString
  | String _ s' => s'
  end.

(** A call either returns or throws. *)
Inductive outcome (A : Type) : Type :=
| Return (a : A)
| Throw (msg : string).
Arguments Return {A} a.
Arguments Throw {A} msg.

(** [arr.join(sep)] *)
Fixpoint join (sep : string) (arr : list string) : string :=
  match arr with
  | [] => ""
  | [x] => x
  | x :: rest => x ++ sep ++ join sep rest
  end.

End JS.

(* ===================================================================== *)
(** * src/core/policyEngine.js *)
(* ===================================================================== *)

Module PolicyEngine.
Import JS.

(** A label of a resource is either a plain string or an object carrying
    a [name]. *)
Inductive label : Type :=
| LabelString (s : string)
| LabelObject (name : string).

Definition label_name (l : label) : string :=
  match l with
  | LabelString s => s
  | LabelObject n => n
  end.

(** The text after an opening brace: the run [[^}]+] when it is not empty
    and is closed by a brace. *)
Fixpoint brace_body (acc : string) (s : string) : option string :=
  match s with
  | EmptyString => None
  | String c s' =>
      if Ascii.eqb c "}"
      then (if String.eqb acc "" then None else Some acc)
      else brace_body (acc ++ String c "") s'
  end.

(** [str.match(/^(.+?)([{])([^}]+)(})/)]: the shortest non-empty prefix
    free of line terminators that is followed by a closed, non-empty
    brace group.  Returns capture 1 and capture 3. *)
Fixpoint match_group (pre : string) (s : string) : option (string * string) :=
  match s with
  | EmptyString => None
  | String c s' =>
      let continue :=
        if is_line_terminator c then None
        else match_group (pre ++ String c "") s' in
      if Ascii.eqb c "{" && negb (String.eqb pre "")
      then match brace_body "" s' with
           | Some body => Some (pre, body)
           | None => continue
           end
      else continue
  end.

Definition stringToArray (str : string) : list string :=
  match match_group "" str with
  | None => []
  | Some (m1, m3) =>
      let key := trim m1 in
      (* match[2] is always the brace, so the separator is empty *)
      let separator := "" in
      let values := map trim (split "," m3) in
      map (fun value => key ++ separator ++ value) values
  end.

(** The loop over the brace entries.  [None] is the early [return false];
    [Some required'] is the list left in [requiredLabels] afterwards.
    The reassignment keeps the entries [x] with [!x === label], a
    comparison of a boolean with a string. *)
Fixpoint or_loop (labelNames : list string) (orLabels : list string)
         (requiredLabels : list string) : option (list string) :=
  match orLabels with
  | [] => Some requiredLabels
  | label :: rest =>
      let eitherLabels := stringToArray label in
      if negb (existsb (fun label_ => includes label_ labelNames) eitherLabels)
      then None
      else or_loop labelNames rest
             (List.filter
                (fun x => strict_equal (JBool (negb (truthy (JStr x)))) (JStr label))
                requiredLabels)
  end.

(** [evaluateLabelsCondition(resource, requiredLabels)] for an array
    [requiredLabels]; [labels] is [resource.labels], [None] when the
    field is missing. *)
Definition evaluateLabelsCondition (labels : option (list label))
           (requiredLabels : list string) : bool :=
  let resourceLabels := default [] labels in
  let labelNames := map label_name resourceLabels in
  if includes "None" requiredLabels then (length labelNames =? 0)%nat
  else if includes "Any" requiredLabels then (0 <? length labelNames)%nat
  else
    let orLabels := List.filter (includes_char "{") requiredLabels in
    match or_loop labelNames orLabels requiredLabels with
    | None => false
    | Some requiredLabels' =>
        forallb (fun label => includes label labelNames) requiredLabels'
    end.

(** ** Values produced by evaluators *)

(** A number as the relational operators see it next to an integer:
    NaN, an integer, a value strictly between [below] and [below + 1],
    or an infinity. *)
Inductive number : Type :=
| NaN
| Num (z : Z)
| Between (below : Z)
| Infinite (positive : bool).

(** [a >= t], [a <= t], [a < t] and [a > t] for an integer [t]. *)
Definition num_ge (a : number) (t : Z) : bool :=
  match a with
  | NaN => false
  | Num x => t <=? x
  | Between z => t <=? z
  | Infinite positive => positive
  end.
Definition num_le (a : number) (t : Z) : bool :=
  match a with
  | NaN => false
  | Num x => x <=? t
  | Between z => z <? t
  | Infinite positive => negb positive
  end.
Definition num_lt (a : number) (t : Z) : bool :=
  match a with
  | NaN => false
  | Num x => x <? t
  | Between z => z <? t
  | Infinite positive => negb positive
  end.
Definition num_gt (a : number) (t : Z) : bool :=
  match a with
  | NaN => false
  | Num x => t <? x
  | Between z => t <=? z
  | Infinite positive => positive
  end.

(** ToNumber, as the relational operators apply it to an operand that
    stands next to a number.  The conversion of a string is the
    language's own ([StringToNumber], with its rounding) and is taken as
    it is; an object is first converted to a string. *)
Definition to_number (StringToNumber : string -> number) (v : jsval) : number :=
  match v with
  | JUndefined => NaN
  | JNull => Num 0
  | JBool b => Num (if b then 1 else 0)
  | JNum n => Num n
  | JStr s => StringToNumber s
  | JObject _ | JNative _ => StringToNumber (to_string v)
  end.

(** The state a promise settles in. *)
Inductive settled : Type :=
| Fulfilled (v : jsval)
| Rejected (msg : string).

(** What [evaluateCondition] hands back: synchronous evaluators return a
    plain value, the [async] one returns a promise object. *)
Inductive result : Type :=
| Plain (v : jsval)
| Promise (p : settled).

(** [!x] on such a result: a promise is an object, hence truthy. *)
Definition result_truthy (r : result) : bool :=
  match r with
  | Plain v => truthy v
  | Promise _ => true
  end.

(** ** Resources *)

Record author : Type := { user_id : jsval; username : jsval }.

Inductive authorField : Type :=
| AuthorObject (a : author)
| AuthorScalar (v : jsval).

Inductive milestoneField : Type :=
| MilestoneObject (title : jsval)
| MilestoneScalar (v : jsval).

(** The part of a resource the engine reads.  [prop r name] is
    [resource[name]] for scalar-valued properties; [created_time] is
    [new Date(resource.created_at)] in epoch milliseconds;
    [references_full] is [None] when [resource.references] is missing. *)
Record resource : Type := {
  prop : string -> jsval;
  created_time : Z;
  labels : option (list label);
  author_of : authorField;
  milestone_of : milestoneField;
  references_full : option jsval;
}.

(** ** Collaborators *)

(** The functions imported from date-fns, on epoch milliseconds;
    [parseISO] yields [None] for an Invalid Date and [Throw] when the
    call itself raises (as it may for an argument that is not a string). *)
Record dateFns : Type := {
  parseISO : jsval -> outcome (option Z);
  differenceInMinutes : Z -> Z -> Z;
  differenceInHours : Z -> Z -> Z;
  differenceInDays : Z -> Z -> Z;
  differenceInWeeks : Z -> Z -> Z;
  differenceInMonths : Z -> Z -> Z;
  differenceInYears : Z -> Z -> Z;
}.

(** How compiling and running a script in the [vm] context ends: with
    the value of the expression, or with whatever was thrown. *)
Inductive script_completion : Type :=
| Completed (v : jsval)
| Raised (error : jsval).

(** [GroupMembers_show] is [gitlab.GroupMembers.show], [None] when the
    request is rejected; [run_script] is the [vm] evaluation of an
    expression; [StringToNumber] is the conversion the language applies
    to a string compared with a number; [customFilters] is the registry
    filled by [registerCustomFilter]. *)
Record engine : Type := {
  date_fns : dateFns;
  now : Z;
  GroupMembers_show : jsval -> jsval -> option jsval;
  run_script : string -> resource -> script_completion;
  StringToNumber : string -> number;
  customFilters : gmap string (resource -> jsval -> outcome jsval);
}.

(** ** Condition configurations, shaped as the validator admits them *)

Record dateConfig : Type := {
  attribute : string;
  condition : string;
  interval_type : string;
  interval : Z;
}.

Record countConfig : Type := {
  count_attribute : string;
  count_condition : string;
  threshold : Z;
}.

Record memberConfig : Type := {
  source : jsval;
  source_id : jsval;
  member_condition : jsval;
}.

(** One entry of the [conditions] object: the constructor is the key. *)
Inductive conditionEntry : Type :=
| date (c : dateConfig)
| state (expected : string)
| labels_cond (required : list string)
| forbidden_labels (forbidden : list string)
| no_additional_labels (b : bool)
| author_username (expected : string)
| milestone (expected : string)
| votes (c : countConfig)
| draft (expected : bool)
| source_branch (expected : string)
| target_branch (expected : string)
| weight (expected : jsval)
| health_status (expected : string)
| issue_type (expected : string)
| discussions (c : countConfig)
| js (expression : string)
| author_member (c : memberConfig)
| other (conditionType : string) (conditionValue : jsval).

(** ** Evaluators *)

Definition lift_difference (f : Z -> Z -> Z) (now : Z) (d : option Z) : number :=
  match d with
  | Some t => Num (f now t)
  | None => NaN
  end.

(** The first [switch] of [evaluateDateCondition]; [None] is its
    [default: return false]. *)
Definition timeDifference (F : dateFns) (interval_type : string)
           (now : Z) (resourceDate : option Z) : option number :=
  if String.eqb interval_type "minutes"
  then Some (lift_difference (differenceInMinutes F) now resourceDate)
  else if String.eqb interval_type "hours"
  then Some (lift_difference (differenceInHours F) now resourceDate)
  else if String.eqb interval_type "days"
  then Some (lift_difference (differenceInDays F) now resourceDate)
  else if String.eqb interval_type "weeks"
  then Some (lift_difference (differenceInWeeks F) now resourceDate)
  else if String.eqb interval_type "months"
  then Some (lift_difference (differenceInMonths F) now resourceDate)
  else if String.eqb interval_type "years"
  then Some (lift_difference (differenceInYears F) now resourceDate)
  else None.

(** [parseISO] is called before the first [switch], so what it throws
    leaves the function whatever the unit is. *)
Definition evaluateDateCondition (F : dateFns) (now : Z)
           (r : resource) (dateConfig : dateConfig) : outcome bool :=
  if negb (truthy (prop r (attribute dateConfig))) then Return false
  else
    match parseISO F (prop r (attribute dateConfig)) with
    | Throw m => Throw m
    | Return resourceDate =>
        match timeDifference F (interval_type dateConfig) now resourceDate with
        | None => Return false
        | Some d =>
            Return
              (if String.eqb (condition dateConfig) "older_than"
               then num_ge d (interval dateConfig)
               else if String.eqb (condition dateConfig) "newer_than"
               then num_le d (interval dateConfig)
               else false)
        end
    end.

Definition evaluateStateCondition (r : resource) (expectedState : string) : bool :=
  strict_equal (prop r "state") (JStr expectedState).

Definition evaluateForbiddenLabelsCondition (r : resource)
           (forbiddenLabels : list string) : bool :=
  let labelNames := map label_name (default [] (labels r)) in
  negb (existsb (fun label => includes label labelNames) forbiddenLabels).

Definition evaluateNoAdditionalLabelsCondition (r : resource) (b : bool) : bool := true.

(** [typeof null] is ['object'], so a null author makes the property
    read throw. *)
Definition evaluateAuthorUsernameCondition (r : resource)
           (expectedUsername : string) : outcome bool :=
  match author_of r with
  | AuthorObject a => Return (strict_equal (username a) (JStr expectedUsername))
  | AuthorScalar JNull => Throw "TypeError"
  | AuthorScalar v => Return (strict_equal v (JStr expectedUsername))
  end.

Definition milestone_truthy (m : milestoneField) : bool :=
  match m with
  | MilestoneObject _ => true
  | MilestoneScalar v => truthy v
  end.

Definition evaluateMilestoneCondition (r : resource) (expectedMilestone : string) : bool :=
  let m := milestone_of r in
  if String.eqb expectedMilestone "none" then negb (milestone_truthy m)
  else if String.eqb expectedMilestone "any" then milestone_truthy m
  else if negb (milestone_truthy m) then false
  else
    let milestoneTitle :=
      match m with
      | MilestoneObject title => title
      | MilestoneScalar v => v
      end in
    strict_equal milestoneTitle (JStr expectedMilestone).

Definition evaluateVotesCondition (E : engine) (r : resource)
           (voteConfig : countConfig) : bool :=
  let voteCount := or_else (prop r (count_attribute voteConfig)) (JNum 0) in
  if String.eqb (count_condition voteConfig) "less_than"
  then num_lt (to_number (StringToNumber E) voteCount) (threshold voteConfig)
  else if String.eqb (count_condition voteConfig) "greater_than"
  then num_gt (to_number (StringToNumber E) voteCount) (threshold voteConfig)
  else false.

Definition evaluateDraftCondition (r : resource) (expectedDraft : bool) : bool :=
  Bool.eqb (truthy (prop r "draft")) expectedDraft.

Definition evaluateSourceBranchCondition (r : resource) (expectedBranch : string) : bool :=
  strict_equal (prop r "source_branch") (JStr expectedBranch).

Definition evaluateTargetBranchCondition (r : resource) (expectedBranch : string) : bool :=
  strict_equal (prop r "target_branch") (JStr expectedBranch).

Definition is_nullish (v : jsval) : bool :=
  match v with JUndefined | JNull => true | _ => false end.

Definition evaluateWeightCondition (r : resource) (expectedWeight : jsval) : bool :=
  let weight := prop r "weight" in
  if strict_equal expectedWeight (JStr "None") then is_nullish weight
  else if strict_equal expectedWeight (JStr "Any") then negb (is_nullish weight)
  else strict_equal weight expectedWeight.

Definition evaluateHealthStatusCondition (r : resource) (expectedStatus : string) : bool :=
  let healthStatus := prop r "health_status" in
  if String.eqb expectedStatus "None" then negb (truthy healthStatus)
  else if String.eqb expectedStatus "Any" then truthy healthStatus
  else strict_equal healthStatus (JStr expectedStatus).

Definition evaluateIssueTypeCondition (r : resource) (expectedType : string) : bool :=
  strict_equal (prop r "issue_type") (JStr expectedType).

Definition evaluateDiscussionsCondition (E : engine) (r : resource)
           (discussionConfig : countConfig) : bool :=
  let count := or_else (prop r (count_attribute discussionConfig)) (JNum 0) in
  if String.eqb (count_condition discussionConfig) "less_than"
  then num_lt (to_number (StringToNumber E) count) (threshold discussionConfig)
  else if String.eqb (count_condition discussionConfig) "greater_than"
  then num_gt (to_number (StringToNumber E) count) (threshold discussionConfig)
  else false.

(** Building the context reads [resource.references.full] outside the
    [try]; the script itself runs inside it.  The [catch] block reads
    [error.message] before it returns false, and that read throws when
    the script threw [null] or [undefined]. *)
Definition evaluateJavaScriptCondition (E : engine) (r : resource)
           (jsExpression : string) : outcome jsval :=
  match references_full r with
  | None => Throw "TypeError"
  | Some _ =>
      match run_script E jsExpression r with
      | Completed v => Return v
      | Raised error =>
          if is_nullish error then Throw "TypeError" else Return (JBool false)
      end
  end.

(** [resource.author.id], [None] when the read throws. *)
Definition resource_author_id (r : resource) : option jsval :=
  match author_of r with
  | AuthorObject a => Some (user_id a)
  | AuthorScalar JUndefined | AuthorScalar JNull => None
  | AuthorScalar _ => Some JUndefined
  end.

(** An [async] function: every way of leaving the body, a [throw]
    included, settles the promise it has already returned. *)
Definition evaluateAuthorMemberCondition (E : engine) (r : resource)
           (parameters : memberConfig) : settled :=
  if negb (truthy (source parameters)) || negb (truthy (source_id parameters))
     || negb (truthy (member_condition parameters))
  then Fulfilled (JBool false)
  else if strict_equal (source parameters) (JStr "group")
  then match resource_author_id r with
       | None => Fulfilled (JBool false)
       | Some aid =>
           match GroupMembers_show E (source_id parameters) aid with
           | Some member => Fulfilled (JBool (truthy member))
           | None => Fulfilled (JBool false)
           end
       end
  else Rejected ("Unsupported source: " ++ to_string (source parameters)).

Definition plain (b : bool) : outcome result := Return (Plain (JBool b)).

Definition evaluateCondition (E : engine) (r : resource)
           (c : conditionEntry) : outcome result :=
  match c with
  | date cfg =>
      match evaluateDateCondition (date_fns E) (now E) r cfg with
      | Return b => plain b
      | Throw m => Throw m
      end
  | state s => plain (evaluateStateCondition r s)
  | labels_cond l => plain (evaluateLabelsCondition (labels r) l)
  | forbidden_labels l => plain (evaluateForbiddenLabelsCondition r l)
  | no_additional_labels b => plain (evaluateNoAdditionalLabelsCondition r b)
  | author_username u =>
      match evaluateAuthorUsernameCondition r u with
      | Return b => plain b
      | Throw m => Throw m
      end
  | milestone m => plain (evaluateMilestoneCondition r m)
  | votes cfg => plain (evaluateVotesCondition E r cfg)
  | draft b => plain (evaluateDraftCondition r b)
  | source_branch b => plain (evaluateSourceBranchCondition r b)
  | target_branch b => plain (evaluateTargetBranchCondition r b)
  | weight w => plain (evaluateWeightCondition r w)
  | health_status h => plain (evaluateHealthStatusCondition r h)
  | issue_type t => plain (evaluateIssueTypeCondition r t)
  | discussions cfg => plain (evaluateDiscussionsCondition E r cfg)
  | js e =>
      match evaluateJavaScriptCondition E r e with
      | Return v => Return (Plain v)
      | Throw m => Throw m
      end
  | author_member cfg => Return (Promise (evaluateAuthorMemberCondition E r cfg))
  | other conditionType conditionValue =>
      match customFilters E !! conditionType with
      | Some customFilter =>
          match customFilter r conditionValue with
          | Return v => Return (Plain v)
          | Throw m => Throw m
          end
      | None => plain false
      end
  end.

(** The loop over [Object.entries(conditions)]. *)
Fixpoint evaluateConditions (E : engine) (r : resource)
         (conditions : list conditionEntry) : outcome bool :=
  match conditions with
  | [] => Return true
  | c :: rest =>
      match evaluateCondition E r c with
      | Throw m => Throw m
      | Return v =>
          if negb (result_truthy v) then Return false
          else evaluateConditions E r rest
      end
  end.

(** [resources.filter(cb)] for a callback that may throw. *)
Fixpoint array_filter (cb : resource -> outcome bool) (resources : list resource)
  : outcome (list resource) :=
  match resources with
  | [] => Return []
  | r :: rest =>
      match cb r with
      | Throw m => Throw m
      | Return keep =>
          match array_filter cb rest with
          | Throw m => Throw m
          | Return kept => Return (if keep then r :: kept else kept)
          end
      end
  end.

Definition filterResources (E : engine) (resources : list resource)
           (conditions : list conditionEntry) : outcome (list resource) :=
  match conditions with
  | [] => Return resources
  | _ => array_filter (fun r => evaluateConditions E r conditions) resources
  end.

(** ** Limits *)

Record limits : Type := {
  most_recent : option Z;
  oldest : option Z;
}.

Definition limit_truthy (l : option Z) : bool :=
  match l with
  | Some n => negb (n =? 0)
  | None => false
  end.

(** [Array.prototype.sort] is stable: an element is placed in front of
    the first element it does not compare greater than. *)
Fixpoint sort_insert (cmp : resource -> resource -> Z) (x : resource)
         (l : list resource) : list resource :=
  match l with
  | [] => [x]
  | y :: l' => if cmp x y <=? 0 then x :: y :: l' else y :: sort_insert cmp x l'
  end.

Fixpoint array_sort (cmp : resource -> resource -> Z) (l : list resource) : list resource :=
  match l with
  | [] => []
  | x :: l' => sort_insert cmp x (array_sort cmp l')
  end.

(** [arr.slice(0, n)] for an integer [n]; a negative [n] counts from the end. *)
Definition slice0 (n : Z) (l : list resource) : list resource :=
  if n <? 0 then firstn (Z.to_nat (Z.of_nat (length l) + n)) l
  else firstn (Z.to_nat n) l.

(** Arrays live in a store and are passed by reference, so that sorting
    in place is visible to whoever holds the reference. *)
Abbreviation arrays := (list (list resource)).
Abbreviation array_ref := nat.

Definition read (st : arrays) (a : array_ref) : list resource := default [] (st !! a).
Definition alloc (st : arrays) (l : list resource) : arrays * array_ref :=
  ((st ++ [l])%list, length st).
Definition sort_in_place (cmp : resource -> resource -> Z)
           (st : arrays) (a : array_ref) : arrays :=
  <[a := array_sort cmp (read st a)]> st.

Definition applyLimits (st : arrays) (resources : array_ref)
           (lim : option limits) : arrays * array_ref :=
  match lim with
  | None => (st, resources)
  | Some lim =>
      let '(st1, sortedResources) := alloc st (read st resources) in
      if limit_truthy (most_recent lim) then
        let st2 := sort_in_place (fun a b => created_time b - created_time a)
                                 st1 sortedResources in
        alloc st2 (slice0 (default 0 (most_recent lim)) (read st2 sortedResources))
      else if limit_truthy (oldest lim) then
        let st2 := sort_in_place (fun a b => created_time a - created_time b)
                                 st1 sortedResources in
        alloc st2 (slice0 (default 0 (oldest lim)) (read st2 sortedResources))
      else (st1, resources)
  end.

End PolicyEngine.

(* ===================================================================== *)
(** * src/core/CommandFramework.js *)
(* ===================================================================== *)

Module CommandFramework.
Import JS.

Inductive token : Type :=
| literal (value : string) (position : nat)
| variable (name : string) (position : nat).

Fixpoint string_drop (n : nat) (s : string) : string :=
  match n, s with
  | S n', String _ s' => string_drop n' s'
  | _, _ => s
  end.

(** The maximal run [\w+] at the head of [s], and what follows it. *)
Fixpoint word_run (s : string) : string * string :=
  match s with
  | String c s' =>
      if is_word_char c
      then let '(run, rest) := word_run s' in (String c run, rest)
      else (EmptyString, s)
  | EmptyString => (EmptyString, EmptyString)
  end.

(** The pattern [{{\.\.\.(\w+)}}] tried at the very start of [s]. *)
Definition variable_here (s : string) : option string :=
  if startsWith "{{..." s then
    let '(name, rest) := word_run (string_drop 5 s) in
    if String.eqb name "" then None
    else if startsWith "}}" rest then Some name else None
  else None.

(** [word.match(/{{\.\.\.(\w+)}}/)]: unanchored, leftmost occurrence;
    the result is capture 1. *)
Fixpoint variableMatch (word : string) : option string :=
  match variable_here word with
  | Some name => Some name
  | None =>
      match word with
      | EmptyString => None
      | String _ word' => variableMatch word'
      end
  end.

Fixpoint tokens_of (words : list string) (i : nat) : list token :=
  match words with
  | [] => []
  | word :: rest =>
      match variableMatch word with
      | Some name => variable name i :: tokens_of rest (S i)
      | None => literal word i :: tokens_of rest (S i)
      end
  end.

(** [parseTokens()] on a string [command]: [Throw] for the empty
    command, which is falsy. *)
Definition parseTokens (command : string) : outcome (list token) :=
  if String.eqb command ""
  then Throw ("Invalid command provided: " ++ command)
  else
    let trimmedCommand := trim command in
    if String.eqb trimmedCommand "" then Return []
    else Return (tokens_of (split_ws trimmedCommand) 0).

Record framework : Type := {
  bot_username : string;
  command : string;
  prefix : bool;
  tokens : list token;
}.

(** The constructor stores [true] in [prefix] whatever it is passed. *)
Definition new (bot_username command : string) (prefix : bool)
  : outcome framework :=
  match parseTokens command with
  | Throw m => Throw m
  | Return ts =>
      Return
        {| bot_username := bot_username; command := command;
           prefix := true; tokens := ts |}
  end.

(** [extractedVars]: an object used as a map from names to word lists;
    assigning an existing key keeps its place. *)
Definition vars : Type := list (string * list string).

Fixpoint assign (name : string) (values : list string) (o : vars) : vars :=
  match o with
  | [] => [(name, values)]
  | (k, v) :: o' =>
      if String.eqb k name then (k, values) :: o'
      else (k, v) :: assign name values o'
  end.

Record matchResult : Type := {
  matched : bool;
  variables : vars;
}.

(** A [while (inputIndex < inputWords.length && p(inputWords[inputIndex]))]
    loop pushing [f] of each word: the collected values and the number of
    words consumed, computed on the words from [inputIndex] on. *)
Fixpoint consume (p : string -> bool) (f : string -> string)
         (remaining : list string) : list string * nat :=
  match remaining with
  | [] => ([], O)
  | w :: remaining' =>
      if p w
      then let '(values, n) := consume p f remaining' in (f w :: values, S n)
      else ([], O)
  end.

(** The [for] loop over the tokens, from the token list still to visit. *)
Fixpoint walk (tokens : list token) (inputWords : list string)
         (inputIndex : nat) (extractedVars : vars) : option (nat * vars) :=
  match tokens with
  | [] => Some (inputIndex, extractedVars)
  | token :: later =>
      match token with
      | literal value _ =>
          match inputWords !! inputIndex with
          | None => None
          | Some w =>
              if negb (String.eqb w value) then None
              else walk later inputWords (S inputIndex) extractedVars
          end
      | variable name _ =>
          let remaining := skipn inputIndex inputWords in
          let '(variableValues, n) :=
            if String.eqb name "labels"
            then consume (startsWith "~") slice1 remaining
            else match later with
                 | literal nextValue _ :: _ =>
                     consume (fun w => negb (String.eqb w nextValue)) (fun w => w) remaining
                 | _ => consume (fun _ => true) (fun w => w) remaining
                 end in
          walk later inputWords (inputIndex + n)%nat (assign name variableValues extractedVars)
      end
  end.

(** [match(input)] for a string [input]; [None] is [null].  The method
    is named [match_] because [match] is reserved. *)
Definition match_ (fw : framework) (input : string) : option matchResult :=
  if String.eqb input "" then None
  else
    let inputWords := split_ws (trim input) in
    match inputWords with
    | [ "" ] => None
    | _ =>
        match walk (tokens fw) inputWords 0%nat [] with
        | None => None
        | Some (inputIndex, extractedVars) =>
            if negb (Nat.eqb inputIndex (length inputWords)) then None
            else Some {| matched := true; variables := extractedVars |}
        end
    end.

Definition handleInput (fw : framework) (message : string) : option matchResult :=
  if String.eqb message "" then None
  else
    let mention := "@" ++ bot_username fw in
    if prefix fw && negb (startsWith mention message) then None
    else
      let m := if prefix fw
               then trim (string_drop (String.length mention) message)
               else message in
      match_ fw m.

End CommandFramework.

(* ===================================================================== *)
(** * The action executor (with [registerExtension]) *)
(* ===================================================================== *)

Module ActionExecutor.
Import JS.

(** ** Resources and the remote client *)

Record user : Type := { username : jsval }.

(** An entry of [assignees]/[reviewers]: an object with a [username], or
    a bare name. *)
Inductive userRef : Type :=
| UserObject (u : user)
| UserName (s : string).

(** [field r name] is [resource[name]] for the scalar properties; the
    object-valued ones are [None] when missing or null, and are
    represented by the one property the executor reads from them. *)
Record resource : Type := {
  id : Z;
  project_id : Z;
  iid : Z;
  name : string;
  labels : option (list string);
  field : string -> jsval;
  author : option user;
  assignee : option user;
  assignees : option (list userRef);
  reviewers : option (list userRef);
  closed_by : option user;
  merged_by : option user;
  milestone : option jsval;
  references : option jsval;
  head_pipeline : option jsval;
}.

Definition set_labels (r : resource) (l : list string) : resource :=
  {| id := id r; project_id := project_id r; iid := iid r; name := name r;
     labels := Some l; field := field r; author := author r;
     assignee := assignee r; assignees := assignees r; reviewers := reviewers r;
     closed_by := closed_by r; merged_by := merged_by r; milestone := milestone r;
     references := references r; head_pipeline := head_pipeline r |}.

Inductive client : Type := Issues | MergeRequests.
Inductive notesClient : Type := IssueNotes | MergeRequestNotes.

Inductive editParams : Type :=
| labels_param (l : list string)
| stateEvent_param (s : string)
| no_param
| assignee_id_param (assigneeId : Z)
| reviewer_ids_param (ids : list Z).

Record noteOptions : Type := { internal : bool; type : option string }.
Record mergeOptions : Type := { cancel : bool; when_pipeline_succeeds : option bool }.

(** The write operations of the GitLab client. *)
Inductive call : Type :=
| edit (c : client) (project_id iid : Z) (p : editParams)
| notes_create (c : notesClient) (project_id iid : Z) (body : string)
               (options : option noteOptions)
| Issues_move (project_id iid : Z) (targetProjectPath : string)
| MergeRequests_merge (project_id iid : Z) (o : mergeOptions)
| MergeRequests_cancelOnPipelineSuccess (project_id iid : Z)
| Branches_remove (project_id : Z) (branch : string).

(** Objects are held by reference. *)
Abbreviation loc := nat.

Inductive event : Type :=
| remote (c : call)
| extension_run (key : string) (resource : loc) (resourceType : string) (dryRun : bool).

(** The remote service: what it answers to a call, given everything
    that happened before; [Throw] is a rejected request. *)
Definition gitlab_client : Type := list event -> call -> outcome resource.

(** ** State: the object heap and the log of calls made *)

Record store : Type := {
  heap : list resource;
  log : list event;
}.

Definition M (A : Type) : Type := store -> outcome A * store.

Definition ret {A} (a : A) : M A := fun s => (Return a, s).
Definition throw {A} (msg : string) : M A := fun s => (Throw msg, s).
Definition bind {A B} (m : M A) (k : A -> M B) : M B :=
  fun s =>
    match m s with
    | (Return a, s') => k a s'
    | (Throw msg, s') => (Throw msg, s')
    end.

Notation "'let*' x ':=' m 'in' k" := (bind m (fun x => k))
  (at level 10, x name, m at level 100, k at level 200).
Notation "m '>>' k" := (bind m (fun _ => k))
  (at level 100, k at level 200, right associativity).

Definition get_resource (l : loc) : M resource :=
  fun s =>
    match heap s !! l with
    | Some r => (Return r, s)
    | None => (Throw "ReferenceError", s)
    end.

Definition put_resource (l : loc) (r : resource) : M unit :=
  fun s => (Return tt, {| heap := <[l := r]> (heap s); log := log s |}).

Definition emit (e : event) : M unit :=
  fun s => (Return tt, {| heap := heap s; log := (log s ++ [e])%list |}).

(** An awaited call on the client: it is logged, and the record it
    resolves to becomes a new object. *)
Definition request (gitlab : gitlab_client) (c : call) : M loc :=
  fun s =>
    let s' := {| heap := heap s; log := (log s ++ [remote c])%list |} in
    match gitlab (log s) c with
    | Return r => (Return (length (heap s)), {| heap := (heap s ++ [r])%list; log := log s' |})
    | Throw msg => (Throw msg, s')
    end.

(** An extension instance: what its [run(resource, resourceType, dryRun)]
    does.  The instance is built around the executor
    ([new extensionClass(this)]), so its [run] may do whatever the
    executor and its client can do: change objects and call the remote
    client, in a dry run as in a live one. *)
Definition extension : Type := loc -> string -> bool -> M unit.

Record executor : Type := {
  gitlab : gitlab_client;
  extensionLoaded : gmap string extension;
  (** [import()] of a module path followed by [new script.default(this)];
      [None] when the import is rejected. *)
  import_extension : string -> option extension;
}.

Definition registerExtension (this : executor) (extensionClass : option extension)
           (alias : string) : outcome executor :=
  match extensionClass with
  | Some instance =>
      if String.eqb alias ""
      then Throw "Both extensionClass and alias are required to register an extension."
      else Return {| gitlab := gitlab this;
                     extensionLoaded := <[alias := instance]> (extensionLoaded this);
                     import_extension := import_extension this |}
  | None => Throw "Both extensionClass and alias are required to register an extension."
  end.

Definition run_extension (key : string) (x : extension) (resource : loc)
           (resourceType : string) (dryRun : bool) : M unit :=
  emit (extension_run key resource resourceType dryRun) >>
  x resource resourceType dryRun.

(** ** The configured actions *)

Inductive reviewerIds : Type :=
| one_reviewer (id : Z)
| many_reviewers (ids : list Z).

Record actions : Type := {
  labels_action : option (list string);
  remove_labels : option (list string);
  status : option string;
  mention : option (list string);
  move : option string;
  comment : option string;
  comment_type : option string;
  comment_internal : option bool;
  delete : option bool;
  assignee_action : option Z;
  reviewer : option reviewerIds;
  merge : option mergeOptions;
  extension_action : option string;
}.

Definition getApiClient (resourceType : string) : M client :=
  if String.eqb resourceType "issue" then ret Issues
  else if String.eqb resourceType "merge_request" then ret MergeRequests
  else throw ("Unsupported resource type: " ++ resourceType).

Definition getNotesApiClient (resourceType : string) : M notesClient :=
  if String.eqb resourceType "issue" then ret IssueNotes
  else if String.eqb resourceType "merge_request" then ret MergeRequestNotes
  else throw ("Unsupported resource type: " ++ resourceType).

(** ** Comment templates *)

Definition at_user (u : user) : jsval := JStr ("@" ++ to_string (username u)).

(** [a.username || a] inside a template literal *)
Definition ref_text (a : userRef) : string :=
  match a with
  | UserObject u => to_string (or_else (username u) (JObject "user"))
  | UserName s => s
  end.

Definition from_option (o : option jsval) (otherwise : jsval) : jsval :=
  match o with
  | Some v => v
  | None => otherwise
  end.

(** The own properties of the [placeholders] literal, in source order. *)
Definition placeholders (r : resource) : list (string * jsval) :=
  [ ("created_at", field r "created_at");
    ("updated_at", field r "updated_at");
    ("closed_at", field r "closed_at");
    ("merged_at", field r "merged_at");
    ("state", field r "state");
    ("author", from_option (at_user <$> author r) (JStr ""));
    ("assignee", from_option (at_user <$> assignee r) JNull);
    ("assignees",
      from_option ((fun l => JStr (join ", " (map (fun a => "@" ++ ref_text a) l)))
                     <$> assignees r) JNull);
    ("reviewers",
      from_option ((fun l => JStr (join ", " (map (fun a => "@" ++ ref_text a) l)))
                     <$> reviewers r) JNull);
    ("closed_by", from_option (at_user <$> closed_by r) JNull);
    ("merged_by", from_option (at_user <$> merged_by r) JNull);
    ("milestone", from_option (milestone r) JNull);
    ("labels",
      from_option ((fun l => JStr (join ", " (map (fun x => "~" ++ x) l)))
                     <$> labels r) JNull);
    ("upvotes", field r "upvotes");
    ("downvotes", field r "downvotes");
    ("title", field r "title");
    ("web_url", field r "web_url");
    ("full_reference", from_option (references r) (JStr ""));
    ("type",
      or_else (field r "type")
              (if negb (strict_equal (field r "merge_status") JUndefined)
               then JStr "merge_request" else JStr "issue"));
    ("source_branch", field r "source_branch");
    ("target_branch", field r "target_branch");
    ("merge_status", field r "merge_status");
    ("pipeline_status", from_option (head_pipeline r) JNull) ].

Fixpoint own_property (o : list (string * jsval)) (key : string) : option jsval :=
  match o with
  | [] => None
  | (k, v) :: o' => if String.eqb k key then Some v else own_property o' key
  end.

(** What an object literal inherits from [Object.prototype]. *)
Definition object_prototype (key : string) : jsval :=
  if String.eqb key "__proto__" then JObject "Object.prototype"
  else if String.eqb key "constructor" then JNative "Object"
  else if includes key
            ["toString"; "toLocaleString"; "valueOf"; "hasOwnProperty";
             "isPrototypeOf"; "propertyIsEnumerable"; "__defineGetter__";
             "__defineSetter__"; "__lookupGetter__"; "__lookupSetter__"]
  then JNative key
  else JUndefined.

(** [o[key]] on an object literal: own properties, then the prototype. *)
Definition get_property (o : list (string * jsval)) (key : string) : jsval :=
  match own_property o key with
  | Some v => v
  | None => object_prototype key
  end.

(** The replacer [(_, key) => placeholders[key] || ''], converted to a
    string as [replace] does. *)
Definition replacer (r : resource) (key : string) : string :=
  to_string (or_else (get_property (placeholders r) key) (JStr "")).

(** After an opening [{{]: the lazy [(.*?)] up to the first [}}], with no
    line terminator in between.  Returns the key and the text after the
    closing braces. *)
Fixpoint close_placeholder (key : string) (s : string) : option (string * string) :=
  match s with
  | EmptyString => None
  | String c s' =>
      if startsWith "}}" s then Some (key, CommandFramework.string_drop 2 s)
      else if is_line_terminator c then None
      else close_placeholder (key ++ String c "") s'
  end.

(** [template.replace(/{{(.*?)}}/g, f)]: matches are found left to right
    in the template and the scan resumes after each match; [fuel] bounds
    the number of steps by the length of the template. *)
Fixpoint replace_placeholders (fuel : nat) (f : string -> string) (s : string) : string :=
  match fuel with
  | O => s
  | S fuel' =>
      match s with
      | EmptyString => EmptyString
      | String c s' =>
          let skip := String c (replace_placeholders fuel' f s') in
          if startsWith "{{" s then
            match close_placeholder "" (CommandFramework.string_drop 2 s) with
            | Some (key, rest) => f key ++ replace_placeholders fuel' f rest
            | None => skip
            end
          else skip
      end
  end.

Definition unmarkComment (r : resource) (commentTemplate : string) : string :=
  replace_placeholders (String.length commentTemplate) (replacer r) commentTemplate.

(** ** The actions *)

Definition addLabels (this : executor) (resource : loc) (labels_ : list string)
           (resourceType : string) (dryRun : bool) : M loc :=
  let* r := get_resource resource in
  match labels r with
  | None => throw "TypeError"
  | Some old =>
      put_resource resource (set_labels r (old ++ labels_)%list) >>
      if negb dryRun then
        let* apiClient := getApiClient resourceType in
        request (gitlab this)
          (edit apiClient (project_id r) (iid r) (labels_param (old ++ labels_)%list))
      else ret resource
  end.

Definition removeLabels (this : executor) (resource : loc) (labels_ : list string)
           (resourceType : string) (dryRun : bool) : M loc :=
  let* r := get_resource resource in
  match labels r with
  | None => throw "TypeError"
  | Some old =>
      let kept := List.filter (fun x => negb (includes x labels_)) old in
      put_resource resource (set_labels r kept) >>
      if negb dryRun then
        let* apiClient := getApiClient resourceType in
        request (gitlab this)
          (edit apiClient (project_id r) (iid r) (labels_param kept))
      else ret resource
  end.

Definition mergeMergeRequest (this : executor) (resource : loc)
           (mergeOptions : mergeOptions) (dryRun : bool) : M loc :=
  if negb dryRun then
    let* r := get_resource resource in
    if cancel mergeOptions
    then request (gitlab this)
           (MergeRequests_cancelOnPipelineSuccess (project_id r) (iid r))
    else request (gitlab this)
           (MergeRequests_merge (project_id r) (iid r) mergeOptions)
  else ret resource.

Definition changeStatus (this : executor) (resource : loc) (status_ : string)
           (resourceType : string) (dryRun : bool) : M loc :=
  if negb dryRun then
    let* apiClient := getApiClient resourceType in
    let* r := get_resource resource in
    if String.eqb resourceType "issue"
    then request (gitlab this)
           (edit apiClient (project_id r) (iid r) (stateEvent_param status_))
    else if String.eqb resourceType "merge_request"
    then if String.eqb status_ "close" || String.eqb status_ "reopen"
         then request (gitlab this)
                (edit apiClient (project_id r) (iid r) (stateEvent_param status_))
         else if String.eqb status_ "merge"
         then mergeMergeRequest this resource
                {| cancel := false; when_pipeline_succeeds := Some false |} dryRun
         else request (gitlab this) (edit apiClient (project_id r) (iid r) no_param)
    else request (gitlab this) (edit apiClient (project_id r) (iid r) no_param)
  else ret resource.

Definition assignResource (this : executor) (resource : loc) (assigneeId : Z)
           (resourceType : string) (dryRun : bool) : M loc :=
  if negb dryRun then
    let* apiClient := getApiClient resourceType in
    let* r := get_resource resource in
    request (gitlab this)
      (edit apiClient (project_id r) (iid r) (assignee_id_param assigneeId))
  else ret resource.

Definition assignReviewer (this : executor) (resource : loc)
           (reviewerIds : reviewerIds) (dryRun : bool) : M loc :=
  if negb dryRun then
    let* r := get_resource resource in
    request (gitlab this)
      (edit MergeRequests (project_id r) (iid r)
         (reviewer_ids_param
            match reviewerIds with
            | many_reviewers ids => ids
            | one_reviewer i => [i]
            end))
  else ret resource.

Definition mentionUsers (this : executor) (resource : loc) (users : list string)
           (resourceType : string) (dryRun : bool) : M loc :=
  let mentionText := join " " (map (fun user => "@" ++ user) users) in
  if negb dryRun then
    let* notes := getNotesApiClient resourceType in
    let* r := get_resource resource in
    request (gitlab this)
      (notes_create notes (project_id r) (iid r) mentionText None) >>
    ret resource
  else ret resource.

Definition moveResource (this : executor) (resource : loc)
           (targetProjectPath : string) (dryRun : bool) : M loc :=
  if negb dryRun then
    let* r := get_resource resource in
    request (gitlab this) (Issues_move (project_id r) (iid r) targetProjectPath)
  else ret resource.

Definition addComment (this : executor) (resource : loc) (a : actions)
           (resourceType : string) (dryRun : bool) : M loc :=
  let* r := get_resource resource in
  let comment_ := unmarkComment r (default "" (comment a)) in
  if negb dryRun then
    let options :=
      {| internal := default false (comment_internal a);
         type := if String.eqb resourceType "issue"
                 then match comment_type a with
                      | Some t => if String.eqb t "" then None else Some t
                      | None => None
                      end
                 else None |} in
    let* notes := getNotesApiClient resourceType in
    request (gitlab this)
      (notes_create notes (project_id r) (iid r) comment_ (Some options))
  else ret resource.

Definition deleteBranch (this : executor) (resource : loc) (dryRun : bool) : M loc :=
  let* r := get_resource resource in
  if negb dryRun then
    request (gitlab this) (Branches_remove (project_id r) (name r)) >>
    ret resource
  else ret resource.

(** ** [execute] *)

Definition string_truthy (o : option string) : bool :=
  match o with
  | Some s => negb (String.eqb s "")
  | None => false
  end.

Definition present {A} (o : option A) : bool :=
  match o with
  | Some _ => true
  | None => false
  end.

Definition reviewer_truthy (o : option reviewerIds) : bool :=
  match o with
  | Some (one_reviewer i) => negb (i =? 0)
  | Some (many_reviewers _) => true
  | None => false
  end.

(** [if (c) resource = await act] *)
Definition rebind_if (c : bool) (act : M loc) (resource : loc) : M loc :=
  if c then act else ret resource.

(** How the body of the [for] loop is left. *)
Inductive completion : Type :=
| next_iteration
| return_from_execute.

Definition dispatch_extension (this : executor) (a : actions) (resource : loc)
           (resourceType : string) (dryRun : bool) : M completion :=
  match extension_action a with
  | Some key =>
      if String.eqb key "" then ret next_iteration
      else
        match extensionLoaded this !! key with
        | Some instance =>
            run_extension key instance resource resourceType dryRun >>
            ret return_from_execute
        | None =>
            match import_extension this key with
            | Some instanceOfScript =>
                run_extension key instanceOfScript resource resourceType dryRun >>
                ret next_iteration
            | None => throw "ERR_MODULE_NOT_FOUND"
            end
        end
  | None => ret next_iteration
  end.

(** The body of the [for] loop, in three stretches: the two label
    actions, which hand the record to work on to what follows; the other
    built-in actions; the extension. *)
Definition label_actions (this : executor) (a : actions) (resourceType : string)
           (dryRun : bool) (resource : loc) : M loc :=
  let* resource := rebind_if (present (labels_action a))
                     (addLabels this resource (default [] (labels_action a))
                                resourceType dryRun) resource in
  rebind_if (present (remove_labels a))
    (removeLabels this resource (default [] (remove_labels a))
                  resourceType dryRun) resource.

Definition built_in_actions (this : executor) (a : actions) (resourceType : string)
           (dryRun : bool) (resource : loc) : M loc :=
  let* resource := label_actions this a resourceType dryRun resource in
  let* resource := rebind_if (string_truthy (status a))
                     (changeStatus this resource (default "" (status a))
                                   resourceType dryRun) resource in
  let* resource := rebind_if (present (mention a))
                     (mentionUsers this resource (default [] (mention a))
                                   resourceType dryRun) resource in
  let* resource := rebind_if (string_truthy (move a) && String.eqb resourceType "issue")
                     (moveResource this resource (default "" (move a)) dryRun)
                     resource in
  let* _ := rebind_if (string_truthy (comment a))
              (addComment this resource a resourceType dryRun) resource in
  let* _ := rebind_if (default false (delete a) && String.eqb resourceType "branch")
              (deleteBranch this resource dryRun) resource in
  let* resource := rebind_if (match assignee_action a with
                              | Some n => negb (n =? 0)
                              | None => false
                              end)
                     (assignResource this resource (default 0 (assignee_action a))
                                     resourceType dryRun) resource in
  let* resource := rebind_if (reviewer_truthy (reviewer a)
                              && String.eqb resourceType "merge_request")
                     (assignReviewer this resource
                        (default (many_reviewers []) (reviewer a)) dryRun) resource in
  rebind_if (present (merge a) && String.eqb resourceType "merge_request")
    (mergeMergeRequest this resource
       (default {| cancel := false; when_pipeline_succeeds := None |} (merge a))
       dryRun) resource.

Definition execute_body (this : executor) (a : actions) (resourceType : string)
           (dryRun : bool) (resource : loc) : M completion :=
  let* resource := built_in_actions this a resourceType dryRun resource in
  dispatch_extension this a resource resourceType dryRun.

Fixpoint execute (this : executor) (a : actions) (resources : list loc)
         (resourceType : string) (dryRun : bool) : M unit :=
  match resources with
  | [] => ret tt
  | resource :: rest =>
      let* c := execute_body this a resourceType dryRun resource in
      match c with
      | return_from_execute => ret tt
      | next_iteration => execute this a rest resourceType dryRun
      end
  end.

(** The calls on the remote client recorded in a log. *)
Definition remote_calls (l : list event) : list call :=
  omap (fun e => match e with remote c => Some c | _ => None end) l.

Definition labels_at (s : store) (l : loc) : option (list string) :=
  r ← heap s !! l; labels r.

End ActionExecutor.

(* ===================================================================== *)
(** * Notions and sample data used to state properties of the policy engine *)
(* ===================================================================== *)

Module PolicyEngineNotions.
Import JS PolicyEngine.

(** The reading of a required-label list that treats brace entries and
    plain entries as two independent checks: every brace entry has an
    expansion among the names, and every plain entry is among them. *)
Definition labels_independent_checks (labelNames : list string)
           (requiredLabels : list string) : bool :=
  forallb (fun entry =>
             if includes_char "{" entry
             then existsb (fun x => includes x labelNames) (stringToArray entry)
             else includes entry labelNames)
          requiredLabels.

Definition group_satisfied (labelNames : list string) (entry : string) : bool :=
  existsb (fun x => includes x labelNames) (stringToArray entry).

Definition known_interval_types : list string :=
  ["minutes"; "hours"; "days"; "weeks"; "months"; "years"].

(** Each unit a date condition can ask for, with the date-fns function
    that measures a difference in that unit. *)
Definition unit_differences (F : dateFns) : list (string * (Z -> Z -> Z)) :=
  [("minutes", differenceInMinutes F); ("hours", differenceInHours F);
   ("days", differenceInDays F); ("weeks", differenceInWeeks F);
   ("months", differenceInMonths F); ("years", differenceInYears F)].

(** Modelled from the spec: date-fns is an external package; for days the
    difference is the signed number of full 24-hour periods, truncated
    toward zero (no daylight-saving shift between the two instants). *)
Definition truncates_days (F : dateFns) : Prop :=
  forall a b, differenceInDays F a b = (a - b) ÷ 86400000.

Definition day_ms : Z := 86400000.

(** A stand-in for date-fns on which statements can be evaluated: every
    string parses to the epoch, and differences are truncated quotients. *)
Definition sample_dateFns : dateFns :=
  {| parseISO := fun v => match v with
                          | JStr _ => Return (Some 0)
                          | _ => Throw "TypeError"
                          end;
     differenceInMinutes := fun a b => (a - b) ÷ 60000;
     differenceInHours := fun a b => (a - b) ÷ 3600000;
     differenceInDays := fun a b => (a - b) ÷ 86400000;
     differenceInWeeks := fun a b => ((a - b) ÷ 86400000) ÷ 7;
     differenceInMonths := fun a b => ((a - b) ÷ 86400000) ÷ 30;
     differenceInYears := fun a b => ((a - b) ÷ 86400000) ÷ 365 |}.

Definition sample_resource : resource :=
  {| prop := fun k => if String.eqb k "updated_at"
                      then JStr "1970-01-01T00:00:00.000Z" else JUndefined;
     created_time := 0;
     labels := Some [];
     author_of := AuthorObject {| user_id := JNum 1; username := JStr "alice" |};
     milestone_of := MilestoneScalar JNull;
     references_full := Some (JStr "group/project#1") |}.

(** [a] may stand before [b] when [a] was created no earlier than [b]. *)
Definition newest_first (a b : resource) : Prop := created_time b <= created_time a.

Definition by_created_desc (a b : resource) : Z := created_time b - created_time a.

Definition created_at_ (t : Z) : resource :=
  {| prop := fun _ => JUndefined; created_time := t; labels := Some [];
     author_of := AuthorScalar (JStr "alice");
     milestone_of := MilestoneScalar JNull;
     references_full := None |}.

Definition unsupported_source : memberConfig :=
  {| source := JStr "project"; source_id := JNum 42;
     member_condition := JStr "member_of" |}.

Definition missing_source : memberConfig :=
  {| source := JUndefined; source_id := JNum 42;
     member_condition := JStr "member_of" |}.

End PolicyEngineNotions.

(* ===================================================================== *)
(** * Notions and sample data used to state properties of the command framework *)
(* ===================================================================== *)

Module CommandFrameworkNotions.
Import JS CommandFramework.

Definition labels_tokens : list token := [literal "labels" 0; variable "labels" 1].

End CommandFrameworkNotions.

(* ===================================================================== *)
(** * Notions and sample data used to state properties of the action executor *)
(* ===================================================================== *)

Module ActionExecutorNotions.
Import JS ActionExecutor.

(** A computation is quiet when it records no call on the remote client. *)
Definition quiet {A} (m : M A) : Prop :=
  forall s, remote_calls (log (m s).2) = remote_calls (log s).

(** A computation frames the object at [l] when it leaves it as it is. *)
Definition frames {A} (l : loc) (m : M A) : Prop :=
  forall s x, heap s !! l = Some x -> heap (m s).2 !! l = Some x.

(** Every extension the executor can reach makes no call of its own on
    the remote client when it is run with [dryRun = true]. *)
Definition dry_quiet (this : executor) : Prop :=
  forall key x,
    extensionLoaded this !! key = Some x \/ import_extension this key = Some x ->
    forall l ty, quiet (x l ty true).

(** The remote answers an edit of the labels with a record that carries
    the labels it was sent. *)
Definition label_faithful (g : gitlab_client) : Prop :=
  forall history c project_id iid ls r,
    g history (edit c project_id iid (labels_param ls)) = Return r ->
    labels r = Some ls.

(** The extension runs recorded in a log. *)
Definition extension_runs (l : list event) : list event :=
  List.filter (fun e => match e with
                        | extension_run _ _ _ _ => true
                        | remote _ => false
                        end) l.

(** The labels the two label actions compute from the labels [old]. *)
Definition after_add (add : option (list string)) (old : list string) : list string :=
  match add with
  | Some ls => (old ++ ls)%list
  | None => old
  end.

Definition after_remove (remove : option (list string)) (old : list string) : list string :=
  match remove with
  | Some ls => List.filter (fun x => negb (includes x ls)) old
  | None => old
  end.

(** What a dry run leaves on the resource object it was given. *)
Definition dry_labels (a : actions) (old : list string) : list string :=
  after_remove (remove_labels a) (after_add (labels_action a) old).

(** What a live run leaves on the resource object it was given: once
    [labels] has been applied, the run goes on with the record returned
    by the remote edit. *)
Definition live_labels (a : actions) (old : list string) : list string :=
  match labels_action a with
  | Some ls => (old ++ ls)%list
  | None => after_remove (remove_labels a) old
  end.

Definition disjoint_labels (l1 l2 : list string) : Prop :=
  forall x, x ∈ l1 -> x ∈ l2 -> False.

(** A resource, a remote that answers every edit with the record it was
    sent, and an executor around it. *)
Definition issue_with (ls : list string) : resource :=
  {| id := 1001; project_id := 7; iid := 12; name := "";
     labels := Some ls; field := fun _ => JUndefined;
     author := Some {| username := JStr "alice" |};
     assignee := None; assignees := None; reviewers := None;
     closed_by := None; merged_by := None; milestone := None;
     references := None; head_pipeline := None |}.

Definition echo_gitlab : gitlab_client :=
  fun _ c =>
    match c with
    | edit _ _ _ (labels_param ls) => Return (issue_with ls)
    | _ => Return (issue_with [])
    end.

(** A remote on which labels form a set: it answers an edit with the
    labels it was sent, each of them once. *)
Fixpoint once (ls : list string) : list string :=
  match ls with
  | [] => []
  | x :: ls' => if includes x ls' then once ls' else x :: once ls'
  end.

Definition set_gitlab : gitlab_client :=
  fun _ c =>
    match c with
    | edit _ _ _ (labels_param ls) => Return (issue_with (once ls))
    | _ => Return (issue_with [])
    end.

Definition set_executor : executor :=
  {| gitlab := set_gitlab; extensionLoaded := ∅; import_extension := fun _ => None |}.

Definition echo_executor : executor :=
  {| gitlab := echo_gitlab; extensionLoaded := ∅; import_extension := fun _ => None |}.

Definition one_issue (ls : list string) : store :=
  {| heap := [issue_with ls]; log := [] |}.

Definition add_only (add : list string) : actions :=
  {| labels_action := Some add; remove_labels := None; status := None;
     mention := None; move := None; comment := None; comment_type := None;
     comment_internal := None; delete := None; assignee_action := None;
     reviewer := None; merge := None; extension_action := None |}.

Definition add_then_remove (add remove : list string) : actions :=
  {| labels_action := Some add; remove_labels := Some remove; status := None;
     mention := None; move := None; comment := None; comment_type := None;
     comment_internal := None; delete := None; assignee_action := None;
     reviewer := None; merge := None; extension_action := None |}.

(** An extension that relabels the resource it is run on. *)
Definition stamp : extension :=
  fun l _ _ =>
    let* r := get_resource l in
    put_resource l (set_labels r ["seen"]).

(** An extension that edits the resource on the remote without looking
    at [dryRun]. *)
Definition eager : extension :=
  fun l _ _ =>
    let* r := get_resource l in
    request echo_gitlab (edit Issues (project_id r) (iid r) (labels_param ["seen"])) >>
    ret tt.

Definition via_extension (alias : string) : actions :=
  {| labels_action := None; remove_labels := None; status := None; mention := None;
     move := None; comment := None; comment_type := None; comment_internal := None;
     delete := None; assignee_action := None; reviewer := None; merge := None;
     extension_action := Some alias |}.

Definition two_issues : store :=
  {| heap := [issue_with ["a"]; issue_with ["b"]]; log := [] |}.

Definition eager_executor : executor :=
  {| gitlab := echo_gitlab; extensionLoaded := {[ "eager" := eager ]};
     import_extension := fun _ => None |}.

Definition stamping_executor : executor :=
  {| gitlab := echo_gitlab; extensionLoaded := {[ "stamp" := stamp ]};
     import_extension := fun _ => None |}.

(** A key the lazy group can be: no closing brace, no line terminator. *)
Definition key_char (c : ascii) : bool :=
  negb (Ascii.eqb c "}") && negb (is_line_terminator c).

Fixpoint all_chars (p : ascii -> bool) (s : string) : bool :=
  match s with
  | EmptyString => true
  | String c s' => p c && all_chars p s'
  end.

Definition unvoted_issue : resource :=
  {| id := 1001; project_id := 7; iid := 12; name := "";
     labels := Some ["bug"];
     field := fun k => if String.eqb k "upvotes" then JNum 0
                       else if String.eqb k "title" then JStr "Crash on start"
                       else JUndefined;
     author := Some {| username := JStr "alice" |};
     assignee := None; assignees := None; reviewers := None;
     closed_by := None; merged_by := None; milestone := None;
     references := None; head_pipeline := None |}.

End ActionExecutorNotions.

(* ===================================================================== *)
(** * src/core/policyEngine.js: the filter registry and rule processing *)
(* ===================================================================== *)

Module PolicyEngineRules.
Import JS PolicyEngine.

(** [registerCustomFilter(name, filterFn)]: [customFilters.set]. *)
Definition registerCustomFilter (E : engine) (name : string)
           (filterFn : resource -> jsval -> outcome jsval) : engine :=
  {| date_fns := date_fns E; now := now E;
     GroupMembers_show := GroupMembers_show E;
     run_script := run_script E;
     StringToNumber := StringToNumber E;
     customFilters := <[name := filterFn]> (customFilters E) |}.

(** A policy rule as [processRule] reads it; a missing [conditions] is
    the empty list. *)
Record rule : Type := {
  name : string;
  conditions : list conditionEntry;
  rule_limits : option limits;
}.

(** [filterResources] on an array held in the store: the array itself
    when there is no condition, a new array otherwise. *)
Definition filterResourcesIn (E : engine) (st : arrays) (resources : array_ref)
           (conds : list conditionEntry) : outcome (arrays * array_ref) :=
  match conds with
  | [] => Return (st, resources)
  | _ =>
      match filterResources E (read st resources) conds with
      | Throw m => Throw m
      | Return kept => Return (alloc st kept)
      end
  end.

Definition processRule (E : engine) (st : arrays) (resources : array_ref)
           (r : rule) : outcome (arrays * array_ref) :=
  match filterResourcesIn E st resources (conditions r) with
  | Throw m => Throw m
  | Return (st1, filteredResources) =>
      match rule_limits r with
      | Some lim => Return (applyLimits st1 filteredResources (Some lim))
      | None => Return (st1, filteredResources)
      end
  end.

End PolicyEngineRules.

(* ===================================================================== *)
(** * src/core/CommandFramework.js: queries on the parsed pattern *)
(* ===================================================================== *)

Module CommandFrameworkQueries.
Import JS CommandFramework.

Definition getTokens (fw : framework) : list token := tokens fw.

Definition isSimpleCommand (fw : framework) : bool :=
  forallb (fun token => match token with
                        | literal _ _ => true
                        | variable _ _ => false
                        end) (tokens fw).

Definition getPattern (fw : framework) : string :=
  join " " (map (fun token => match token with
                              | literal value _ => value
                              | variable name _ => "{{..." ++ name ++ "}}"
                              end) (tokens fw)).

End CommandFrameworkQueries.

(* ===================================================================== *)
(** * The resource processor: short references *)
(* ===================================================================== *)

Module ResourceProcessor.
Import JS.

Definition getResourceTypeFromReference (resourceReference : string) : outcome string :=
  if startsWith "#" resourceReference then Return "issue"
  else if startsWith "!" resourceReference then Return "merge_request"
  else Throw ("Invalid resource reference " ++ resourceReference).

End ResourceProcessor.

(* ===================================================================== *)
(** * src/index.js: the actions of a webhook rule *)
(* ===================================================================== *)

Module HookManager.
Import JS CommandFramework ActionExecutor.

(** [variables.labels] on a match result. *)
Fixpoint captured (vs : vars) (name : string) : option (list string) :=
  match vs with
  | [] => None
  | (k, v) :: vs' => if String.eqb k name then Some v else captured vs' name
  end.

(** The label list of a [labels] or [remove_labels] entry: a copy of the
    configured list in which, when there is a match and the list holds
    the entry [{{...labels}}], that entry is dropped and the captured
    labels are pushed at the end. *)
Definition hookLabels (configured : list string) (m : option matchResult) : list string :=
  match m with
  | Some mr =>
      if existsb (fun x => String.eqb x "{{...labels}}") configured
      then
        let labels_ := List.filter (fun x => negb (String.eqb x "{{...labels}}")) configured in
        match captured (variables mr) "labels" with
        | Some ls => (labels_ ++ ls)%list
        | None => labels_
        end
      else configured
  | None => configured
  end.

(** One key of [hook.actions] with its value, as the [switch] tells them
    apart; [on_merge None] is a value that is not an object. *)
Inductive hookAction : Type :=
| on_labels (configured : list string)
| on_remove_labels (configured : list string)
| on_status (s : string)
| on_assignee (assigneeId : Z)
| on_reviewer (ids : reviewerIds)
| on_merge (o : option mergeOptions)
| on_mention (users : list string)
| on_comment (template : string)
| on_move (targetProjectPath : string)
| on_other (key : string).

(** A hook with the resource loaded for it; the entries of [actions] are
    in the order [for ... in] visits them. *)
Record hook : Type := {
  hook_name : option string;
  hook_actions : list hookAction;
  hook_comment_type : option string;
  hook_comment_internal : option bool;
  hook_resource : loc;
}.

(** [try { ... } catch (error) { console.error(...) }] *)
Definition attempt {A} (m : M A) : M unit :=
  fun s => (Return tt, (m s).2).

Definition comment_actions (h : hook) (template : string) : actions :=
  {| labels_action := None; remove_labels := None; status := None; mention := None;
     move := None; comment := Some template; comment_type := hook_comment_type h;
     comment_internal := hook_comment_internal h; delete := None;
     assignee_action := None; reviewer := None; merge := None;
     extension_action := None |}.

Definition hook_step (this : executor) (h : hook) (m : option matchResult)
           (resourceType : string) (action : hookAction) : M unit :=
  let resource := hook_resource h in
  match action with
  | on_labels configured =>
      attempt (addLabels this resource (hookLabels configured m) resourceType false)
  | on_remove_labels configured =>
      attempt (removeLabels this resource (hookLabels configured m) resourceType false)
  | on_status s => attempt (changeStatus this resource s resourceType false)
  | on_assignee i => attempt (assignResource this resource i resourceType false)
  | on_reviewer ids =>
      if String.eqb resourceType "merge_request"
      then attempt (assignReviewer this resource ids false)
      else ret tt
  | on_merge o =>
      if String.eqb resourceType "merge_request"
      then attempt (mergeMergeRequest this resource
                      (default {| cancel := false; when_pipeline_succeeds := Some false |} o)
                      false)
      else ret tt
  | on_mention users => attempt (mentionUsers this resource users resourceType false)
  | on_comment template =>
      (* [hook.name.replace(...)] comes first: a hook without a name
         fails here, inside the [try] *)
      attempt (match hook_name h with
               | Some _ =>
                   addComment this resource (comment_actions h template) resourceType false
               | None => throw "TypeError"
               end)
  | on_move target =>
      if String.eqb resourceType "issue"
      then attempt (moveResource this resource target false)
      else ret tt
  | on_other _ => ret tt
  end.

Fixpoint hook_loop (this : executor) (h : hook) (m : option matchResult)
         (resourceType : string) (todo : list hookAction) : M unit :=
  match todo with
  | [] => ret tt
  | action :: later =>
      hook_step this h m resourceType action >>
      hook_loop this h m resourceType later
  end.

Definition executeHookActions (this : executor) (h : hook) (m : option matchResult)
           (resourceType : string) : M unit :=
  hook_loop this h m resourceType (hook_actions h).

End HookManager.

(* ===================================================================== *)
(** * Notions used to state further properties *)
(* ===================================================================== *)

Module PolicyEngineRulesNotions.
Import JS PolicyEngine PolicyEngineRules.

(** A character predicate holds all along a string. *)
Fixpoint every_char (p : ascii -> bool) (s : string) : bool :=
  match s with
  | EmptyString => true
  | String c s' => p c && every_char p s'
  end.

(** The resource satisfies all the conditions, without any of them
    throwing. *)
Definition passes (E : engine) (conds : list conditionEntry) (r : resource) : bool :=
  match evaluateConditions E r conds with
  | Return true => true
  | _ => false
  end.

(** [a] may stand before [b] when [a] was created no later than [b]. *)
Definition oldest_first (a b : resource) : Prop := created_time a <= created_time b.

Definition by_created_asc (a b : resource) : Z := created_time a - created_time b.

Definition created_at_instant (t : Z) (r : resource) : bool := created_time r =? t.

(** A resource with the given label names and nothing else. *)
Definition labelled (names : list string) : resource :=
  {| prop := fun _ => JUndefined; created_time := 0;
     labels := Some (map LabelString names);
     author_of := AuthorScalar (JStr "alice");
     milestone_of := MilestoneScalar JNull;
     references_full := None |}.

Definition is_other (c : conditionEntry) : bool :=
  match c with
  | other _ _ => true
  | _ => false
  end.

End PolicyEngineRulesNotions.

Module CommandFrameworkQueriesNotions.
Import JS CommandFramework CommandFrameworkQueries.

(** The text a token stands for in the pattern. *)
Definition token_text (t : token) : string :=
  match t with
  | literal value _ => value
  | variable name _ => "{{..." ++ name ++ "}}"
  end.

Definition is_literal (t : token) : bool :=
  match t with
  | literal _ _ => true
  | variable _ _ => false
  end.

Definition matched_with (vs : vars) : matchResult :=
  {| matched := true; variables := vs |}.

(** A word as [split(/\s+/)] yields them inside a trimmed text: not
    empty, and free of white space. *)
Definition no_space (w : string) : bool :=
  PolicyEngineRulesNotions.every_char (fun c => negb (is_space c)) w.

Definition word_like (w : string) : Prop := w <> "" /\ no_space w = true.

(** The first character of a text, if any, is not white space. *)
Definition clean_head (s : string) : Prop :=
  match s with
  | String c _ => is_space c = false
  | EmptyString => True
  end.

End CommandFrameworkQueriesNotions.

Module HookManagerNotions.
Import JS CommandFramework ActionExecutor HookManager ActionExecutorNotions.

(** What one entry of [hook.actions] does to the labels [old] of the
    hook's resource object. *)
Definition hook_label_effect (m : option matchResult) (old : list string)
           (action : hookAction) : list string :=
  match action with
  | on_labels configured => (old ++ hookLabels configured m)%list
  | on_remove_labels configured =>
      List.filter (fun x => negb (includes x (hookLabels configured m))) old
  | _ => old
  end.

(** Whether an entry of [hook.actions] gets as far as a request on the
    remote client, for a resource of a supported type. *)
Definition reaches_remote (h : hook) (resourceType : string) (action : hookAction) : bool :=
  match action with
  | on_labels _ | on_remove_labels _ | on_status _ | on_assignee _ | on_mention _ => true
  | on_reviewer _ | on_merge _ => String.eqb resourceType "merge_request"
  | on_comment _ => present (hook_name h)
  | on_move _ => String.eqb resourceType "issue"
  | on_other _ => false
  end.

(** A remote that rejects every request. *)
Definition failing_gitlab : gitlab_client := fun _ _ => Throw "503".

Definition failing_executor : executor :=
  {| gitlab := failing_gitlab; extensionLoaded := ∅; import_extension := fun _ => None |}.

Definition relabel_hook : hook :=
  {| hook_name := Some "relabel";
     hook_actions := [on_labels ["triaged"; "{{...labels}}"]; on_status "close";
                      on_remove_labels ["needs-triage"]];
     hook_comment_type := None; hook_comment_internal := None;
     hook_resource := 0%nat |}.

(** An extension that never fails and leaves the objects alone. *)
Definition noop_extension : extension := fun _ _ _ => ret tt.

Definition importing_executor : executor :=
  {| gitlab := echo_gitlab; extensionLoaded := ∅;
     import_extension := fun key => if String.eqb key "noop" then Some noop_extension
                                    else None |}.

(** Every action except the label ones and the extension. *)
Definition other_actions : actions :=
  {| labels_action := None; remove_labels := None; status := Some "close";
     mention := Some ["bob"]; move := Some "group/other"; comment := Some "{{author}} ping";
     comment_type := None; comment_internal := None; delete := Some true;
     assignee_action := Some 7; reviewer := Some (one_reviewer 8);
     merge := Some {| cancel := false; when_pipeline_succeeds := None |};
     extension_action := None |}.

(** A computation is inert when it leaves the whole store as it is. *)
Definition inert {A} (m : M A) : Prop := forall s, (m s).2 = s.

(** The text holds the opening of a placeholder somewhere. *)
Fixpoint has_opening (s : string) : bool :=
  startsWith "{{" s
  || match s with
     | String _ s' => has_opening s'
     | EmptyString => false
     end.

Definition supported (resourceType : string) : bool :=
  String.eqb resourceType "issue" || String.eqb resourceType "merge_request".

End HookManagerNotions.

(* ===================================================================== *)
(** * Properties *)
(* ===================================================================== *)

Import JS.

(** ** Label conditions *)

Section LabelsCondition.
Import PolicyEngine.
Import PolicyEngineNotions.

(** A boolean is never strictly equal to a string, so the filter inside
    the loop keeps nothing. *)
Lemma or_loop_filter_empties (label : string) (requiredLabels : list string) :
  List.filter (fun x => strict_equal (JBool (negb (truthy (JStr x)))) (JStr label))
              requiredLabels = [].
Proof. induction requiredLabels as [|x l IH]; simpl; auto. Qed.

Lemma or_loop_nil (labelNames orLabels : list string) :
  or_loop labelNames orLabels [] =
  if forallb (group_satisfied labelNames) orLabels then Some [] else None.
Proof.
  induction orLabels as [|g gs IH]; simpl; [reflexivity|].
  unfold group_satisfied at 1.
  destruct (existsb _ (stringToArray g)); simpl; [apply IH | reflexivity].
Qed.

Lemma or_loop_cons (labelNames : list string) (g : string) (gs required : list string) :
  or_loop labelNames (g :: gs) required =
  if forallb (group_satisfied labelNames) (g :: gs) then Some [] else None.
Proof.
  cbn [or_loop forallb]. unfold group_satisfied at 1.
  destruct (existsb _ (stringToArray g)); cbn [negb andb]; [|reflexivity].
  rewrite or_loop_filter_empties. apply or_loop_nil.
Qed.

(** What the code computes as soon as one brace entry is present: only
    the brace entries count. *)
Lemma evaluateLabelsCondition_groups_only
      (labels : option (list label)) (requiredLabels : list string) :
  includes "None" requiredLabels = false ->
  includes "Any" requiredLabels = false ->
  List.filter (includes_char "{") requiredLabels <> [] ->
  evaluateLabelsCondition labels requiredLabels =
  forallb (group_satisfied (map label_name (default [] labels)))
          (List.filter (includes_char "{") requiredLabels).
Proof.
  intros HNone HAny Hgroups. unfold evaluateLabelsCondition.
  rewrite HNone, HAny.
  destruct (List.filter (includes_char "{") requiredLabels) as [|g gs] eqn:E;
    [congruence|].
  rewrite or_loop_cons.
  destruct (forallb _ (g :: gs)); reflexivity.
Qed.

(** C1 (code at the failing input).  With labels [type::bug] and the
    required list [type::{bug,feature}; urgent], the brace entry is
    satisfied and the plain entry [urgent] is absent;
    [evaluateLabelsCondition] nevertheless returns true, whereas the two
    independent checks give false. *)
Theorem C1_plain_entries_dropped_after_group :
  evaluateLabelsCondition (Some [LabelString "type::bug"])
                          ["type::{bug,feature}"; "urgent"] = true
  /\ labels_independent_checks ["type::bug"] ["type::{bug,feature}"; "urgent"] = false
  /\ includes "urgent" ["type::bug"] = false.
Proof. repeat split; reflexivity. Qed.

End LabelsCondition.

(** ** Date conditions *)

Section DateCondition.
Import PolicyEngine.
Import PolicyEngineNotions.

Lemma timeDifference_unknown (F : dateFns) (u : string) (now : Z) (d : option Z) :
  u ∉ known_interval_types -> timeDifference F u now d = None.
Proof.
  intros Hu. unfold timeDifference.
  repeat match goal with
         | |- context [String.eqb u ?k] =>
             destruct (String.eqb_spec u k) as [->|_];
             [exfalso; apply Hu; unfold known_interval_types; set_solver|]
         end.
  reflexivity.
Qed.

Lemma timeDifference_unit (F : dateFns) (u : string) (f : Z -> Z -> Z) (now t : Z) :
  In (u, f) (unit_differences F) ->
  timeDifference F u now (Some t) = Some (Num (f now t)).
Proof.
  cbn [unit_differences In]. intros H.
  repeat (destruct H as [[= <- <-]|H]; [reflexivity|]). contradiction.
Qed.

(** C4.  A resource without the named attribute never satisfies a date
    condition.  With a parsed timestamp [t] and [f] the date-fns function
    that measures the requested unit, [older_than] is
    [f now t >= interval] and [newer_than] is [f now t <= interval].
    When the timestamp parses or is an invalid date, an unknown unit or
    an unknown condition gives false.  And a timestamp six days before
    now is older than 5 days and not older than 7 days. *)
Theorem C4_date_condition (F : dateFns) (now : Z) (r : resource) (cfg : dateConfig) :
  (truthy (prop r (attribute cfg)) = false ->
   evaluateDateCondition F now r cfg = Return false)
  /\ (forall t f,
        truthy (prop r (attribute cfg)) = true ->
        parseISO F (prop r (attribute cfg)) = Return (Some t) ->
        In (interval_type cfg, f) (unit_differences F) ->
        (condition cfg = "older_than" ->
         evaluateDateCondition F now r cfg = Return (interval cfg <=? f now t))
        /\ (condition cfg = "newer_than" ->
            evaluateDateCondition F now r cfg = Return (f now t <=? interval cfg)))
  /\ (forall o,
        parseISO F (prop r (attribute cfg)) = Return o ->
        interval_type cfg ∉ known_interval_types ->
        evaluateDateCondition F now r cfg = Return false)
  /\ (forall o,
        parseISO F (prop r (attribute cfg)) = Return o ->
        condition cfg <> "older_than" -> condition cfg <> "newer_than" ->
        evaluateDateCondition F now r cfg = Return false)
  /\ (truncates_days F ->
      truthy (prop r "updated_at") = true ->
      parseISO F (prop r "updated_at") = Return (Some (now - 6 * day_ms)) ->
      evaluateDateCondition F now r
        {| attribute := "updated_at"; condition := "older_than";
           interval_type := "days"; interval := 5 |} = Return true
      /\ evaluateDateCondition F now r
        {| attribute := "updated_at"; condition := "older_than";
           interval_type := "days"; interval := 7 |} = Return false).
Proof.
  split; [|split; [|split; [|split]]].
  - intros H. unfold evaluateDateCondition. now rewrite H.
  - intros t f Hpresent Hparse Hunit.
    split; intros Hc; unfold evaluateDateCondition;
      rewrite Hpresent, Hparse, (timeDifference_unit F _ f now t Hunit), Hc; reflexivity.
  - intros o Hparse Hu. unfold evaluateDateCondition.
    destruct (truthy _); [|reflexivity]. cbn [negb].
    now rewrite Hparse, (timeDifference_unknown F _ now _ Hu).
  - intros o Hparse H1 H2. unfold evaluateDateCondition.
    destruct (truthy _); [|reflexivity]. cbn [negb]. rewrite Hparse.
    destruct (timeDifference _ _ _ _); [|reflexivity].
    destruct (String.eqb_spec (condition cfg) "older_than"); [contradiction|].
    destruct (String.eqb_spec (condition cfg) "newer_than"); [contradiction|].
    reflexivity.
  - intros Htrunc Hpresent Hparse.
    split; unfold evaluateDateCondition;
      cbn [attribute condition interval_type interval];
      rewrite Hpresent, Hparse; cbn; rewrite (Htrunc now (now - 6 * day_ms));
      replace (now - (now - 6 * day_ms)) with (6 * day_ms) by lia; reflexivity.
Qed.

Lemma C4_date_condition_witness :
  evaluateDateCondition sample_dateFns (6 * day_ms) sample_resource
    {| attribute := "updated_at"; condition := "older_than";
       interval_type := "days"; interval := 5 |} = Return true
  /\ evaluateDateCondition sample_dateFns (6 * day_ms) sample_resource
    {| attribute := "updated_at"; condition := "older_than";
       interval_type := "days"; interval := 7 |} = Return false.
Proof.
  apply (C4_date_condition sample_dateFns (6 * day_ms) sample_resource
           {| attribute := "updated_at"; condition := "older_than";
              interval_type := "days"; interval := 5 |}).
  - intros a b. reflexivity.
  - reflexivity.
  - reflexivity.
Defined.

End DateCondition.

(** ** Command matching *)

Section CommandMatching.
Import CommandFramework.
Import CommandFrameworkNotions.

Lemma match_consumes_all (fw : framework) (input : string) (res : matchResult) :
  match_ fw input = Some res ->
  exists extractedVars,
    walk (tokens fw) (split_ws (trim input)) 0 []
    = Some (length (split_ws (trim input)), extractedVars)
    /\ res = {| matched := true; variables := extractedVars |}.
Proof.
  unfold match_. destruct (String.eqb input ""); [discriminate|].
  generalize (split_ws (trim input)). intros ws H.
  assert (Hw : match walk (tokens fw) ws 0 [] with
               | None => None
               | Some (i, vs) =>
                   if negb (Nat.eqb i (length ws)) then None
                   else Some {| matched := true; variables := vs |}
               end = Some res).
  { destruct ws as [|w ws']; [exact H|].
    destruct w as [|c w]; [destruct ws'; [discriminate|]|]; exact H. }
  clear H.
  destruct (walk (tokens fw) ws 0 []) as [[i vs]|]; [|discriminate].
  destruct (Nat.eqb_spec i (length ws)) as [->|]; cbn [negb] in Hw; [|discriminate].
  injection Hw as <-. eauto.
Qed.

(** C5.  The pattern [labels {{...labels}}] parses to a literal followed
    by the variable [labels]; it matches [labels ~bug ~urgent] with the
    marker stripped from each captured word, and it does not match
    [labels bug urgent]; a match is only ever reported when the walk has
    consumed every input word. *)
Theorem C5_labels_pattern (bot : string) (p : bool) :
  exists fw,
    new bot "labels {{...labels}}" p = Return fw
    /\ tokens fw = labels_tokens
    /\ match_ fw "labels ~bug ~urgent"
       = Some {| matched := true; variables := [("labels", ["bug"; "urgent"])] |}
    /\ match_ fw "labels bug urgent" = None
    /\ (forall fw' input res,
          match_ fw' input = Some res ->
          exists extractedVars,
            walk (tokens fw') (split_ws (trim input)) 0 []
            = Some (length (split_ws (trim input)), extractedVars)
            /\ res = {| matched := true; variables := extractedVars |}).
Proof.
  eexists. split; [reflexivity|].
  split; [reflexivity|]. split; [reflexivity|]. split; [reflexivity|].
  exact match_consumes_all.
Qed.

Lemma C5_labels_pattern_witness :
  exists fw,
    new "triage-bot" "labels {{...labels}}" true = Return fw
    /\ exists extractedVars,
        walk (tokens fw) (split_ws (trim "labels ~bug ~urgent")) 0 []
        = Some (3%nat, extractedVars).
Proof.
  destruct (C5_labels_pattern "triage-bot" true) as (fw & Hnew & _ & Hm & _ & Hall).
  exists fw. split; [exact Hnew|].
  destruct (Hall fw "labels ~bug ~urgent" _ Hm) as (vs & Hw & _).
  exists vs. exact Hw.
Defined.

End CommandMatching.

(** ** Limits *)

Section Limits.
Import PolicyEngine.
Import PolicyEngineNotions.

Lemma sort_insert_perm (cmp : resource -> resource -> Z) (x : resource) (l : list resource) :
  Permutation (sort_insert cmp x l) (x :: l).
Proof.
  induction l as [|y l IH]; cbn [sort_insert]; [reflexivity|].
  destruct (cmp x y <=? 0); [reflexivity|].
  rewrite IH. apply perm_swap.
Qed.

Lemma array_sort_perm (cmp : resource -> resource -> Z) (l : list resource) :
  Permutation (array_sort cmp l) l.
Proof.
  induction l as [|x l IH]; cbn [array_sort]; [reflexivity|].
  rewrite sort_insert_perm. now constructor.
Qed.

Lemma sort_insert_sorted (x : resource) (l : list resource) :
  StronglySorted newest_first l ->
  StronglySorted newest_first (sort_insert by_created_desc x l).
Proof.
  induction 1 as [|y l Hl IH Hy]; cbn [sort_insert].
  - repeat constructor.
  - destruct (Z.leb_spec (by_created_desc x y) 0) as [Hle|Hgt].
    + constructor; [now constructor|].
      constructor; [unfold newest_first, by_created_desc in *; lia|].
      eapply Forall_impl; [exact Hy|].
      intros z Hz. unfold newest_first, by_created_desc in *. lia.
    + constructor; [exact IH|].
      rewrite (sort_insert_perm by_created_desc x l).
      constructor; [unfold newest_first, by_created_desc in *; lia | exact Hy].
Qed.

Lemma array_sort_sorted (l : list resource) :
  StronglySorted newest_first (array_sort by_created_desc l).
Proof.
  induction l as [|x l IH]; cbn [array_sort]; [constructor|].
  now apply sort_insert_sorted.
Qed.

Lemma sorted_firstn (n : nat) (l : list resource) :
  StronglySorted newest_first l -> StronglySorted newest_first (firstn n l).
Proof.
  intros H. revert n. induction H as [|y l Hl IH Hy]; intros [|n]; cbn; try constructor.
  - apply IH.
  - apply Forall_forall. intros z Hz. rewrite Forall_forall in Hy.
    apply Hy. exact (subseteq_take n l z Hz).
Qed.

Lemma sorted_prefix_dominates (n : nat) (l : list resource) :
  StronglySorted newest_first l ->
  forall x y, x ∈ firstn n l -> y ∈ skipn n l -> newest_first x y.
Proof.
  intros H. revert n. induction H as [|z l Hl IH Hz]; intros n x y Hx Hy.
  - destruct n; cbn in Hx; inversion Hx.
  - destruct n as [|n]; cbn in Hx, Hy; [inversion Hx|].
    apply elem_of_cons in Hx as [->|Hx].
    + rewrite Forall_forall in Hz. apply Hz.
      exact (subseteq_drop n l y Hy).
    + eapply IH; eassumption.
Qed.

Lemma slice0_positive (N : Z) (l : list resource) :
  0 < N -> slice0 N l = firstn (Z.to_nat N) l.
Proof. intros H. unfold slice0. destruct (Z.ltb_spec N 0); [lia | reflexivity]. Qed.

Lemma applyLimits_most_recent (st : arrays) (resources : array_ref)
      (N : Z) (o : option Z) :
  0 < N ->
  applyLimits st resources (Some {| most_recent := Some N; oldest := o |})
  = ((st ++ [array_sort by_created_desc (read st resources)]
         ++ [firstn (Z.to_nat N) (array_sort by_created_desc (read st resources))])%list,
     S (length st)).
Proof.
  intros HN. unfold applyLimits, alloc, sort_in_place.
  cbn [most_recent limit_truthy default].
  destruct (Z.eqb_spec N 0) as [|_]; [lia|]. cbn [negb].
  assert (Hread : read (st ++ [read st resources])%list (length st) = read st resources).
  { unfold read at 1. now rewrite list_lookup_middle. }
  rewrite Hread.
  assert (Hins : <[length st := array_sort by_created_desc (read st resources)]>
                   (st ++ [read st resources])%list
                 = (st ++ [array_sort by_created_desc (read st resources)])%list).
  { rewrite insert_app_r_alt by lia. now rewrite Nat.sub_diag. }
  change (fun a b : resource => created_time b - created_time a) with by_created_desc.
  rewrite Hins.
  assert (Hread2 : read (st ++ [array_sort by_created_desc (read st resources)])%list
                        (length st)
                   = array_sort by_created_desc (read st resources)).
  { unfold read at 1. now rewrite list_lookup_middle. }
  rewrite Hread2, slice0_positive by exact HN.
  rewrite length_app, Nat.add_1_r, <- app_assoc. reflexivity.
Qed.

(** C6.  For a limit [{most_recent: N}] ([N] a positive integer, as the
    limits schema has it) and an array [l] of resources, the array
    [applyLimits] returns has [min N (length l)] elements, is ordered by
    descending creation time, consists of elements of [l] whose creation
    times are all at least those of the elements left out, and the array
    passed in still holds [l] in its original order. *)
Theorem C6_most_recent_limit (st : arrays) (resources : array_ref)
        (l : list resource) (N : positive) (o : option Z) :
  st !! resources = Some l ->
  let out := applyLimits st resources
               (Some {| most_recent := Some (Z.pos N); oldest := o |}) in
  let result := read out.1 out.2 in
  exists excluded,
    length result = Nat.min (Pos.to_nat N) (length l)
    /\ StronglySorted newest_first result
    /\ Permutation l (result ++ excluded)%list
    /\ (forall x y, x ∈ result -> y ∈ excluded -> created_time y <= created_time x)
    /\ out.1 !! resources = Some l.
Proof.
  intros Hl out result. subst result out.
  rewrite applyLimits_most_recent by lia.
  assert (Hr : read st resources = l) by (unfold read; now rewrite Hl).
  rewrite Hr. cbn [fst snd]. change (Z.to_nat (Z.pos N)) with (Pos.to_nat N).
  set (sorted := array_sort by_created_desc l).
  assert (Hres : read (st ++ [sorted] ++ [firstn (Pos.to_nat N) sorted])%list (S (length st))
                 = firstn (Pos.to_nat N) sorted).
  { unfold read. rewrite app_assoc.
    replace (S (length st)) with (length (st ++ [sorted])%list)
      by (rewrite length_app; cbn; lia).
    now rewrite list_lookup_middle. }
  rewrite Hres.
  exists (skipn (Pos.to_nat N) sorted). repeat split.
  - rewrite length_take. subst sorted.
    rewrite (Permutation_length (array_sort_perm by_created_desc l)). reflexivity.
  - apply sorted_firstn, array_sort_sorted.
  - rewrite firstn_skipn. symmetry. apply array_sort_perm.
  - intros x y Hx Hy.
    exact (sorted_prefix_dominates _ _ (array_sort_sorted l) x y Hx Hy).
  - rewrite lookup_app_l; [exact Hl|]. eapply lookup_lt_Some; exact Hl.
Qed.

Lemma C6_most_recent_limit_witness :
  exists excluded,
    length (read (applyLimits [[created_at_ 10; created_at_ 30; created_at_ 20]] 0%nat
                    (Some {| most_recent := Some 2; oldest := None |})).1
                 (applyLimits [[created_at_ 10; created_at_ 30; created_at_ 20]] 0%nat
                    (Some {| most_recent := Some 2; oldest := None |})).2)
    = Nat.min 2 3
    /\ Permutation [created_at_ 10; created_at_ 30; created_at_ 20]
         (read (applyLimits [[created_at_ 10; created_at_ 30; created_at_ 20]] 0%nat
                  (Some {| most_recent := Some 2; oldest := None |})).1
               (applyLimits [[created_at_ 10; created_at_ 30; created_at_ 20]] 0%nat
                  (Some {| most_recent := Some 2; oldest := None |})).2
            ++ excluded)%list.
Proof.
  destruct (C6_most_recent_limit
              [[created_at_ 10; created_at_ 30; created_at_ 20]] 0%nat
              [created_at_ 10; created_at_ 30; created_at_ 20] 2%positive None)
    as (excluded & Hlen & _ & Hperm & _).
  - reflexivity.
  - exists excluded. split; [exact Hlen | exact Hperm].
Defined.

Example most_recent_sample :
  map created_time
    (read (applyLimits [[created_at_ 10; created_at_ 30; created_at_ 20]] 0%nat
             (Some {| most_recent := Some 2; oldest := None |})).1 2%nat) = [30; 20].
Proof. reflexivity. Qed.

End Limits.

(** ** The asynchronous membership condition *)

Section AuthorMember.
Import PolicyEngine.
Import PolicyEngineNotions.

(** The promise is never awaited: whatever it settles to, the loop of
    [evaluateConditions] sees a truthy object and moves on. *)
Lemma author_member_skipped (E : engine) (r : resource) (cfg : memberConfig)
      (rest : list conditionEntry) :
  evaluateConditions E r (author_member cfg :: rest) = evaluateConditions E r rest.
Proof. reflexivity. Qed.

(** C8 (code at the failing inputs).  With [source: 'project'] the
    promise returned by [evaluateAuthorMemberCondition] is rejected with
    the configuration error, and with a missing [source] it is fulfilled
    with false; in both cases [evaluateConditions] returns true to its
    caller, and [filterResources] keeps the resource: nothing is raised
    and no false result is produced. *)
Theorem C8_author_member_promise_not_awaited (E : engine) (r : resource) :
  evaluateAuthorMemberCondition E r unsupported_source
  = Rejected "Unsupported source: project"
  /\ evaluateConditions E r [author_member unsupported_source] = Return true
  /\ filterResources E [r] [author_member unsupported_source] = Return [r]
  /\ evaluateAuthorMemberCondition E r missing_source = Fulfilled (JBool false)
  /\ evaluateConditions E r [author_member missing_source] = Return true
  /\ filterResources E [r] [author_member missing_source] = Return [r].
Proof. repeat split; reflexivity. Qed.

(** At the level of the function itself, a missing [source], [source_id]
    or [condition] fulfils the promise with false. *)
Lemma author_member_missing_parameter (E : engine) (r : resource) (cfg : memberConfig) :
  truthy (source cfg) && truthy (source_id cfg) && truthy (member_condition cfg) = false ->
  evaluateAuthorMemberCondition E r cfg = Fulfilled (JBool false).
Proof.
  intros H. unfold evaluateAuthorMemberCondition.
  destruct (truthy (source cfg)), (truthy (source_id cfg)),
    (truthy (member_condition cfg)); try discriminate; reflexivity.
Qed.

End AuthorMember.

(** ** The action executor: framing lemmas *)

Section ExecutorBasics.
Import ActionExecutor.
Import ActionExecutorNotions.

Lemma bind_Return {A B} (m : M A) (k : A -> M B) (s s' : store) (b : B) :
  bind m k s = (Return b, s') ->
  exists a s1, m s = (Return a, s1) /\ k a s1 = (Return b, s').
Proof.
  unfold bind. destruct (m s) as [[a|msg] s1]; [eauto | discriminate].
Qed.

Lemma quiet_ret {A} (a : A) : quiet (ret a).
Proof. intros s. reflexivity. Qed.

Lemma quiet_throw {A} (msg : string) : quiet (@throw A msg).
Proof. intros s. reflexivity. Qed.

Lemma quiet_bind {A B} (m : M A) (k : A -> M B) :
  quiet m -> (forall a, quiet (k a)) -> quiet (bind m k).
Proof.
  intros Hm Hk s. unfold bind. specialize (Hm s).
  destruct (m s) as [[a|msg] s1]; cbn [snd] in *; [|exact Hm].
  now rewrite (Hk a s1).
Qed.

Lemma quiet_get_resource (l : loc) : quiet (get_resource l).
Proof. intros s. unfold get_resource. now destruct (heap s !! l). Qed.

Lemma quiet_put_resource (l : loc) (r : resource) : quiet (put_resource l r).
Proof. intros s. reflexivity. Qed.

Lemma remote_calls_app (l1 l2 : list event) :
  remote_calls (l1 ++ l2) = (remote_calls l1 ++ remote_calls l2)%list.
Proof. apply omap_app. Qed.

Lemma quiet_run_extension (key : string) (x : extension) (l : loc)
      (resourceType : string) (dryRun : bool) :
  quiet (x l resourceType dryRun) ->
  quiet (run_extension key x l resourceType dryRun).
Proof.
  intros Hx. unfold run_extension. apply quiet_bind; [|intros _; exact Hx].
  intros s. cbn. rewrite remote_calls_app. cbn. apply app_nil_r.
Qed.

Lemma quiet_rebind_if (c : bool) (act : M loc) (l : loc) :
  quiet act -> quiet (rebind_if c act l).
Proof. intros H. destruct c; [exact H | apply quiet_ret]. Qed.

Create HintDb quiet.
#[local] Hint Resolve quiet_ret quiet_throw quiet_get_resource quiet_put_resource
     quiet_rebind_if : quiet.

Ltac quiet_steps :=
  repeat first
    [ solve [auto with quiet]
    | apply quiet_bind; [|intros ?]
    | match goal with
      | |- quiet (match ?x with _ => _ end) => destruct x
      | |- quiet (if ?c then _ else _) => destruct c
      end ].

Lemma quiet_addLabels this l ls ty : quiet (addLabels this l ls ty true).
Proof. unfold addLabels. cbn [negb]. quiet_steps. Qed.

Lemma quiet_removeLabels this l ls ty : quiet (removeLabels this l ls ty true).
Proof. unfold removeLabels. cbn [negb]. quiet_steps. Qed.

Lemma quiet_changeStatus this l st ty : quiet (changeStatus this l st ty true).
Proof. unfold changeStatus. cbn [negb]. quiet_steps. Qed.

Lemma quiet_mentionUsers this l us ty : quiet (mentionUsers this l us ty true).
Proof. unfold mentionUsers. cbn [negb]. quiet_steps. Qed.

Lemma quiet_moveResource this l target : quiet (moveResource this l target true).
Proof. unfold moveResource. cbn [negb]. quiet_steps. Qed.

Lemma quiet_addComment this l a ty : quiet (addComment this l a ty true).
Proof. unfold addComment. cbn [negb]. quiet_steps. Qed.

Lemma quiet_deleteBranch this l : quiet (deleteBranch this l true).
Proof. unfold deleteBranch. cbn [negb]. quiet_steps. Qed.

Lemma quiet_assignResource this l i ty : quiet (assignResource this l i ty true).
Proof. unfold assignResource. cbn [negb]. quiet_steps. Qed.

Lemma quiet_assignReviewer this l ids : quiet (assignReviewer this l ids true).
Proof. unfold assignReviewer. cbn [negb]. quiet_steps. Qed.

Lemma quiet_mergeMergeRequest this l o : quiet (mergeMergeRequest this l o true).
Proof. unfold mergeMergeRequest. cbn [negb]. quiet_steps. Qed.

#[local] Hint Resolve quiet_addLabels quiet_removeLabels quiet_changeStatus quiet_mentionUsers
     quiet_moveResource quiet_addComment quiet_deleteBranch quiet_assignResource
     quiet_assignReviewer quiet_mergeMergeRequest : quiet.

Lemma quiet_built_in_actions this a ty l : quiet (built_in_actions this a ty true l).
Proof. unfold built_in_actions, label_actions. quiet_steps. Qed.

Lemma quiet_dispatch_extension this a l ty :
  dry_quiet this -> quiet (dispatch_extension this a l ty true).
Proof.
  intros Hdry. unfold dispatch_extension.
  destruct (extension_action a) as [key|]; [|apply quiet_ret].
  destruct (String.eqb key ""); [apply quiet_ret|].
  destruct (extensionLoaded this !! key) as [x|] eqn:Hx.
  - apply quiet_bind; [|intros _; apply quiet_ret].
    apply quiet_run_extension, (Hdry key x). now left.
  - destruct (import_extension this key) as [x|] eqn:Hi; [|apply quiet_throw].
    apply quiet_bind; [|intros _; apply quiet_ret].
    apply quiet_run_extension, (Hdry key x). now right.
Qed.

Lemma quiet_execute_body this a ty l :
  dry_quiet this -> quiet (execute_body this a ty true l).
Proof.
  intros Hdry. unfold execute_body.
  apply quiet_bind; [apply quiet_built_in_actions|].
  intros l'. now apply quiet_dispatch_extension.
Qed.

Lemma quiet_execute this a resources ty :
  dry_quiet this -> quiet (execute this a resources ty true).
Proof.
  intros Hdry. induction resources as [|l rest IH]; cbn [execute]; [apply quiet_ret|].
  apply quiet_bind; [now apply quiet_execute_body|].
  intros [|]; [exact IH | apply quiet_ret].
Qed.

Lemma bind_step {A B} (m : M A) (k : A -> M B) (s s1 : store) (a : A) :
  m s = (Return a, s1) -> bind m k s = k a s1.
Proof. intros H. unfold bind. now rewrite H. Qed.

Lemma bind_throws {A B} (m : M A) (k : A -> M B) (s s1 : store) (msg : string) :
  m s = (Throw msg, s1) -> bind m k s = (Throw msg, s1).
Proof. intros H. unfold bind. now rewrite H. Qed.

Lemma rebind_if_returns (c : bool) (act : M loc) (l : loc) (s : store) :
  act s = (Return l, s) -> rebind_if c act l s = (Return l, s).
Proof. intros H. now destruct c. Qed.

Lemma addComment_dry_returns this l a ty s r :
  heap s !! l = Some r -> addComment this l a ty true s = (Return l, s).
Proof. intros H. unfold addComment, bind, get_resource. now rewrite H. Qed.

Lemma deleteBranch_dry_returns this l s r :
  heap s !! l = Some r -> deleteBranch this l true s = (Return l, s).
Proof. intros H. unfold deleteBranch, bind, get_resource. now rewrite H. Qed.

(** In a dry run, on an existing record, the built-in actions after the
    label actions change nothing and keep the record they were given. *)
Lemma built_in_actions_dry this a ty l s s' r' :
  label_actions this a ty true l s = (Return l, s') ->
  heap s' !! l = Some r' ->
  built_in_actions this a ty true l s = (Return l, s').
Proof.
  intros Hlabels Hl. unfold built_in_actions. rewrite (bind_step _ _ _ _ _ Hlabels).
  repeat (erewrite bind_step;
          [| first [ reflexivity
                   | apply rebind_if_returns;
                     first [ reflexivity
                           | now apply addComment_dry_returns with (r := r')
                           | now apply deleteBranch_dry_returns with (r := r') ] ] ]).
  apply rebind_if_returns. reflexivity.
Qed.

End ExecutorBasics.

(** ** The action executor: labels *)

Section ExecutorLabels.
Import ActionExecutor.
Import ActionExecutorNotions.

(** A request never touches the objects that already exist. *)
Lemma request_frame (g : gitlab_client) (c : call) (s : store) (l : loc) :
  (l < length (heap s))%nat ->
  heap (request g c s).2 !! l = heap s !! l.
Proof.
  intros Hl. unfold request. destruct (g (log s) c) as [r|msg]; cbn; [|reflexivity].
  now apply lookup_app_l.
Qed.

Lemma edit_after_client_frame (g : gitlab_client) (ty : string)
      (k : client -> call) (s : store) (l : loc) :
  (l < length (heap s))%nat ->
  heap ((let* apiClient := getApiClient ty in request g (k apiClient)) s).2 !! l
  = heap s !! l.
Proof.
  intros Hl. unfold bind, getApiClient.
  destruct (String.eqb ty "issue"); [now apply request_frame|].
  destruct (String.eqb ty "merge_request"); [now apply request_frame|].
  reflexivity.
Qed.

Lemma labels_at_put (s : store) (l : loc) (r r' : resource) (ls : list string) :
  heap s !! l = Some r ->
  heap {| heap := <[l := set_labels r' ls]> (heap s); log := log s |} !! l
  = Some (set_labels r' ls).
Proof.
  intros H. cbn. apply list_lookup_insert_eq. eapply lookup_lt_Some; exact H.
Qed.

Lemma addLabels_local (this : executor) (s : store) (l : loc) (r : resource)
      (old add : list string) (ty : string) (dryRun : bool) :
  heap s !! l = Some r ->
  labels r = Some old ->
  labels_at (addLabels this l add ty dryRun s).2 l = Some (old ++ add)%list.
Proof.
  intros Hl Hr. unfold labels_at, addLabels.
  unfold bind at 1. unfold get_resource. rewrite Hl, Hr.
  unfold bind at 1. unfold put_resource.
  pose proof (labels_at_put s l r r (old ++ add)%list Hl) as Hput.
  destruct dryRun; cbn [negb].
  - cbn [ret snd]. now rewrite Hput.
  - rewrite edit_after_client_frame.
    + now rewrite Hput.
    + cbn. rewrite length_insert. eapply lookup_lt_Some; exact Hl.
Qed.

Lemma removeLabels_local (this : executor) (s : store) (l : loc) (r : resource)
      (old remove : list string) (ty : string) (dryRun : bool) :
  heap s !! l = Some r ->
  labels r = Some old ->
  labels_at (removeLabels this l remove ty dryRun s).2 l
  = Some (List.filter (fun x => negb (includes x remove)) old).
Proof.
  intros Hl Hr. unfold labels_at, removeLabels.
  unfold bind at 1. unfold get_resource. rewrite Hl, Hr.
  unfold bind at 1. unfold put_resource.
  pose proof (labels_at_put s l r r
                (List.filter (fun x => negb (includes x remove)) old) Hl) as Hput.
  destruct dryRun; cbn [negb].
  - cbn [ret snd]. now rewrite Hput.
  - rewrite edit_after_client_frame.
    + now rewrite Hput.
    + cbn. rewrite length_insert. eapply lookup_lt_Some; exact Hl.
Qed.

(** C3 (amended).  After [addLabels], dry run or not, the labels of the
    resource object are its previous labels followed by the labels
    given, unchanged and in order; that list is free of duplicates
    exactly when both lists are and they share no name. *)
Theorem C3_addLabels_concatenates (this : executor) (s : store) (l : loc)
        (r : resource) (old add : list string) (ty : string) (dryRun : bool) :
  heap s !! l = Some r ->
  labels r = Some old ->
  labels_at (addLabels this l add ty dryRun s).2 l = Some (old ++ add)%list
  /\ (NoDup (old ++ add)%list <-> NoDup old /\ disjoint_labels old add /\ NoDup add).
Proof.
  intros Hl Hr. split; [now apply (addLabels_local this s l r)|].
  apply NoDup_app.
Qed.

Lemma C3_addLabels_concatenates_witness :
  labels_at (addLabels echo_executor 0%nat ["urgent"] "issue" false (one_issue ["bug"])).2
            0%nat
  = Some ["bug"; "urgent"].
Proof.
  apply (C3_addLabels_concatenates echo_executor (one_issue ["bug"]) 0%nat
           (issue_with ["bug"]) ["bug"] ["urgent"] "issue" false); reflexivity.
Defined.

(** C3 (counterexample).  Adding [bug] to a resource that already carries
    [bug] leaves two copies, in a dry run as in a live one. *)
Lemma C3_duplicate_label_counterexample :
  labels_at (addLabels echo_executor 0%nat ["bug"] "issue" true (one_issue ["bug"])).2
            0%nat
  = Some ["bug"; "bug"]
  /\ labels_at (addLabels echo_executor 0%nat ["bug"] "issue" false (one_issue ["bug"])).2
               0%nat
     = Some ["bug"; "bug"]
  /\ ~ NoDup ["bug"; "bug"].
Proof.
  split; [reflexivity|]. split; [reflexivity|].
  intros H. apply NoDup_cons in H as [Hin _]. apply Hin. left.
Qed.

End ExecutorLabels.

(** ** The action executor: what a run leaves on the objects *)

Section ExecutorFraming.
Import ActionExecutor.
Import ActionExecutorNotions.

Lemma frames_ret {A} (l : loc) (a : A) : frames l (ret a).
Proof. intros s x H. exact H. Qed.

Lemma frames_throw {A} (l : loc) (msg : string) : frames l (@throw A msg).
Proof. intros s x H. exact H. Qed.

Lemma frames_bind {A B} (l : loc) (m : M A) (k : A -> M B) :
  frames l m -> (forall a, frames l (k a)) -> frames l (bind m k).
Proof.
  intros Hm Hk s x H. unfold bind. specialize (Hm s x H).
  destruct (m s) as [[a|msg] s1]; cbn [snd] in *; [|exact Hm].
  now apply Hk.
Qed.

Lemma frames_get_resource (l l0 : loc) : frames l (get_resource l0).
Proof. intros s x H. unfold get_resource. now destruct (heap s !! l0). Qed.

Lemma frames_put_resource (l l0 : loc) (r : resource) :
  l0 <> l -> frames l (put_resource l0 r).
Proof. intros Hne s x H. cbn. now rewrite list_lookup_insert_ne. Qed.

Lemma frames_request (l : loc) (g : gitlab_client) (c : call) : frames l (request g c).
Proof.
  intros s x H. rewrite request_frame; [exact H|]. eapply lookup_lt_Some; exact H.
Qed.

Lemma frames_getApiClient (l : loc) (ty : string) : frames l (getApiClient ty).
Proof.
  unfold getApiClient. destruct (String.eqb ty "issue"); [apply frames_ret|].
  destruct (String.eqb ty "merge_request"); [apply frames_ret | apply frames_throw].
Qed.

Lemma frames_getNotesApiClient (l : loc) (ty : string) : frames l (getNotesApiClient ty).
Proof.
  unfold getNotesApiClient. destruct (String.eqb ty "issue"); [apply frames_ret|].
  destruct (String.eqb ty "merge_request"); [apply frames_ret | apply frames_throw].
Qed.

Lemma frames_rebind_if (l : loc) (c : bool) (act : M loc) (l0 : loc) :
  frames l act -> frames l (rebind_if c act l0).
Proof. intros H. destruct c; [exact H | apply frames_ret]. Qed.

Create HintDb frames.
#[local] Hint Resolve frames_ret frames_throw frames_get_resource frames_put_resource
  frames_request frames_getApiClient frames_getNotesApiClient frames_rebind_if : frames.

Ltac frames_steps :=
  repeat first
    [ solve [auto with frames]
    | apply frames_bind; [|intros ?]
    | match goal with
      | |- frames _ (match ?x with _ => _ end) => destruct x
      | |- frames _ (if ?c then _ else _) => destruct c
      end ].

Lemma frames_addLabels this l l0 ls ty d : l0 <> l -> frames l (addLabels this l0 ls ty d).
Proof. intros Hne. unfold addLabels. frames_steps. Qed.

Lemma frames_removeLabels this l l0 ls ty d :
  l0 <> l -> frames l (removeLabels this l0 ls ty d).
Proof. intros Hne. unfold removeLabels. frames_steps. Qed.

Lemma frames_mergeMergeRequest this l l0 o d : frames l (mergeMergeRequest this l0 o d).
Proof. unfold mergeMergeRequest. frames_steps. Qed.

#[local] Hint Resolve frames_mergeMergeRequest : frames.

Lemma frames_changeStatus this l l0 st ty d : frames l (changeStatus this l0 st ty d).
Proof. unfold changeStatus. frames_steps. Qed.

Lemma frames_mentionUsers this l l0 us ty d : frames l (mentionUsers this l0 us ty d).
Proof. unfold mentionUsers. frames_steps. Qed.

Lemma frames_moveResource this l l0 target d : frames l (moveResource this l0 target d).
Proof. unfold moveResource. frames_steps. Qed.

Lemma frames_addComment this l l0 a ty d : frames l (addComment this l0 a ty d).
Proof. unfold addComment. frames_steps. Qed.

Lemma frames_deleteBranch this l l0 d : frames l (deleteBranch this l0 d).
Proof. unfold deleteBranch. frames_steps. Qed.

Lemma frames_assignResource this l l0 i ty d : frames l (assignResource this l0 i ty d).
Proof. unfold assignResource. frames_steps. Qed.

Lemma frames_assignReviewer this l l0 ids d : frames l (assignReviewer this l0 ids d).
Proof. unfold assignReviewer. frames_steps. Qed.

Lemma frames_dispatch_none this a l l0 ty d :
  extension_action a = None -> frames l (dispatch_extension this a l0 ty d).
Proof. intros H. unfold dispatch_extension. rewrite H. apply frames_ret. Qed.

#[local] Hint Resolve frames_changeStatus frames_mentionUsers frames_moveResource
  frames_addComment frames_deleteBranch frames_assignResource frames_assignReviewer
  frames_dispatch_none : frames.

(** Whatever follows a step that has settled the labels at [l] and only
    frames [l] afterwards leaves those labels in place. *)
Lemma labels_at_bind {A B} (m : M A) (k : A -> M B) (s : store) (l : loc)
      (ls : list string) :
  labels_at (m s).2 l = Some ls ->
  (forall a s1, m s = (Return a, s1) -> frames l (k a)) ->
  labels_at (bind m k s).2 l = Some ls.
Proof.
  intros Hm Hk. unfold bind.
  destruct (m s) as [[a|msg] s1] eqn:E; cbn [snd] in *; [|exact Hm].
  unfold labels_at in *. destruct (heap s1 !! l) as [x|] eqn:Hx; [|discriminate].
  now rewrite (Hk a s1 eq_refl s1 x Hx).
Qed.

(** In a live run [addLabels] hands back a new object. *)
Lemma addLabels_live_fresh this l ls ty s l' s' r :
  heap s !! l = Some r ->
  addLabels this l ls ty false s = (Return l', s') ->
  l' <> l.
Proof.
  intros Hl. unfold addLabels. unfold bind at 1. unfold get_resource. rewrite Hl.
  destruct (labels r) as [old|]; [|discriminate].
  unfold bind at 1. unfold put_resource. cbn [negb].
  unfold bind, getApiClient, request.
  pose proof (lookup_lt_Some _ _ _ Hl) as Hlt.
  destruct (String.eqb ty "issue");
    [|destruct (String.eqb ty "merge_request"); [|discriminate]];
    cbn; destruct (gitlab this _ _); intros [= <- _];
    rewrite length_insert; lia.
Qed.

(** In a dry run [addLabels] hands back the object it was given, with
    the labels appended. *)
Lemma addLabels_dry this l ls ty s r old :
  heap s !! l = Some r ->
  labels r = Some old ->
  addLabels this l ls ty true s
  = (Return l, {| heap := <[l := set_labels r (old ++ ls)%list]> (heap s); log := log s |}).
Proof.
  intros Hl Hr. unfold addLabels, bind, get_resource. now rewrite Hl, Hr.
Qed.

Lemma frames_labels_at {A} (m : M A) (s : store) (l : loc) (ls : list string) :
  frames l m -> labels_at s l = Some ls -> labels_at (m s).2 l = Some ls.
Proof.
  intros Hm H. unfold labels_at in *.
  destruct (heap s !! l) as [x|] eqn:Hx; [|discriminate].
  now rewrite (Hm s x Hx).
Qed.

Lemma removeLabels_dry this l ls ty s r old :
  heap s !! l = Some r ->
  labels r = Some old ->
  removeLabels this l ls ty true s
  = (Return l,
     {| heap := <[l := set_labels r (List.filter (fun x => negb (includes x ls)) old)]>
                  (heap s);
        log := log s |}).
Proof.
  intros Hl Hr. unfold removeLabels, bind, get_resource. now rewrite Hl, Hr.
Qed.

(** A live label action that completes hands back the record the remote
    answered with. *)
Lemma addLabels_live_response this l ls ty s l' s' r old :
  heap s !! l = Some r ->
  labels r = Some old ->
  addLabels this l ls ty false s = (Return l', s') ->
  exists c history resp,
    gitlab this history (edit c (project_id r) (iid r) (labels_param (old ++ ls)%list))
    = Return resp
    /\ heap s' !! l' = Some resp.
Proof.
  intros Hl Hr. unfold addLabels. unfold bind at 1. unfold get_resource. rewrite Hl, Hr.
  unfold bind at 1. unfold put_resource. cbn [negb].
  unfold bind, getApiClient, request.
  destruct (String.eqb ty "issue");
    [|destruct (String.eqb ty "merge_request"); [|discriminate]];
    cbn [ret heap log]; match goal with
    | |- context [gitlab this ?h ?c] => destruct (gitlab this h c) as [resp|msg] eqn:E
    end; intros [= <- <-]; eexists _, _, resp; (split; [exact E|]);
    cbn [heap]; now rewrite list_lookup_middle.
Qed.

Lemma removeLabels_live_response this l ls ty s l' s' r old :
  heap s !! l = Some r ->
  labels r = Some old ->
  removeLabels this l ls ty false s = (Return l', s') ->
  exists c history resp,
    gitlab this history
      (edit c (project_id r) (iid r)
         (labels_param (List.filter (fun x => negb (includes x ls)) old)))
    = Return resp
    /\ heap s' !! l' = Some resp.
Proof.
  intros Hl Hr. unfold removeLabels. unfold bind at 1. unfold get_resource. rewrite Hl, Hr.
  unfold bind at 1. unfold put_resource. cbn [negb].
  unfold bind, getApiClient, request.
  destruct (String.eqb ty "issue");
    [|destruct (String.eqb ty "merge_request"); [|discriminate]];
    cbn [ret heap log]; match goal with
    | |- context [gitlab this ?h ?c] => destruct (gitlab this h c) as [resp|msg] eqn:E
    end; intros [= <- <-]; eexists _, _, resp; (split; [exact E|]);
    cbn [heap]; now rewrite list_lookup_middle.
Qed.

End ExecutorFraming.

(** ** The action executor: dry runs *)

Section DryRun.
Import ActionExecutor.
Import ActionExecutorNotions.

Lemma labels_at_resource (s : store) (l : loc) (ls : list string) :
  labels_at s l = Some ls -> exists r, heap s !! l = Some r /\ labels r = Some ls.
Proof.
  unfold labels_at. destruct (heap s !! l) as [r|]; [|discriminate].
  intros H. now exists r.
Qed.

Lemma set_labels_same (r : resource) (old : list string) :
  labels r = Some old -> set_labels r old = r.
Proof. destruct r. cbn. now intros ->. Qed.

(** In a dry run the two label actions work on the object they are
    given, hand it on, and touch nothing else. *)
Lemma label_actions_dry this a ty s l r old :
  heap s !! l = Some r ->
  labels r = Some old ->
  exists s',
    label_actions this a ty true l s = (Return l, s')
    /\ heap s' !! l = Some (set_labels r (dry_labels a old))
    /\ (forall l0, l0 <> l -> heap s' !! l0 = heap s !! l0)
    /\ log s' = log s.
Proof.
  intros Hl Hr. unfold label_actions, dry_labels.
  pose proof (lookup_lt_Some _ _ _ Hl) as Hlt.
  destruct (labels_action a) as [add|]; destruct (remove_labels a) as [rm|];
    cbn [present rebind_if after_add after_remove].
  - change (default [] (Some add)) with add. change (default [] (Some rm)) with rm.
    rewrite (bind_step _ _ _ _ _ (addLabels_dry this l add ty s r old Hl Hr)).
    erewrite removeLabels_dry;
      [| cbn [heap]; apply list_lookup_insert_eq; exact Hlt | reflexivity].
    eexists. split; [reflexivity|]. cbn [heap log]. split; [|split; [|reflexivity]].
    + rewrite list_lookup_insert_eq; [reflexivity | now rewrite length_insert].
    + intros l0 Hne. now rewrite !list_lookup_insert_ne.
  - change (default [] (Some add)) with add.
    rewrite (bind_step _ _ _ _ _ (addLabels_dry this l add ty s r old Hl Hr)).
    eexists. split; [reflexivity|]. cbn [heap log]. split; [|split; [|reflexivity]].
    + now rewrite list_lookup_insert_eq.
    + intros l0 Hne. now rewrite list_lookup_insert_ne.
  - change (default [] (Some rm)) with rm. unfold bind at 1. cbn [ret].
    rewrite (removeLabels_dry this l rm ty s r old Hl Hr).
    eexists. split; [reflexivity|]. cbn [heap log]. split; [|split; [|reflexivity]].
    + now rewrite list_lookup_insert_eq.
    + intros l0 Hne. now rewrite list_lookup_insert_ne.
  - unfold bind at 1. cbn [ret]. exists s. split; [reflexivity|].
    split; [|split; [|reflexivity]].
    + now rewrite (set_labels_same r old Hr).
    + reflexivity.
Qed.

(** In a live run that completes against a remote that answers with the
    labels it was sent, the record handed on carries the labels the dry
    run computes. *)
Lemma label_actions_live_record this a ty s l r old l' s' :
  label_faithful (gitlab this) ->
  heap s !! l = Some r ->
  labels r = Some old ->
  label_actions this a ty false l s = (Return l', s') ->
  labels_at s' l' = Some (dry_labels a old).
Proof.
  intros Hf Hl Hr. unfold label_actions, dry_labels.
  destruct (labels_action a) as [add|]; cbn [present rebind_if after_add].
  - change (default [] (Some add)) with add. intros H.
    apply bind_Return in H as (l1 & s1 & Hadd & H).
    destruct (addLabels_live_response this l add ty s l1 s1 r old Hl Hr Hadd)
      as (c & history & resp & Hg & Hl1).
    pose proof (Hf _ _ _ _ _ _ Hg) as Hresp.
    destruct (remove_labels a) as [rm|]; cbn [present rebind_if after_remove] in *.
    + change (default [] (Some rm)) with rm in H.
      destruct (removeLabels_live_response this l1 rm ty s1 l' s' resp _ Hl1 Hresp H)
        as (c2 & history2 & resp2 & Hg2 & Hl2).
      unfold labels_at. rewrite Hl2. exact (Hf _ _ _ _ _ _ Hg2).
    + injection H as <- <-. unfold labels_at. rewrite Hl1. exact Hresp.
  - unfold bind at 1. cbn [ret].
    destruct (remove_labels a) as [rm|]; cbn [present rebind_if after_remove].
    + change (default [] (Some rm)) with rm. intros H.
      destruct (removeLabels_live_response this l rm ty s l' s' r old Hl Hr H)
        as (c2 & history2 & resp2 & Hg2 & Hl2).
      unfold labels_at. rewrite Hl2. exact (Hf _ _ _ _ _ _ Hg2).
    + intros [= <- <-]. unfold labels_at. rewrite Hl. exact Hr.
Qed.

(** A live run applies [labels] to the object it is given and, from then
    on, works on what the remote returned. *)
Lemma label_actions_live_object this a ty s l r old :
  heap s !! l = Some r ->
  labels r = Some old ->
  labels_at (label_actions this a ty false l s).2 l = Some (live_labels a old).
Proof.
  intros Hl Hr. unfold label_actions, live_labels.
  destruct (labels_action a) as [add|]; cbn [present rebind_if].
  - change (default [] (Some add)) with add. apply labels_at_bind.
    + exact (addLabels_local this s l r old add ty false Hl Hr).
    + intros l1 s1 Hret. apply frames_rebind_if, frames_removeLabels.
      exact (addLabels_live_fresh this l add ty s l1 s1 r Hl Hret).
  - unfold bind at 1. cbn [ret].
    destruct (remove_labels a) as [rm|]; cbn [present rebind_if after_remove].
    + exact (removeLabels_local this s l r old rm ty false Hl Hr).
    + change (labels_at s l = Some old). unfold labels_at. now rewrite Hl.
Qed.

Lemma execute_body_dry this a ty s l r old :
  extension_action a = None ->
  heap s !! l = Some r ->
  labels r = Some old ->
  exists s',
    execute_body this a ty true l s = (Return next_iteration, s')
    /\ heap s' !! l = Some (set_labels r (dry_labels a old))
    /\ (forall l0, l0 <> l -> heap s' !! l0 = heap s !! l0)
    /\ log s' = log s.
Proof.
  intros Hext Hl Hr.
  destruct (label_actions_dry this a ty s l r old Hl Hr) as (s' & H & Hl' & Hrest).
  exists s'. split; [|split; [exact Hl' | exact Hrest]].
  unfold execute_body.
  rewrite (bind_step _ _ _ _ _ (built_in_actions_dry this a ty l s s' _ H Hl')).
  unfold dispatch_extension. now rewrite Hext.
Qed.

(** A dry run over distinct resources: each of them ends with the labels
    the two label actions compute from its own, everything else keeps
    its labels. *)
Lemma execute_dry_labels this a ty (resources : list loc) :
  extension_action a = None ->
  forall s,
    NoDup resources ->
    (forall l, l ∈ resources -> is_Some (labels_at s l)) ->
    forall l old,
      labels_at s l = Some old ->
      labels_at (execute this a resources ty true s).2 l
      = Some (if bool_decide (l ∈ resources) then dry_labels a old else old).
Proof.
  intros Hext. induction resources as [|l0 rest IH]; intros s Hnodup Hall l old Hold.
  - exact Hold.
  - apply NoDup_cons in Hnodup as [Hfresh Hnodup].
    destruct (Hall l0 (list_elem_of_here _ _)) as [ls0 Hls0].
    destruct (labels_at_resource _ _ _ Hls0) as (r0 & Hl0 & Hr0).
    destruct (execute_body_dry this a ty s l0 r0 ls0 Hext Hl0 Hr0)
      as (s' & Hbody & Hl0' & Hother & _).
    cbn [execute]. rewrite (bind_step _ _ _ _ _ Hbody).
    assert (Hkeep : forall l1, l1 <> l0 -> labels_at s' l1 = labels_at s l1).
    { intros l1 Hne. unfold labels_at. now rewrite (Hother l1 Hne). }
    assert (Hall' : forall l1, l1 ∈ rest -> is_Some (labels_at s' l1)).
    { intros l1 H1. rewrite Hkeep; [apply Hall; now right|].
      intros ->. contradiction. }
    destruct (decide (l = l0)) as [->|Hne].
    + assert (Hnew : labels_at s' l0 = Some (dry_labels a old)).
      { unfold labels_at. rewrite Hl0'. cbn. congruence. }
      rewrite (IH s' Hnodup Hall' l0 _ Hnew).
      rewrite (bool_decide_eq_false_2 _ Hfresh).
      now rewrite bool_decide_eq_true_2 by apply list_elem_of_here.
    + rewrite (IH s' Hnodup Hall' l old) by (now rewrite Hkeep).
      destruct (decide (l ∈ rest)) as [Hin|Hout].
      * rewrite !bool_decide_eq_true_2; [reflexivity | now right | exact Hin].
      * rewrite !bool_decide_eq_false_2; [reflexivity | | exact Hout].
        intros H. apply Hout. apply list_elem_of_In in H. destruct H as [->|H];
          [contradiction | now apply list_elem_of_In].
Qed.



(** One issue labelled [a], the actions [labels: [b]] and
    [remove_labels: [b]], and a remote that echoes what it is sent.  The
    dry run applies both steps to the object it was given; the live run
    applies the removal to the record returned by the first edit, so the
    object it was given keeps [b]. *)
Lemma dry_and_live_sample :
  let dry := (execute echo_executor (add_then_remove ["b"] ["b"]) [0%nat] "issue" true
                (one_issue ["a"])).2 in
  let live := (execute echo_executor (add_then_remove ["b"] ["b"]) [0%nat] "issue" false
                 (one_issue ["a"])).2 in
  labels_at dry 0%nat = Some ["a"]
  /\ labels_at live 0%nat = Some ["a"; "b"]
  /\ labels_at live 1%nat = Some ["a"]
  /\ remote_calls (log live)
     = [edit Issues 7 12 (labels_param ["a"; "b"]); edit Issues 7 12 (labels_param ["a"])].
Proof. repeat split; reflexivity. Qed.

(** One issue labelled [a], the action [labels: [a]], and a remote on
    which labels form a set.  The dry run hands on the object with two
    copies of [a]; the live run hands on the answer of the remote, which
    has one. *)
Lemma dry_and_live_records :
  label_actions set_executor (add_only ["a"]) "issue" true 0%nat (one_issue ["a"])
  = (Return 0%nat, {| heap := [issue_with ["a"; "a"]]; log := [] |})
  /\ label_actions set_executor (add_only ["a"]) "issue" false 0%nat (one_issue ["a"])
     = (Return 1%nat,
        {| heap := [issue_with ["a"; "a"]; issue_with ["a"]];
           log := [remote (edit Issues 7 12 (labels_param ["a"; "a"]))] |}).
Proof. split; reflexivity. Qed.

(** A registered extension that edits the resource whatever [dryRun] is:
    the dry run records its call. *)
Lemma dry_run_with_eager_extension :
  remote_calls
    (log (execute eager_executor (via_extension "eager") [0%nat] "issue" true
            (one_issue ["a"])).2)
  = [edit Issues 7 12 (labels_param ["seen"])].
Proof. reflexivity. Qed.


End DryRun.

(** ** The action executor: registered extensions *)

Section Extensions.
Import ActionExecutor.
Import ActionExecutorNotions.

Lemma registerExtension_loaded (this this' : executor) (cls : extension) (alias : string) :
  registerExtension this (Some cls) alias = Return this' ->
  alias <> "" /\ extensionLoaded this' !! alias = Some cls.
Proof.
  unfold registerExtension. destruct (String.eqb_spec alias "") as [|Hne]; [discriminate|].
  intros [= <-]. split; [exact Hne|]. cbn. apply lookup_insert_eq.
Qed.

Lemma dispatch_registered (this : executor) (a : actions) (alias : string)
      (cls : extension) (l : loc) (ty : string) (dryRun : bool) :
  alias <> "" ->
  extensionLoaded this !! alias = Some cls ->
  extension_action a = Some alias ->
  dispatch_extension this a l ty dryRun
  = (run_extension alias cls l ty dryRun >> ret return_from_execute).
Proof.
  intros Hne Hcls Ha. unfold dispatch_extension. rewrite Ha.
  destruct (String.eqb_spec alias ""); [contradiction|]. now rewrite Hcls.
Qed.

Lemma execute_registered (this : executor) (a : actions) (alias : string)
      (cls : extension) (l : loc) (rest : list loc) (ty : string) (dryRun : bool)
      (s : store) :
  alias <> "" ->
  extensionLoaded this !! alias = Some cls ->
  extension_action a = Some alias ->
  execute this a (l :: rest) ty dryRun s
  = (let* resource := built_in_actions this a ty dryRun l in
     run_extension alias cls resource ty dryRun) s.
Proof.
  intros Hne Hcls Ha. cbn [execute]. unfold execute_body, bind.
  destruct (built_in_actions this a ty dryRun l s) as [[l'|msg] s1]; [|reflexivity].
  rewrite (dispatch_registered this a alias cls l' ty dryRun Hne Hcls Ha).
  unfold bind. now destruct (run_extension alias cls l' ty dryRun s1) as [[[]|msg] s2].
Qed.

(** C9.  Once [alias] has been registered with [registerExtension] and
    the action map names it in [extension], [execute] on a list of
    resources is: the built-in actions on the first resource, then one
    run of the registered instance on the record they hand on, then the
    end of the whole call.  So when the built-in actions complete, the
    run is recorded and the result of [execute] is the result of that
    run; when one of them throws, [execute] throws without running the
    extension; and in every case [execute] on the list behaves exactly
    as [execute] on its first resource alone: the resources after the
    first receive no action at all. *)
Theorem C9_registered_extension_returns (this this' : executor) (cls : extension)
        (alias : string) (a : actions) (l : loc) (rest : list loc)
        (ty : string) (dryRun : bool) (s : store) :
  registerExtension this (Some cls) alias = Return this' ->
  extension_action a = Some alias ->
  execute this' a (l :: rest) ty dryRun s
  = (let* resource := built_in_actions this' a ty dryRun l in
     run_extension alias cls resource ty dryRun) s
  /\ (forall resource s1,
        built_in_actions this' a ty dryRun l s = (Return resource, s1) ->
        execute this' a (l :: rest) ty dryRun s
        = cls resource ty dryRun
            {| heap := heap s1;
               log := (log s1 ++ [extension_run alias resource ty dryRun])%list |})
  /\ (forall msg s1,
        built_in_actions this' a ty dryRun l s = (Throw msg, s1) ->
        execute this' a (l :: rest) ty dryRun s = (Throw msg, s1))
  /\ execute this' a (l :: rest) ty dryRun s = execute this' a [l] ty dryRun s.
Proof.
  intros Hreg Ha. apply registerExtension_loaded in Hreg as [Hne Hcls].
  pose proof (execute_registered this' a alias cls l rest ty dryRun s Hne Hcls Ha) as Hrun.
  split; [exact Hrun|]. split; [|split].
  - intros resource s1 Hbuilt. rewrite Hrun, (bind_step _ _ _ _ _ Hbuilt). reflexivity.
  - intros msg s1 Hbuilt. rewrite Hrun. now apply bind_throws.
  - rewrite Hrun. symmetry.
    exact (execute_registered this' a alias cls l [] ty dryRun s Hne Hcls Ha).
Qed.

Lemma C9_registered_extension_returns_witness :
  execute stamping_executor (via_extension "stamp") [0%nat; 1%nat] "issue" true two_issues
  = stamp 0%nat "issue" true
      {| heap := heap two_issues;
         log := (log two_issues ++ [extension_run "stamp" 0%nat "issue" true])%list |}.
Proof.
  refine (proj1 (proj2 (C9_registered_extension_returns echo_executor stamping_executor
                          stamp "stamp" (via_extension "stamp") 0%nat [1%nat] "issue" true
                          two_issues eq_refl eq_refl)) 0%nat two_issues _).
  reflexivity.
Defined.

Example second_resource_untouched :
  let s' := (execute stamping_executor (via_extension "stamp") [0%nat; 1%nat]
               "issue" true two_issues).2 in
  labels_at s' 0%nat = Some ["seen"]
  /\ labels_at s' 1%nat = Some ["b"]
  /\ log s' = [extension_run "stamp" 0%nat "issue" true].
Proof. repeat split; reflexivity. Qed.

End Extensions.

(** ** Comment templates *)

Section CommentTemplates.
Import ActionExecutor.
Import ActionExecutorNotions.

Lemma string_app_cons (c : ascii) (s t : string) : String c s ++ t = String c (s ++ t).
Proof. reflexivity. Qed.

Lemma string_app_nil_r (s : string) : s ++ "" = s.
Proof. induction s as [|c s IH]; [reflexivity|]. now rewrite string_app_cons, IH. Qed.

Lemma string_app_assoc (s1 s2 s3 : string) : (s1 ++ s2) ++ s3 = s1 ++ (s2 ++ s3).
Proof. induction s1 as [|c s IH]; [reflexivity|]. now rewrite !string_app_cons, IH. Qed.

Lemma string_length_app (s1 s2 : string) :
  String.length (s1 ++ s2) = (String.length s1 + String.length s2)%nat.
Proof.
  induction s1 as [|c s IH]; [reflexivity|].
  rewrite string_app_cons. cbn [String.length Nat.add]. now f_equal.
Qed.

Lemma string_drop_length (n : nat) (s : string) :
  (String.length (CommandFramework.string_drop n s) <= String.length s)%nat.
Proof.
  revert s. induction n as [|n IH]; intros [|c s]; cbn; try lia.
  specialize (IH s). lia.
Qed.

Lemma prefix_braces_false (a c : ascii) (s : string) :
  Ascii.eqb c a = false -> startsWith (String a (String a "")) (String c s) = false.
Proof. intros H. cbn [startsWith]. now rewrite Ascii.eqb_sym, H. Qed.

Lemma close_placeholder_found (acc key post : string) :
  all_chars key_char key = true ->
  close_placeholder acc (key ++ "}}" ++ post) = Some (acc ++ key, post).
Proof.
  revert acc. induction key as [|c key IH]; intros acc Hkey.
  - rewrite string_app_nil_r. reflexivity.
  - cbn [all_chars] in Hkey. apply andb_prop in Hkey as [Hc Hkey].
    unfold key_char in Hc. apply andb_prop in Hc as [Hb Hlt].
    apply negb_true_iff in Hb, Hlt.
    rewrite string_app_cons. cbn [close_placeholder]. rewrite (prefix_braces_false "}" c _ Hb), Hlt.
    rewrite IH by exact Hkey. now rewrite string_app_assoc.
Qed.

Lemma close_placeholder_length (acc s key rest : string) :
  close_placeholder acc s = Some (key, rest) ->
  (String.length rest + 2 <= String.length s)%nat.
Proof.
  revert acc. induction s as [|c s IH]; intros acc; cbn [close_placeholder];
    [discriminate|].
  destruct (startsWith "}}" (String c s)) eqn:Hp.
  - intros [= _ <-]. destruct s as [|d s]; cbn [startsWith] in Hp.
    + now rewrite andb_false_r in Hp.
    + cbn. lia.
  - destruct (is_line_terminator c); [discriminate|].
    intros H. apply IH in H. cbn [String.length]. lia.
Qed.

(** The fuel only has to cover the length of the text. *)
Lemma replace_placeholders_fuel (f : string -> string) (n m : nat) (s : string) :
  (String.length s <= n)%nat -> (String.length s <= m)%nat ->
  replace_placeholders n f s = replace_placeholders m f s.
Proof.
  revert m s. induction n as [|n IH]; intros m s Hn Hm.
  - destruct s; [|cbn in Hn; lia]. destruct m; reflexivity.
  - destruct s as [|c s]; [destruct m; reflexivity|].
    destruct m as [|m]; [cbn in Hm; lia|].
    cbn [String.length] in Hn, Hm. cbn [replace_placeholders].
    rewrite (IH m s) by lia.
    destruct (startsWith "{{" (String c s)); [|reflexivity].
    destruct (close_placeholder "" (CommandFramework.string_drop 2 (String c s)))
      as [[key rest]|] eqn:E; [|reflexivity].
    apply close_placeholder_length in E.
    pose proof (string_drop_length 2 (String c s)) as Hd. cbn [String.length] in Hd.
    rewrite (IH m rest) by lia. reflexivity.
Qed.

Lemma replace_placeholders_plain (f : string -> string) (pre rest : string) (fuel : nat) :
  all_chars (fun c => negb (Ascii.eqb c "{")) pre = true ->
  replace_placeholders (String.length pre + fuel) f (pre ++ rest)
  = pre ++ replace_placeholders fuel f rest.
Proof.
  induction pre as [|c pre IH]; intros Hpre; [reflexivity|].
  cbn [all_chars] in Hpre. apply andb_prop in Hpre as [Hc Hpre].
  apply negb_true_iff in Hc.
  rewrite string_app_cons.
  cbn [String.length Nat.add replace_placeholders].
  rewrite (prefix_braces_false "{" c _ Hc), IH by exact Hpre. reflexivity.
Qed.

Lemma replace_placeholders_at (f : string -> string) (n : nat) (s key rest : string) :
  close_placeholder "" s = Some (key, rest) ->
  replace_placeholders (S n) f (String "{" (String "{" s))
  = f key ++ replace_placeholders n f rest.
Proof.
  intros H. cbn [replace_placeholders startsWith CommandFramework.string_drop].
  rewrite Ascii.eqb_refl. cbn [andb]. now rewrite H.
Qed.

(** One placeholder in a template: the text before it is kept, the
    placeholder is replaced by what the replacer returns, and the scan
    continues in the text after it, never in the replacement. *)
Lemma unmarkComment_placeholder (r : resource) (pre key post : string) :
  all_chars (fun c => negb (Ascii.eqb c "{")) pre = true ->
  all_chars key_char key = true ->
  unmarkComment r (pre ++ "{{" ++ key ++ "}}" ++ post)
  = pre ++ replacer r key ++ unmarkComment r post.
Proof.
  intros Hpre Hkey. unfold unmarkComment.
  rewrite string_length_app, replace_placeholders_plain by exact Hpre.
  f_equal.
  change ("{{" ++ key ++ "}}" ++ post) with (String "{" (String "{" (key ++ "}}" ++ post))).
  cbn [String.length].
  rewrite (replace_placeholders_at (replacer r) _ (key ++ "}}" ++ post) key post)
    by (now apply close_placeholder_found).
  f_equal. apply replace_placeholders_fuel; [|lia].
  rewrite !string_length_app. lia.
Qed.

Lemma replacer_falsy (r : resource) (key : string) :
  truthy (get_property (placeholders r) key) = false -> replacer r key = "".
Proof. intros H. unfold replacer, or_else. now rewrite H. Qed.

Lemma unmarkComment_single (r : resource) (key : string) :
  all_chars key_char key = true ->
  unmarkComment r ("{{" ++ key ++ "}}") = replacer r key.
Proof.
  intros Hkey.
  pose proof (unmarkComment_placeholder r "" key "" eq_refl Hkey) as H.
  rewrite string_app_nil_r in H. change ("" ++ ?x) with x in H.
  rewrite H. change (unmarkComment r "") with "". apply string_app_nil_r.
Qed.

(** The rendering quoted in the specification. *)
Lemma unmarkComment_author_example (r : resource) :
  author r = Some {| username := JStr "alice" |} ->
  unmarkComment r "{{author}} please review" = "@alice please review".
Proof.
  intros H.
  etransitivity;
    [exact (unmarkComment_placeholder r "" "author" " please review" eq_refl eq_refl)|].
  unfold replacer.
  change (get_property (placeholders r) "author")
    with (from_option (at_user <$> author r) (JStr "")).
  rewrite H. reflexivity.
Qed.

Lemma unmarkComment_nonexistent (r : resource) :
  unmarkComment r "{{nonexistent}}" = "".
Proof. exact (unmarkComment_single r "nonexistent" eq_refl). Qed.

(** The replacement is not scanned again. *)
Lemma unmarkComment_not_recursive (r : resource) :
  field r "title" = JStr "{{author}}" ->
  unmarkComment r "{{title}}" = "{{author}}".
Proof.
  intros H. etransitivity; [exact (unmarkComment_single r "title" eq_refl)|].
  unfold replacer. change (get_property (placeholders r) "title") with (field r "title").
  now rewrite H.
Qed.

(** C7 (code at the failing input).  [__proto__] and [constructor] are
    not entries of the placeholder map, yet the templates
    [{{__proto__}}] and [{{constructor}}] do not render as the empty
    string: the lookup [placeholders[key]] also finds what the object
    literal inherits. *)
Theorem C7_inherited_keys_are_rendered (r : resource) :
  own_property (placeholders r) "__proto__" = None
  /\ unmarkComment r "{{__proto__}}" = "[object Object]"
  /\ own_property (placeholders r) "constructor" = None
  /\ unmarkComment r "{{constructor}}" = "function Object() { [native code] }".
Proof.
  split; [reflexivity|]. split.
  - exact (unmarkComment_single r "__proto__" eq_refl).
  - split; [reflexivity|].
    exact (unmarkComment_single r "constructor" eq_refl).
Qed.

(** C10.  Whenever the value looked up for a placeholder is falsy, the
    placeholder renders as the empty string, in any position of a
    template; in particular a vote count of 0, an empty string, [false],
    [null] and a missing field all render as nothing. *)
Theorem C10_falsy_values_render_empty (r : resource) :
  (forall key, truthy (get_property (placeholders r) key) = false ->
               replacer r key = "")
  /\ (forall pre key post,
        all_chars (fun c => negb (Ascii.eqb c "{")) pre = true ->
        all_chars key_char key = true ->
        truthy (get_property (placeholders r) key) = false ->
        unmarkComment r (pre ++ "{{" ++ key ++ "}}" ++ post)
        = pre ++ unmarkComment r post)
  /\ (field r "upvotes" = JNum 0 -> unmarkComment r "{{upvotes}}" = "")
  /\ (field r "downvotes" = JNum 0 -> unmarkComment r "{{downvotes}}" = "")
  /\ (field r "title" = JStr "" -> unmarkComment r "{{title}}" = "")
  /\ (field r "state" = JBool false -> unmarkComment r "{{state}}" = "")
  /\ (field r "web_url" = JNull -> unmarkComment r "{{web_url}}" = "")
  /\ (field r "closed_at" = JUndefined -> unmarkComment r "{{closed_at}}" = "").
Proof.
  split; [exact (replacer_falsy r)|]. split.
  - intros pre key post Hpre Hkey Hfalsy.
    rewrite unmarkComment_placeholder by assumption.
    now rewrite (replacer_falsy r key Hfalsy).
  - repeat split; intros H;
      match type of H with
      | field r ?k = _ =>
          etransitivity; [exact (unmarkComment_single r k eq_refl)|]
      end;
      apply replacer_falsy;
      match goal with
      | |- truthy (get_property (placeholders r) ?k) = false =>
          change (get_property (placeholders r) k) with (field r k)
      end;
      now rewrite H.
Qed.

Lemma C10_falsy_values_render_empty_witness :
  unmarkComment unvoted_issue "{{upvotes}}" = ""
  /\ unmarkComment unvoted_issue ("votes: " ++ "{{" ++ "upvotes" ++ "}}" ++ ".")
     = "votes: " ++ unmarkComment unvoted_issue ".".
Proof.
  destruct (C10_falsy_values_render_empty unvoted_issue)
    as (_ & Htemplate & Hup & _).
  split.
  - apply Hup. reflexivity.
  - apply Htemplate; reflexivity.
Defined.

End CommentTemplates.

(* ===================================================================== *)
(** * Further properties of the policy engine *)
(* ===================================================================== *)

Section LabelEntries.
Import PolicyEngine.
Import PolicyEngineNotions.
Import PolicyEngineRulesNotions.

Lemma includes_elem_of (x : string) (l : list string) :
  includes x l = true <-> x ∈ l.
Proof.
  unfold includes. rewrite existsb_exists. split.
  - intros (y & Hy & Heq). apply String.eqb_eq in Heq as ->. now apply list_elem_of_In.
  - intros H. exists x. split; [now apply list_elem_of_In | apply String.eqb_refl].
Qed.

Lemma includes_char_cons (c d : ascii) (s : string) :
  includes_char c (String d s) = false ->
  Ascii.eqb c d = false /\ includes_char c s = false.
Proof. cbn [includes_char]. intros H. now apply orb_false_elim in H. Qed.

(** X1.  Without sentinel and without brace entry, the labels condition
    holds exactly when every required label is among the names of the
    resource's labels; in particular an empty list always holds. *)
Theorem labels_plain_entries_all_required
        (labels : option (list label)) (requiredLabels : list string) :
  includes "None" requiredLabels = false ->
  includes "Any" requiredLabels = false ->
  List.filter (includes_char "{") requiredLabels = [] ->
  (evaluateLabelsCondition labels requiredLabels = true
   <-> forall x, x ∈ requiredLabels -> x ∈ map label_name (default [] labels))
  /\ evaluateLabelsCondition labels [] = true.
Proof.
  intros HNone HAny Hplain. split; [|reflexivity].
  unfold evaluateLabelsCondition. rewrite HNone, HAny, Hplain. cbn [or_loop].
  rewrite forallb_forall. split.
  - intros H x Hx. apply includes_elem_of, H. now apply list_elem_of_In.
  - intros H x Hx. apply includes_elem_of, H. now apply list_elem_of_In.
Qed.

Lemma labels_plain_entries_all_required_witness :
  evaluateLabelsCondition (Some [LabelString "bug"; LabelObject "urgent"]) ["urgent"; "bug"]
  = true
  <-> forall x, x ∈ ["urgent"; "bug"] -> x ∈ map label_name [LabelString "bug"; LabelObject "urgent"].
Proof.
  apply (labels_plain_entries_all_required
           (Some [LabelString "bug"; LabelObject "urgent"]) ["urgent"; "bug"]);
    reflexivity.
Defined.

Lemma brace_body_unclosed (acc s : string) :
  includes_char "}" s = false -> brace_body acc s = None.
Proof.
  revert acc. induction s as [|c s IH]; intros acc H; [reflexivity|].
  apply includes_char_cons in H as [Hc Hs]. cbn [brace_body].
  rewrite Ascii.eqb_sym, Hc. now apply IH.
Qed.

Lemma match_group_unclosed (pre s : string) :
  includes_char "}" s = false -> match_group pre s = None.
Proof.
  revert pre. induction s as [|c s IH]; intros pre H; [reflexivity|].
  apply includes_char_cons in H as [Hc Hs]. cbn [match_group].
  rewrite (brace_body_unclosed "" s Hs), (IH _ Hs).
  destruct (is_line_terminator c), (Ascii.eqb c "{" && negb (String.eqb pre ""));
    reflexivity.
Qed.

Lemma match_group_no_brace (pre s : string) :
  includes_char "{" s = false -> match_group pre s = None.
Proof.
  revert pre. induction s as [|c s IH]; intros pre H; [reflexivity|].
  apply includes_char_cons in H as [Hc Hs]. cbn [match_group].
  rewrite Ascii.eqb_sym, Hc, (IH _ Hs). cbn [andb].
  now destruct (is_line_terminator c).
Qed.

Lemma stringToArray_unclosed (s : string) :
  includes_char "}" s = false -> stringToArray s = [].
Proof. intros H. unfold stringToArray. now rewrite match_group_unclosed. Qed.

Lemma stringToArray_no_prefix (body : string) :
  includes_char "{" body = false -> stringToArray (String "{" body) = [].
Proof.
  intros H. unfold stringToArray. cbn [match_group]. cbn.
  now rewrite (match_group_no_brace _ body H).
Qed.

(** X2.  A brace entry that has no closing brace, or that starts with
    its brace (no prefix before the group), expands to nothing; a
    required-label list without sentinel that holds such an entry is
    satisfied by no resource. *)
Theorem labels_malformed_group_never_holds
        (labels : option (list label)) (requiredLabels : list string) (entry : string) :
  includes "None" requiredLabels = false ->
  includes "Any" requiredLabels = false ->
  entry ∈ requiredLabels ->
  (includes_char "{" entry = true /\ includes_char "}" entry = false)
  \/ (exists body, entry = String "{" body /\ includes_char "{" body = false) ->
  stringToArray entry = []
  /\ evaluateLabelsCondition labels requiredLabels = false.
Proof.
  intros HNone HAny Hin Hbad.
  assert (Hopen : includes_char "{" entry = true).
  { destruct Hbad as [[H _]|(body & -> & _)]; [exact H | reflexivity]. }
  assert (Hempty : stringToArray entry = []).
  { destruct Hbad as [[_ H]|(body & -> & H)];
      [now apply stringToArray_unclosed | now apply stringToArray_no_prefix]. }
  split; [exact Hempty|].
  assert (Hfilter : entry ∈ List.filter (includes_char "{") requiredLabels).
  { apply list_elem_of_In, filter_In. split; [now apply list_elem_of_In | exact Hopen]. }
  rewrite evaluateLabelsCondition_groups_only; try assumption.
  - apply not_true_is_false. rewrite forallb_forall. intros H.
    specialize (H entry (proj1 (list_elem_of_In _ _) Hfilter)).
    unfold group_satisfied in H. rewrite Hempty in H. discriminate.
  - intros E. rewrite E in Hfilter. inversion Hfilter.
Qed.

Lemma labels_malformed_group_never_holds_witness :
  stringToArray "{bug,feature}" = []
  /\ evaluateLabelsCondition (Some [LabelString "bug"]) ["{bug,feature}"] = false.
Proof.
  apply (labels_malformed_group_never_holds (Some [LabelString "bug"])
           ["{bug,feature}"] "{bug,feature}"); try reflexivity.
  - apply list_elem_of_here.
  - right. exists "bug,feature}". split; reflexivity.
Defined.

Lemma brace_body_closed (acc body rest : string) :
  includes_char "}" body = false ->
  brace_body acc (body ++ String "}" rest)
  = if String.eqb (acc ++ body) "" then None else Some (acc ++ body).
Proof.
  revert acc. induction body as [|c body IH]; intros acc H.
  - rewrite string_app_nil_r. change ("" ++ String "}" rest) with (String "}" rest).
    reflexivity.
  - apply includes_char_cons in H as [Hc Hs]. rewrite string_app_cons.
    cbn [brace_body]. rewrite Ascii.eqb_sym, Hc, IH by exact Hs.
    now rewrite string_app_assoc.
Qed.

Lemma match_group_closed (pre key body rest : string) :
  every_char (fun c => negb (Ascii.eqb c "{") && negb (is_line_terminator c)) key = true ->
  String.eqb (pre ++ key) "" = false ->
  includes_char "}" body = false ->
  String.eqb body "" = false ->
  match_group pre (key ++ String "{" (body ++ String "}" rest)) = Some (pre ++ key, body).
Proof.
  revert pre. induction key as [|c key IH]; intros pre Hkey Hne Hbody Hbne.
  - rewrite string_app_nil_r in *. change ("" ++ ?x) with x.
    cbn [match_group]. rewrite Ascii.eqb_refl, Hne. cbn [negb andb].
    rewrite brace_body_closed by exact Hbody. change ("" ++ body) with body.
    now rewrite Hbne.
  - cbn [every_char] in Hkey. apply andb_prop in Hkey as [Hc Hkey].
    apply andb_prop in Hc as [Hc1 Hc2]. apply negb_true_iff in Hc1, Hc2.
    rewrite string_app_cons. cbn [match_group]. rewrite Hc1, Hc2. cbn [andb].
    rewrite IH; try assumption.
    + now rewrite string_app_assoc.
    + now rewrite string_app_assoc.
Qed.

(** X3.  A well-formed brace entry [key{v1,...,vn}...] expands to the
    trimmed key followed by each trimmed alternative, one expansion per
    comma-separated alternative: the key is trimmed too, and whatever
    follows the closing brace is ignored. *)
Theorem stringToArray_expands_group (key body rest : string) :
  every_char (fun c => negb (Ascii.eqb c "{") && negb (is_line_terminator c)) key = true ->
  String.eqb key "" = false ->
  includes_char "}" body = false ->
  String.eqb body "" = false ->
  stringToArray (key ++ String "{" (body ++ String "}" rest))
  = map (fun value => trim key ++ trim value) (split "," body).
Proof.
  intros Hkey Hne Hbody Hbne. unfold stringToArray.
  rewrite (match_group_closed "" key body rest Hkey Hne Hbody Hbne).
  change ("" ++ key) with key. rewrite map_map. apply map_ext.
  intros v. reflexivity.
Qed.

Lemma stringToArray_expands_group_witness :
  stringToArray (" type::" ++ String "{" ("bug , feature" ++ String "}" " (any)"))
  = [ "type::bug"; "type::feature" ].
Proof.
  exact (stringToArray_expands_group " type::" "bug , feature" " (any)"
           eq_refl eq_refl eq_refl eq_refl).
Defined.

End LabelEntries.

Section ConditionSets.
Import PolicyEngine.
Import PolicyEngineRules.
Import PolicyEngineNotions.
Import PolicyEngineRulesNotions.

Lemma evaluateConditions_app (E : engine) (r : resource) (cs1 cs2 : list conditionEntry) :
  evaluateConditions E r (cs1 ++ cs2)
  = match evaluateConditions E r cs1 with
    | Return true => evaluateConditions E r cs2
    | o => o
    end.
Proof.
  induction cs1 as [|c cs1 IH]; [reflexivity|].
  cbn [app evaluateConditions].
  destruct (evaluateCondition E r c) as [v|m]; [|reflexivity].
  destruct (result_truthy v); cbn [negb]; [exact IH | reflexivity].
Qed.

(** X4.  [evaluateConditions] is a conjunction evaluated in order: it
    returns true exactly when every condition returns a truthy value, and
    evaluating two sets one after the other is evaluating the first and,
    only if it returned true, the second. *)
Theorem evaluateConditions_is_conjunction (E : engine) (r : resource)
        (cs1 cs2 : list conditionEntry) :
  (evaluateConditions E r cs1 = Return true
   <-> Forall (fun c => exists v, evaluateCondition E r c = Return v
                                   /\ result_truthy v = true) cs1)
  /\ evaluateConditions E r (cs1 ++ cs2)
     = match evaluateConditions E r cs1 with
       | Return true => evaluateConditions E r cs2
       | o => o
       end.
Proof.
  split; [|apply evaluateConditions_app].
  induction cs1 as [|c cs IH]; cbn [evaluateConditions].
  - split; [constructor | reflexivity].
  - destruct (evaluateCondition E r c) as [v|m] eqn:Ec.
    + destruct (result_truthy v) eqn:Hv; cbn [negb].
      * split.
        -- intros H. constructor; [eauto | now apply IH].
        -- intros H. apply IH. now inversion H.
      * split; [discriminate|]. intros H. inversion H as [|? ? (v' & Hv' & Ht) _].
        congruence.
    + split; [discriminate|]. intros H. inversion H as [|? ? (v' & Hv' & _) _].
      congruence.
Qed.

(** X5.  A condition kind the engine does not know evaluates to false
    unless a custom filter was registered under that name.  After
    [registerCustomFilter name f] the kind [name] runs [f] (a later
    registration replacing an earlier one), every other unknown kind
    behaves as before, and no built-in kind is affected. *)
Theorem custom_filter_registry (E : engine) (r : resource) (name : string)
        (f g : resource -> jsval -> outcome jsval) (v : jsval) :
  (customFilters E !! name = None ->
   evaluateCondition E r (other name v) = Return (Plain (JBool false))
   /\ evaluateConditions E r [other name v] = Return false)
  /\ evaluateCondition (registerCustomFilter E name f) r (other name v)
     = match f r v with
       | Return x => Return (Plain x)
       | Throw m => Throw m
       end
  /\ evaluateCondition (registerCustomFilter (registerCustomFilter E name g) name f) r
       (other name v)
     = evaluateCondition (registerCustomFilter E name f) r (other name v)
  /\ (forall name', name' <> name ->
        evaluateCondition (registerCustomFilter E name f) r (other name' v)
        = evaluateCondition E r (other name' v))
  /\ (forall c, is_other c = false ->
        evaluateCondition (registerCustomFilter E name f) r c = evaluateCondition E r c).
Proof.
  split; [|split; [|split; [|split]]].
  - intros H. cbn [evaluateCondition evaluateConditions]. rewrite H. split; reflexivity.
  - cbn [evaluateCondition registerCustomFilter customFilters].
    now rewrite lookup_insert_eq.
  - cbn [evaluateCondition registerCustomFilter customFilters].
    now rewrite !lookup_insert_eq.
  - intros name' Hne. cbn [evaluateCondition registerCustomFilter customFilters].
    now rewrite lookup_insert_ne by congruence.
  - intros c Hc. destruct c; try discriminate; reflexivity.
Qed.

Lemma custom_filter_registry_witness :
  evaluateCondition
    {| date_fns := sample_dateFns; now := 0;
       GroupMembers_show := fun _ _ => None;
       run_script := fun _ _ => Raised (JObject "TypeError");
       StringToNumber := fun _ => NaN;
       customFilters := ∅ |}
    sample_resource (other "has_epic" JNull)
  = Return (Plain (JBool false)).
Proof.
  apply (custom_filter_registry
           {| date_fns := sample_dateFns; now := 0;
              GroupMembers_show := fun _ _ => None;
              run_script := fun _ _ => Raised (JObject "TypeError");
              StringToNumber := fun _ => NaN;
              customFilters := ∅ |}
           sample_resource "has_epic" (fun _ _ => Return JNull) (fun _ _ => Return JNull)
           JNull).
  reflexivity.
Defined.

Lemma array_filter_returns (cb : resource -> outcome bool) (rs kept : list resource) :
  array_filter cb rs = Return kept ->
  kept = List.filter (fun x => match cb x with Return true => true | _ => false end) rs.
Proof.
  revert kept. induction rs as [|x rs IH]; intros kept; cbn [array_filter List.filter].
  - now intros [= <-].
  - destruct (cb x) as [keep|m]; [|discriminate].
    destruct (array_filter cb rs) as [kept'|m]; [|discriminate].
    intros [= <-]. rewrite (IH kept' eq_refl). now destruct keep.
Qed.

Lemma List_filter_sublist {A} (p : A -> bool) (l : list A) :
  List.filter p l `sublist_of` l.
Proof.
  induction l as [|x l IH]; cbn [List.filter]; [constructor|].
  destruct (p x); [now apply sublist_skip | now apply sublist_cons].
Qed.

(** X6.  When [filterResources] returns, it returns exactly the
    resources that satisfy all the conditions, in their input order; with
    no condition it returns its input. *)
Theorem filterResources_keeps_passing (E : engine) (rs kept : list resource)
        (conds : list conditionEntry) :
  filterResources E rs conds = Return kept ->
  kept = List.filter (passes E conds) rs
  /\ kept `sublist_of` rs
  /\ (conds = [] -> kept = rs).
Proof.
  intros H.
  assert (Hkept : kept = List.filter (passes E conds) rs).
  { destruct conds as [|c cs].
    - cbn in H. injection H as <-. unfold passes. cbn [evaluateConditions].
      induction rs as [|x rs IH]; [reflexivity|]. cbn [List.filter]. now f_equal.
    - cbn [filterResources] in H. exact (array_filter_returns _ _ _ H). }
  split; [exact Hkept|]. split.
  - rewrite Hkept. apply List_filter_sublist.
  - intros ->. cbn in H. now injection H as <-.
Qed.

Lemma filterResources_keeps_passing_witness :
  [sample_resource] = List.filter
    (passes {| date_fns := sample_dateFns; now := 0;
               GroupMembers_show := fun _ _ => None;
               run_script := fun _ _ => Raised (JObject "TypeError");
               StringToNumber := fun _ => NaN;
               customFilters := ∅ |} [labels_cond []])
    [sample_resource].
Proof.
  exact (proj1 (filterResources_keeps_passing
           {| date_fns := sample_dateFns; now := 0;
              GroupMembers_show := fun _ _ => None;
              run_script := fun _ _ => Raised (JObject "TypeError");
              StringToNumber := fun _ => NaN;
              customFilters := ∅ |}
           [sample_resource] [sample_resource] [labels_cond []] eq_refl)).
Defined.



Lemma filterResources_kept (E : engine) (rs kept : list resource)
      (conds : list conditionEntry) :
  filterResources E rs conds = Return kept -> kept = List.filter (passes E conds) rs.
Proof.
  intros H. destruct conds as [|c cs].
  - cbn in H. injection H as <-. unfold passes. cbn [evaluateConditions].
    induction rs as [|x rs IH]; [reflexivity|]. cbn [List.filter]. now f_equal.
  - cbn [filterResources] in H. exact (array_filter_returns _ _ _ H).
Qed.

End ConditionSets.

Section MoreLimits.
Import PolicyEngine.
Import PolicyEngineRules.
Import PolicyEngineNotions.
Import PolicyEngineRulesNotions.

Lemma sort_insert_sorted_asc (x : resource) (l : list resource) :
  StronglySorted oldest_first l ->
  StronglySorted oldest_first (sort_insert by_created_asc x l).
Proof.
  induction 1 as [|y l Hl IH Hy]; cbn [sort_insert].
  - repeat constructor.
  - destruct (Z.leb_spec (by_created_asc x y) 0) as [Hle|Hgt].
    + constructor; [now constructor|].
      constructor; [unfold oldest_first, by_created_asc in *; lia|].
      eapply Forall_impl; [exact Hy|].
      intros z Hz. unfold oldest_first, by_created_asc in *. lia.
    + constructor; [exact IH|].
      rewrite (sort_insert_perm by_created_asc x l).
      constructor; [unfold oldest_first, by_created_asc in *; lia | exact Hy].
Qed.

Lemma array_sort_sorted_asc (l : list resource) :
  StronglySorted oldest_first (array_sort by_created_asc l).
Proof.
  induction l as [|x l IH]; cbn [array_sort]; [constructor|].
  now apply sort_insert_sorted_asc.
Qed.

Lemma strongly_sorted_take {R : resource -> resource -> Prop} (n : nat) (l : list resource) :
  StronglySorted R l -> StronglySorted R (firstn n l).
Proof.
  intros H. revert n. induction H as [|y l Hl IH Hy]; intros [|n]; cbn; try constructor.
  - apply IH.
  - apply Forall_forall. intros z Hz. rewrite Forall_forall in Hy.
    apply Hy. exact (subseteq_take n l z Hz).
Qed.

Lemma strongly_sorted_split {R : resource -> resource -> Prop} (n : nat) (l : list resource) :
  StronglySorted R l ->
  forall x y, x ∈ firstn n l -> y ∈ skipn n l -> R x y.
Proof.
  intros H. revert n. induction H as [|z l Hl IH Hz]; intros n x y Hx Hy.
  - destruct n; cbn in Hx; inversion Hx.
  - destruct n as [|n]; cbn in Hx, Hy; [inversion Hx|].
    apply elem_of_cons in Hx as [->|Hx].
    + rewrite Forall_forall in Hz. apply Hz. exact (subseteq_drop n l y Hy).
    + eapply IH; eassumption.
Qed.

Lemma applyLimits_oldest (st : arrays) (resources : array_ref) (N : Z) (m : option Z) :
  limit_truthy m = false ->
  0 < N ->
  applyLimits st resources (Some {| most_recent := m; oldest := Some N |})
  = ((st ++ [array_sort by_created_asc (read st resources)]
         ++ [firstn (Z.to_nat N) (array_sort by_created_asc (read st resources))])%list,
     S (length st)).
Proof.
  intros Hm HN. unfold applyLimits, alloc, sort_in_place.
  cbn [most_recent oldest]. rewrite Hm. cbn [limit_truthy].
  destruct (Z.eqb_spec N 0) as [|_]; [lia|]. cbn [negb].
  assert (Hread : read (st ++ [read st resources])%list (length st) = read st resources).
  { unfold read at 1. now rewrite list_lookup_middle. }
  rewrite Hread.
  assert (Hins : <[length st := array_sort by_created_asc (read st resources)]>
                   (st ++ [read st resources])%list
                 = (st ++ [array_sort by_created_asc (read st resources)])%list).
  { rewrite insert_app_r_alt by lia. now rewrite Nat.sub_diag. }
  change (fun a b : resource => created_time a - created_time b) with by_created_asc.
  rewrite Hins.
  assert (Hread2 : read (st ++ [array_sort by_created_asc (read st resources)])%list
                        (length st)
                   = array_sort by_created_asc (read st resources)).
  { unfold read at 1. now rewrite list_lookup_middle. }
  rewrite Hread2. cbn [from_option id]. rewrite slice0_positive by exact HN.
  rewrite length_app, Nat.add_1_r, <- app_assoc. reflexivity.
Qed.

(** X8.  For a limit [{oldest: N}] with [N] positive (and no truthy
    [most_recent]), the array [applyLimits] returns has [min N (length l)]
    elements, is ordered by ascending creation time, consists of elements
    of the input whose creation times are all at most those of the
    elements left out, and the input array is left as it was. *)
Theorem applyLimits_oldest_limit (st : arrays) (resources : array_ref)
        (l : list resource) (N : positive) (m : option Z) :
  limit_truthy m = false ->
  st !! resources = Some l ->
  let out := applyLimits st resources
               (Some {| most_recent := m; oldest := Some (Z.pos N) |}) in
  let result := read out.1 out.2 in
  exists excluded,
    length result = Nat.min (Pos.to_nat N) (length l)
    /\ StronglySorted oldest_first result
    /\ Permutation l (result ++ excluded)%list
    /\ (forall x y, x ∈ result -> y ∈ excluded -> created_time x <= created_time y)
    /\ out.1 !! resources = Some l.
Proof.
  intros Hm Hl out result. subst result out.
  rewrite applyLimits_oldest by (assumption || lia).
  assert (Hr : read st resources = l) by (unfold read; now rewrite Hl).
  rewrite Hr. cbn [fst snd]. change (Z.to_nat (Z.pos N)) with (Pos.to_nat N).
  set (sorted := array_sort by_created_asc l).
  assert (Hres : read (st ++ [sorted] ++ [firstn (Pos.to_nat N) sorted])%list (S (length st))
                 = firstn (Pos.to_nat N) sorted).
  { unfold read. rewrite app_assoc.
    replace (S (length st)) with (length (st ++ [sorted])%list)
      by (rewrite length_app; cbn; lia).
    now rewrite list_lookup_middle. }
  rewrite Hres.
  exists (skipn (Pos.to_nat N) sorted). repeat split.
  - rewrite length_take. subst sorted.
    rewrite (Permutation_length (array_sort_perm by_created_asc l)). reflexivity.
  - apply strongly_sorted_take, array_sort_sorted_asc.
  - rewrite firstn_skipn. symmetry. apply array_sort_perm.
  - intros x y Hx Hy.
    exact (strongly_sorted_split _ _ (array_sort_sorted_asc l) x y Hx Hy).
  - rewrite lookup_app_l; [exact Hl|]. eapply lookup_lt_Some; exact Hl.
Qed.

Lemma applyLimits_oldest_limit_witness :
  exists excluded,
    Permutation [created_at_ 10; created_at_ 30; created_at_ 20]
      (read (applyLimits [[created_at_ 10; created_at_ 30; created_at_ 20]] 0%nat
               (Some {| most_recent := None; oldest := Some 2 |})).1
            (applyLimits [[created_at_ 10; created_at_ 30; created_at_ 20]] 0%nat
               (Some {| most_recent := None; oldest := Some 2 |})).2
         ++ excluded)%list.
Proof.
  destruct (applyLimits_oldest_limit
              [[created_at_ 10; created_at_ 30; created_at_ 20]] 0%nat
              [created_at_ 10; created_at_ 30; created_at_ 20] 2%positive None
              eq_refl eq_refl)
    as (excluded & _ & _ & Hperm & _).
  exists excluded. exact Hperm.
Defined.

(** X9.  Limits outside the validated range: a limit object whose
    [most_recent] and [oldest] are both missing or 0 truncates nothing,
    [applyLimits] hands back the very array it was given; a negative
    [most_recent] drops that many resources from the end of the sorted
    copy instead of keeping a prefix of that length. *)
Theorem applyLimits_outside_schema (st : arrays) (resources : array_ref)
        (l : list resource) (lim : limits) (k : positive) (o : option Z) :
  st !! resources = Some l ->
  (limit_truthy (most_recent lim) = false -> limit_truthy (oldest lim) = false ->
   (applyLimits st resources (Some lim)).2 = resources
   /\ read (applyLimits st resources (Some lim)).1 resources = l)
  /\ read (applyLimits st resources
             (Some {| most_recent := Some (Z.neg k); oldest := o |})).1
          (applyLimits st resources
             (Some {| most_recent := Some (Z.neg k); oldest := o |})).2
     = firstn (length l - Pos.to_nat k) (array_sort by_created_desc l).
Proof.
  intros Hl.
  assert (Hr : read st resources = l) by (unfold read; now rewrite Hl).
  split.
  - intros Hm Ho. unfold applyLimits, alloc. rewrite Hm, Ho. cbn [fst snd].
    split; [reflexivity|]. unfold read. rewrite lookup_app_l; [now rewrite Hl|].
    eapply lookup_lt_Some; exact Hl.
  - unfold applyLimits, alloc, sort_in_place. cbn [most_recent limit_truthy negb Z.eqb].
    cbn [from_option id fst snd].
    assert (Hread : read (st ++ [read st resources])%list (length st) = read st resources).
    { unfold read at 1. now rewrite list_lookup_middle. }
    rewrite Hread, Hr.
    change (fun a b : resource => created_time b - created_time a) with by_created_desc.
    assert (Hins : <[length st := array_sort by_created_desc l]> (st ++ [l])%list
                   = (st ++ [array_sort by_created_desc l])%list).
    { rewrite insert_app_r_alt by lia. now rewrite Nat.sub_diag. }
    rewrite Hins.
    assert (Hread2 : read (st ++ [array_sort by_created_desc l])%list (length st)
                     = array_sort by_created_desc l).
    { unfold read at 1. now rewrite list_lookup_middle. }
    rewrite Hread2. unfold read at 1.
    rewrite list_lookup_middle by reflexivity. cbn [from_option id].
    unfold slice0. cbn [Z.ltb Z.compare].
    rewrite (Permutation_length (array_sort_perm by_created_desc l)).
    f_equal. lia.
Qed.

Lemma applyLimits_outside_schema_witness :
  (applyLimits [[created_at_ 10; created_at_ 30]] 0%nat
     (Some {| most_recent := Some 0; oldest := None |})).2 = 0%nat
  /\ read (applyLimits [[created_at_ 10; created_at_ 30]] 0%nat
             (Some {| most_recent := Some 0; oldest := None |})).1 0%nat
     = [created_at_ 10; created_at_ 30].
Proof.
  apply (applyLimits_outside_schema [[created_at_ 10; created_at_ 30]] 0%nat
           [created_at_ 10; created_at_ 30]
           {| most_recent := Some 0; oldest := None |} 1%positive None);
    reflexivity.
Defined.

Lemma sort_insert_stable (cmp : resource -> resource -> Z) (p : resource -> bool)
      (x : resource) (l : list resource) :
  (forall y, p x = true -> 0 < cmp x y -> p y = false) ->
  List.filter p (sort_insert cmp x l) = List.filter p (x :: l).
Proof.
  intros Hpass. induction l as [|y l IH]; cbn [sort_insert]; [reflexivity|].
  destruct (Z.leb_spec (cmp x y) 0) as [Hle|Hgt]; [reflexivity|].
  cbn [List.filter] in *. rewrite IH.
  destruct (p x) eqn:Hx; [|reflexivity].
  now rewrite (Hpass y eq_refl Hgt).
Qed.

(** X10.  The sort used for limits is stable: among the resources created
    at one and the same instant, the sorted copy keeps the order of the
    input, for the descending as for the ascending comparator. *)
Theorem limits_sort_is_stable (t : Z) (l : list resource) :
  List.filter (created_at_instant t) (array_sort by_created_desc l)
  = List.filter (created_at_instant t) l
  /\ List.filter (created_at_instant t) (array_sort by_created_asc l)
     = List.filter (created_at_instant t) l.
Proof.
  split; induction l as [|x l IH]; cbn [array_sort]; try reflexivity.
  - rewrite sort_insert_stable.
    + cbn [List.filter]. now rewrite IH.
    + intros y Hx Hlt. unfold created_at_instant, by_created_desc in *.
      apply Z.eqb_eq in Hx. apply Z.eqb_neq. lia.
  - rewrite sort_insert_stable.
    + cbn [List.filter]. now rewrite IH.
    + intros y Hx Hlt. unfold created_at_instant, by_created_asc in *.
      apply Z.eqb_eq in Hx. apply Z.eqb_neq. lia.
Qed.

Lemma applyLimits_sorting (st : arrays) (resources : array_ref) (lim : limits) :
  limit_truthy (most_recent lim) = true
  \/ (limit_truthy (most_recent lim) = false /\ limit_truthy (oldest lim) = true) ->
  exists cmp n,
    applyLimits st resources (Some lim)
    = ((st ++ [array_sort cmp (read st resources)]
           ++ [slice0 n (array_sort cmp (read st resources))])%list,
       S (length st)).
Proof.
  intros Hcase.
  assert (Hgen : forall cmp n,
             alloc (sort_in_place cmp (st ++ [read st resources])%list (length st))
                   (slice0 n (read (sort_in_place cmp (st ++ [read st resources])%list
                                                  (length st)) (length st)))
             = ((st ++ [array_sort cmp (read st resources)]
                    ++ [slice0 n (array_sort cmp (read st resources))])%list,
                S (length st))).
  { intros cmp n. unfold alloc, sort_in_place.
    assert (Hread : read (st ++ [read st resources])%list (length st) = read st resources).
    { unfold read at 1. now rewrite list_lookup_middle. }
    rewrite Hread.
    assert (Hins : <[length st := array_sort cmp (read st resources)]>
                     (st ++ [read st resources])%list
                   = (st ++ [array_sort cmp (read st resources)])%list).
    { rewrite insert_app_r_alt by lia. now rewrite Nat.sub_diag. }
    rewrite Hins.
    assert (Hread2 : read (st ++ [array_sort cmp (read st resources)])%list (length st)
                     = array_sort cmp (read st resources)).
    { unfold read at 1. now rewrite list_lookup_middle. }
    rewrite Hread2, length_app, Nat.add_1_r, <- app_assoc. reflexivity. }
  unfold applyLimits. cbn [alloc].
  destruct Hcase as [Hm | [Hm Ho]]; rewrite Hm; [|rewrite Ho]; eexists _, _; apply Hgen.
Qed.

Lemma slice0_subseteq (n : Z) (l : list resource) : slice0 n l ⊆ l.
Proof. unfold slice0. destruct (n <? 0); apply subseteq_take. Qed.

Lemma applyLimits_selects (st : arrays) (resources : array_ref) (lim : option limits)
      (l : list resource) :
  st !! resources = Some l ->
  read (applyLimits st resources lim).1 (applyLimits st resources lim).2 ⊆ l
  /\ (forall a x, st !! a = Some x -> (applyLimits st resources lim).1 !! a = Some x).
Proof.
  intros Hl.
  assert (Hr : read st resources = l) by (unfold read; now rewrite Hl).
  destruct lim as [lim|]; [|cbn; rewrite Hr; split; [reflexivity | auto]].
  destruct (limit_truthy (most_recent lim)) eqn:Hm;
    [|destruct (limit_truthy (oldest lim)) eqn:Ho].
  - destruct (applyLimits_sorting st resources lim (or_introl Hm)) as (cmp & n & ->).
    cbn [fst snd]. rewrite Hr. split.
    + unfold read. rewrite app_assoc.
      replace (S (length st)) with (length (st ++ [array_sort cmp l])%list)
        by (rewrite length_app; cbn; lia).
      rewrite list_lookup_middle by reflexivity. cbn [from_option id].
      intros x Hx. apply slice0_subseteq in Hx.
      now rewrite (array_sort_perm cmp l) in Hx.
    + intros a x Ha. now apply lookup_app_l_Some.
  - destruct (applyLimits_sorting st resources lim (or_intror (conj Hm Ho)))
      as (cmp & n & ->).
    cbn [fst snd]. rewrite Hr. split.
    + unfold read. rewrite app_assoc.
      replace (S (length st)) with (length (st ++ [array_sort cmp l])%list)
        by (rewrite length_app; cbn; lia).
      rewrite list_lookup_middle by reflexivity. cbn [from_option id].
      intros x Hx. apply slice0_subseteq in Hx.
      now rewrite (array_sort_perm cmp l) in Hx.
    + intros a x Ha. now apply lookup_app_l_Some.
  - unfold applyLimits, alloc. rewrite Hm, Ho. cbn [fst snd]. split.
    + unfold read. rewrite lookup_app_l by (eapply lookup_lt_Some; exact Hl).
      now rewrite Hl.
    + intros a x Ha. now apply lookup_app_l_Some.
Qed.

(** X11.  Whatever [processRule] returns for a rule consists of resources
    of the input array that satisfy the rule's conditions, the input
    array is left as it was, without limits the result is exactly the
    passing resources in input order, and with [most_recent: N] it has at
    most [N] elements. *)
Theorem processRule_selects_passing (E : engine) (st st' : arrays)
        (resources out : array_ref) (l : list resource) (r0 : rule) :
  st !! resources = Some l ->
  processRule E st resources r0 = Return (st', out) ->
  (forall x, x ∈ read st' out -> x ∈ l /\ passes E (conditions r0) x = true)
  /\ st' !! resources = Some l
  /\ (rule_limits r0 = None ->
      read st' out = List.filter (passes E (conditions r0)) l)
  /\ (forall N o, rule_limits r0 = Some {| most_recent := Some (Z.pos N); oldest := o |} ->
        (length (read st' out) <= Pos.to_nat N)%nat).
Proof.
  intros Hl. unfold processRule.
  assert (Hr : read st resources = l) by (unfold read; now rewrite Hl).
  destruct (filterResourcesIn E st resources (conditions r0)) as [[st1 filtered]|m] eqn:Ef;
    [|discriminate].
  assert (Hst1 : st1 !! filtered = Some (List.filter (passes E (conditions r0)) l)
                 /\ (forall a x, st !! a = Some x -> st1 !! a = Some x)).
  { unfold filterResourcesIn in Ef. destruct (conditions r0) as [|c cs] eqn:Ec.
    - assert (st1 = st /\ filtered = resources) as [-> ->] by (split; congruence).
      split; [|auto]. rewrite Hl. f_equal.
      unfold passes. cbn [evaluateConditions].
      clear. induction l as [|x l IH]; [reflexivity|]. cbn [List.filter]. now f_equal.
    - destruct (filterResources E (read st resources) (c :: cs)) as [kept|m] eqn:Ek;
        [|discriminate].
      assert (st1 = (st ++ [kept])%list /\ filtered = length st) as [-> ->]
        by (unfold alloc in Ef; split; congruence).
      rewrite Hr in Ek.
      apply filterResources_kept in Ek. subst kept. split.
      + now rewrite list_lookup_middle.
      + intros a x Ha. now apply lookup_app_l_Some. }
  destruct Hst1 as [Hf Hkeep].
  set (kept := List.filter (passes E (conditions r0)) l) in *.
  assert (Hkept : forall x, x ∈ kept -> x ∈ l /\ passes E (conditions r0) x = true).
  { intros x Hx. apply list_elem_of_In, filter_In in Hx as [Hx Hp].
    split; [now apply list_elem_of_In | exact Hp]. }
  destruct (rule_limits r0) as [lim|] eqn:Elim.
  - intros Hout.
    assert (st' = (applyLimits st1 filtered (Some lim)).1
            /\ out = (applyLimits st1 filtered (Some lim)).2) as [-> ->].
    { destruct (applyLimits st1 filtered (Some lim)). split; cbn; congruence. }
    destruct (applyLimits_selects st1 filtered (Some lim) kept Hf) as [Hsub Hpres].
    split; [|split; [|split]].
    + intros x Hx. apply Hkept, Hsub, Hx.
    + apply Hpres, Hkeep, Hl.
    + discriminate.
    + intros N o [= ->].
      rewrite applyLimits_most_recent by lia. cbn [fst snd].
      unfold read. rewrite app_assoc.
      replace (S (length st1))
        with (length (st1 ++ [array_sort by_created_desc (read st1 filtered)])%list)
        by (rewrite length_app; cbn; lia).
      rewrite list_lookup_middle by reflexivity. cbn [from_option id].
      rewrite length_take. change (Z.to_nat (Z.pos N)) with (Pos.to_nat N). lia.
  - intros Hout.
    assert (st' = st1 /\ out = filtered) as [-> ->] by (split; congruence).
    assert (Hread : read st1 filtered = kept) by (unfold read; now rewrite Hf).
    split; [|split; [|split]].
    + intros x Hx. rewrite Hread in Hx. now apply Hkept.
    + apply Hkeep, Hl.
    + intros _. exact Hread.
    + discriminate.
Qed.

Lemma processRule_selects_passing_witness :
  match processRule
          {| date_fns := sample_dateFns; now := 0;
             GroupMembers_show := fun _ _ => None;
             run_script := fun _ _ => Raised (JObject "TypeError");
             StringToNumber := fun _ => NaN;
             customFilters := ∅ |}
          [[created_at_ 10; created_at_ 30; created_at_ 20]] 0%nat
          {| name := "newest"; conditions := [labels_cond []];
             rule_limits := Some {| most_recent := Some 1; oldest := None |} |}
  with
  | Return (st', out) =>
      st' !! 0%nat = Some [created_at_ 10; created_at_ 30; created_at_ 20]
  | Throw _ => False
  end.
Proof.
  destruct (processRule _ _ _ _) as [[st' out]|m] eqn:Eq.
  - match type of Eq with
    | processRule ?E ?st ?k ?r0 = _ =>
        exact (proj1 (proj2 (processRule_selects_passing E st st' k out
                               [created_at_ 10; created_at_ 30; created_at_ 20] r0
                               eq_refl Eq)))
    end.
  - vm_compute in Eq. discriminate Eq.
Defined.

End MoreLimits.

Section Evaluators.
Import PolicyEngine.
Import PolicyEngineNotions.
Import PolicyEngineRulesNotions.

(** X12.  The two date comparisons are inclusive: with a timestamp that
    parses to [t] and [f] the date-fns function that measures the
    configured unit, [older_than] and [newer_than] with the same interval
    [n] both hold exactly when [f now t = n].  A timestamp that is an
    invalid date satisfies neither, whatever the unit; and what
    [parseISO] throws leaves [evaluateDateCondition], whatever the unit
    and the condition are. *)
Theorem date_condition_boundaries (F : dateFns) (now : Z) (r : resource)
        (attr unit_ : string) (n : Z) :
  truthy (prop r attr) = true ->
  (forall t f,
      parseISO F (prop r attr) = Return (Some t) ->
      In (unit_, f) (unit_differences F) ->
      (evaluateDateCondition F now r
         {| attribute := attr; condition := "older_than";
            interval_type := unit_; interval := n |} = Return true
       /\ evaluateDateCondition F now r
            {| attribute := attr; condition := "newer_than";
               interval_type := unit_; interval := n |} = Return true)
      <-> f now t = n)
  /\ (parseISO F (prop r attr) = Return None ->
      forall cond,
        evaluateDateCondition F now r
          {| attribute := attr; condition := cond;
             interval_type := unit_; interval := n |} = Return false)
  /\ (forall m,
        parseISO F (prop r attr) = Throw m ->
        forall cond,
          evaluateDateCondition F now r
            {| attribute := attr; condition := cond;
               interval_type := unit_; interval := n |} = Throw m).
Proof.
  intros Hpresent. split; [|split].
  - intros t f Hparse Hunit. unfold evaluateDateCondition.
    cbn [attribute condition interval_type interval].
    rewrite Hpresent, Hparse, (timeDifference_unit F unit_ f now t Hunit).
    cbn. split.
    + intros [[= H1] [= H2]]. lia.
    + intros <-. now rewrite !Z.leb_refl.
  - intros Hparse cond. unfold evaluateDateCondition.
    cbn [attribute condition interval_type interval].
    rewrite Hpresent, Hparse. cbn [negb].
    unfold timeDifference.
    repeat match goal with
           | |- context [String.eqb unit_ ?k] => destruct (String.eqb unit_ k)
           end;
      cbn [lift_difference num_ge num_le];
      destruct (String.eqb cond "older_than"), (String.eqb cond "newer_than");
      reflexivity.
  - intros m Hparse cond. unfold evaluateDateCondition.
    cbn [attribute]. now rewrite Hpresent, Hparse.
Qed.

Lemma date_condition_boundaries_witness :
  evaluateDateCondition sample_dateFns (6 * day_ms) sample_resource
    {| attribute := "updated_at"; condition := "older_than";
       interval_type := "days"; interval := 6 |} = Return true
  /\ evaluateDateCondition sample_dateFns (6 * day_ms) sample_resource
       {| attribute := "updated_at"; condition := "newer_than";
          interval_type := "days"; interval := 6 |} = Return true.
Proof.
  apply (proj1 (date_condition_boundaries sample_dateFns (6 * day_ms) sample_resource
                  "updated_at" "days" 6 eq_refl) 0 (differenceInDays sample_dateFns)
               eq_refl).
  - cbn. tauto.
  - reflexivity.
Defined.

(** X13.  Vote and discussion thresholds are strict and a missing (or
    zero, or null, or otherwise falsy) counter counts as 0, for both
    evaluators: with a counter [n], [less_than] is [n < threshold] and
    [greater_than] is [threshold < n], so a count equal to the threshold
    satisfies neither; with a falsy counter, [less_than] holds exactly
    for a positive threshold and [greater_than] exactly for a negative
    one; a counter that is a non-empty string is converted to a number
    before it is compared. *)
Theorem count_conditions_strict (E : engine) (r : resource) (attr : string) (t : Z) :
  let less := {| count_attribute := attr; count_condition := "less_than";
                 threshold := t |} in
  let greater := {| count_attribute := attr; count_condition := "greater_than";
                    threshold := t |} in
  (forall n, prop r attr = JNum n ->
     evaluateVotesCondition E r less = (n <? t)
     /\ evaluateVotesCondition E r greater = (t <? n)
     /\ evaluateDiscussionsCondition E r less = (n <? t)
     /\ evaluateDiscussionsCondition E r greater = (t <? n))
  /\ (truthy (prop r attr) = false ->
      evaluateVotesCondition E r less = (0 <? t)
      /\ evaluateVotesCondition E r greater = (t <? 0)
      /\ evaluateDiscussionsCondition E r less = (0 <? t)
      /\ evaluateDiscussionsCondition E r greater = (t <? 0))
  /\ (forall s, prop r attr = JStr s -> s <> "" ->
        evaluateVotesCondition E r less = num_lt (StringToNumber E s) t
        /\ evaluateVotesCondition E r greater = num_gt (StringToNumber E s) t
        /\ evaluateDiscussionsCondition E r less = num_lt (StringToNumber E s) t
        /\ evaluateDiscussionsCondition E r greater = num_gt (StringToNumber E s) t).
Proof.
  intros less greater. subst less greater. split; [|split].
  - intros n Hn.
    unfold evaluateVotesCondition, evaluateDiscussionsCondition, or_else.
    cbn [count_attribute count_condition threshold]. rewrite Hn. cbn [truthy].
    destruct (Z.eqb_spec n 0) as [->|Hne]; cbn; repeat split; reflexivity.
  - intros Hfalsy.
    unfold evaluateVotesCondition, evaluateDiscussionsCondition, or_else.
    cbn [count_attribute count_condition threshold]. rewrite Hfalsy.
    repeat split; reflexivity.
  - intros s Hs Hne.
    unfold evaluateVotesCondition, evaluateDiscussionsCondition, or_else.
    cbn [count_attribute count_condition threshold]. rewrite Hs. cbn [truthy].
    destruct (String.eqb_spec s "") as [|_]; [contradiction|].
    cbn. repeat split; reflexivity.
Qed.

Lemma count_conditions_strict_witness :
  evaluateDiscussionsCondition
    {| date_fns := sample_dateFns; now := 0;
       GroupMembers_show := fun _ _ => None;
       run_script := fun _ _ => Raised (JObject "TypeError");
       StringToNumber := fun _ => NaN;
       customFilters := ∅ |}
    sample_resource
    {| count_attribute := "user_notes_count"; count_condition := "less_than";
       threshold := 1 |}
  = (0 <? 1).
Proof.
  apply (proj1 (proj2 (count_conditions_strict
           {| date_fns := sample_dateFns; now := 0;
              GroupMembers_show := fun _ _ => None;
              run_script := fun _ _ => Raised (JObject "TypeError");
              StringToNumber := fun _ => NaN;
              customFilters := ∅ |}
           sample_resource "user_notes_count" 1))).
  reflexivity.
Defined.

Lemma includes_char_differs (c : ascii) (g s : string) :
  includes_char c g = true -> includes_char c s = false -> String.eqb s g = false.
Proof.
  intros Hg Hs. destruct (String.eqb_spec s g) as [->|]; [congruence | reflexivity].
Qed.

(** X14.  [forbidden_labels] compares its entries with the label names
    literally: it holds exactly when no entry is the name of a label of
    the resource.  A brace entry is therefore not expanded there: on a
    resource carrying one of its alternatives, but no label spelled like
    the entry itself, the entry is satisfied as a required label and as
    a forbidden label at once. *)
Theorem forbidden_labels_literal (r : resource) (forbiddenLabels : list string) :
  let labelNames := map label_name (default [] (labels r)) in
  (evaluateForbiddenLabelsCondition r forbiddenLabels = true
   <-> forall x, x ∈ forbiddenLabels -> ~ x ∈ labelNames)
  /\ (forall g, includes_char "{" g = true ->
                group_satisfied labelNames g = true ->
                ~ g ∈ labelNames ->
                evaluateLabelsCondition (labels r) [g] = true
                /\ evaluateForbiddenLabelsCondition r [g] = true).
Proof.
  intros labelNames. split.
  - unfold evaluateForbiddenLabelsCondition. fold labelNames.
    rewrite negb_true_iff. split.
    + intros H x Hx Hin.
      assert (Hex : existsb (fun label => includes label labelNames) forbiddenLabels = true).
      { apply existsb_exists. exists x.
        split; [now apply list_elem_of_In | now apply includes_elem_of]. }
      congruence.
    + intros H. destruct (existsb _ forbiddenLabels) eqn:E; [|reflexivity].
      apply existsb_exists in E as (x & Hx & Hin). exfalso.
      apply (H x); [now apply list_elem_of_In | now apply includes_elem_of].
  - intros g Hbrace Hsat Hnot. split.
    + rewrite evaluateLabelsCondition_groups_only.
      * cbn [List.filter]. rewrite Hbrace. cbn [forallb]. fold labelNames.
        now rewrite Hsat.
      * cbn [includes existsb]. now rewrite (includes_char_differs "{" g "None" Hbrace eq_refl).
      * cbn [includes existsb]. now rewrite (includes_char_differs "{" g "Any" Hbrace eq_refl).
      * cbn [List.filter]. now rewrite Hbrace.
    + unfold evaluateForbiddenLabelsCondition. fold labelNames. cbn [existsb].
      destruct (includes g labelNames) eqn:E; [|reflexivity].
      exfalso. now apply Hnot, includes_elem_of.
Qed.

Lemma forbidden_labels_literal_witness :
  evaluateLabelsCondition (labels (labelled ["type::bug"])) ["type::{bug,feature}"] = true
  /\ evaluateForbiddenLabelsCondition (labelled ["type::bug"]) ["type::{bug,feature}"] = true.
Proof.
  apply (proj2 (forbidden_labels_literal (labelled ["type::bug"]) [])
           "type::{bug,feature}" eq_refl eq_refl).
  intros H. apply includes_elem_of in H. discriminate.
Defined.

End Evaluators.

(* ===================================================================== *)
(** * Further properties of the command framework *)
(* ===================================================================== *)

Section Commands.
Import CommandFramework.
Import CommandFrameworkQueries.
Import CommandFrameworkNotions.
Import CommandFrameworkQueriesNotions.

Lemma labels_pattern_framework (bot : string) :
  exists fw, new bot "labels {{...labels}}" true = Return fw.
Proof. eexists. reflexivity. Qed.

Lemma split_ws_from_nonempty (b : bool) (acc s : string) : split_ws_from b acc s <> [].
Proof.
  revert b acc. induction s as [|c s IH]; intros b acc; cbn [split_ws_from];
    [discriminate|].
  destruct (is_space c); [destruct b; [apply IH | discriminate] | apply IH].
Qed.

Lemma split_ws_from_single (acc s x : string) :
  split_ws_from false acc s = [x] -> x = acc ++ s.
Proof.
  revert acc. induction s as [|c s IH]; intros acc; cbn [split_ws_from].
  - intros [= <-]. now rewrite string_app_nil_r.
  - destruct (is_space c).
    + intros [= _ H]. now apply split_ws_from_nonempty in H.
    + intros H. apply IH in H. now rewrite string_app_assoc in H.
Qed.

Lemma split_ws_blank (s : string) : split_ws s = [""] -> s = "".
Proof. intros H. apply split_ws_from_single in H. now subst. Qed.

(** X15.  A pattern made of white space only is accepted by the
    constructor, parses to no token at all, and then matches no input
    whatsoever; the empty pattern is refused with an error. *)
Theorem blank_pattern_never_matches (bot command : string) (p : bool) :
  (command <> "" -> trim command = "" ->
   exists fw, new bot command p = Return fw
              /\ tokens fw = []
              /\ forall input, match_ fw input = None)
  /\ new bot "" p = Throw "Invalid command provided: ".
Proof.
  split; [|reflexivity].
  intros Hne Hblank. unfold new, parseTokens.
  destruct (String.eqb_spec command ""); [contradiction|].
  rewrite Hblank. cbn [String.eqb]. eexists. split; [reflexivity|].
  split; [reflexivity|].
  intros input. unfold match_. cbn [tokens walk].
  destruct (String.eqb input ""); [reflexivity|].
  pose proof (split_ws_from_nonempty false "" (trim input)) as Hws.
  unfold split_ws. destruct (split_ws_from false "" (trim input)) as [|w ws];
    [contradiction|].
  destruct w as [|c w]; [destruct ws|]; reflexivity.
Qed.

Lemma blank_pattern_never_matches_witness :
  exists fw, new "triage-bot" "   " true = Return fw
             /\ match_ fw "labels ~bug" = None.
Proof.
  destruct (blank_pattern_never_matches "triage-bot" "   " true) as [H _].
  destruct H as (fw & Hnew & _ & Hnone); [discriminate | reflexivity |].
  exists fw. split; [exact Hnew | apply Hnone].
Defined.

Lemma startsWith_app (m rest : string) : startsWith m (m ++ rest) = true.
Proof.
  induction m as [|c m IH]; [reflexivity|].
  rewrite string_app_cons. cbn [startsWith]. now rewrite Ascii.eqb_refl.
Qed.

Lemma string_drop_app (m rest : string) : string_drop (String.length m) (m ++ rest) = rest.
Proof.
  induction m as [|c m IH]; [now destruct rest|].
  rewrite string_app_cons. exact IH.
Qed.

(** X16.  The constructor stores [prefix = true] whatever it is passed,
    so [handleInput] always requires the bot mention: a message that does
    not start with [@bot_username] gives null, and a message that does is
    matched on the trimmed text after the mention. *)
Theorem handleInput_requires_mention (bot command : string) (p : bool) (fw : framework) :
  new bot command p = Return fw ->
  new bot command false = Return fw
  /\ prefix fw = true
  /\ (forall message, startsWith ("@" ++ bot) message = false ->
                      handleInput fw message = None)
  /\ (forall rest, handleInput fw ("@" ++ bot ++ rest) = match_ fw (trim rest)).
Proof.
  unfold new. destruct (parseTokens command) as [ts|m]; [|discriminate].
  intros [= <-]. split; [reflexivity|]. split; [reflexivity|]. split.
  - intros message Hm. unfold handleInput. cbn [prefix bot_username].
    rewrite Hm. now destruct (String.eqb message "").
  - intros rest. unfold handleInput. cbn [prefix bot_username].
    change ("@" ++ bot ++ rest) with (("@" ++ bot) ++ rest).
    rewrite startsWith_app, string_drop_app. reflexivity.
Qed.

Lemma handleInput_requires_mention_witness :
  exists fw, new "triage-bot" "labels {{...labels}}" false = Return fw
             /\ handleInput fw "labels ~bug" = None.
Proof.
  destruct (labels_pattern_framework "triage-bot") as (fw & Hfw).
  destruct (handleInput_requires_mention "triage-bot" "labels {{...labels}}" true fw Hfw)
    as (Hfalse & _ & Hnone & _).
  exists fw. split; [exact Hfalse | apply Hnone; reflexivity].
Defined.

Lemma consume_all (p : string -> bool) (f : string -> string) (ws : list string) :
  forallb p ws = true -> consume p f ws = (map f ws, length ws).
Proof.
  induction ws as [|w ws IH]; [reflexivity|]. cbn [forallb consume map length].
  intros H. apply andb_prop in H as [Hw Hws]. now rewrite Hw, IH.
Qed.

Lemma consume_short (p : string -> bool) (f : string -> string) (ws : list string) :
  forallb p ws = false -> ((consume p f ws).2 < length ws)%nat.
Proof.
  induction ws as [|w ws IH]; [discriminate|]. cbn [forallb consume length].
  destruct (p w); cbn [andb].
  - intros H. specialize (IH H). destruct (consume p f ws). cbn in *. lia.
  - intros _. cbn. lia.
Qed.

Lemma walk_literal_head (value : string) (p : nat) (later : list token)
      (w : string) (ws : list string) (vs : vars) :
  walk (literal value p :: later) (w :: ws) 0 vs
  = if negb (String.eqb w value) then None else walk later (w :: ws) 1 vs.
Proof. reflexivity. Qed.

Lemma walk_labels (p : nat) (later : list token) (ws : list string) (i : nat) (vs : vars) :
  walk (variable "labels" p :: later) ws i vs
  = let '(vals, n) := consume (startsWith "~") slice1 (skipn i ws) in
    walk later ws (i + n) (assign "labels" vals vs).
Proof. reflexivity. Qed.

(** X17.  A pattern made of one literal word followed by the variable
    [labels] matches exactly the inputs whose first word is that literal
    and whose other words all start with the marker; the capture is then
    the list of those words, in input order, each without its marker. *)
Theorem literal_then_labels (fw : framework) (c : string) (i j : nat)
        (input w : string) (ws : list string) :
  tokens fw = [literal c i; variable "labels" j] ->
  c <> "" ->
  input <> "" ->
  split_ws (trim input) = w :: ws ->
  match_ fw input
  = if String.eqb w c && forallb (startsWith "~") ws
    then Some (matched_with [("labels", map slice1 ws)])
    else None.
Proof.
  intros Htok Hc Hinput Hws. unfold match_.
  destruct (String.eqb_spec input ""); [contradiction|].
  rewrite Hws, Htok.
  assert (Hwalk : match walk [literal c i; variable "labels" j] (w :: ws) 0 [] with
                  | Some (k, vs) =>
                      if negb (Nat.eqb k (length (w :: ws))) then None
                      else Some {| matched := true; variables := vs |}
                  | None => None
                  end
                  = if String.eqb w c && forallb (startsWith "~") ws
                    then Some (matched_with [("labels", map slice1 ws)])
                    else None).
  { rewrite walk_literal_head.
    destruct (String.eqb_spec w c) as [->|Hne]; cbn [negb andb]; [|reflexivity].
    rewrite walk_labels. change (skipn 1 (c :: ws)) with ws.
    destruct (forallb (startsWith "~") ws) eqn:Hall.
    - rewrite consume_all by exact Hall. cbn [walk assign length Nat.add].
      now rewrite Nat.eqb_refl.
    - pose proof (consume_short (startsWith "~") slice1 ws Hall) as Hlt.
      destruct (consume (startsWith "~") slice1 ws) as [vals k]. cbn [snd] in Hlt.
      cbn [walk length Nat.add].
      destruct (Nat.eqb_spec (S k) (S (length ws))); [lia | reflexivity]. }
  destruct w as [|a w]; [|exact Hwalk].
  destruct ws as [|w' ws]; [|exact Hwalk].
  destruct (String.eqb_spec "" c) as [<-|_]; [contradiction | reflexivity].
Qed.

Lemma literal_then_labels_witness :
  exists fw, new "triage-bot" "labels {{...labels}}" true = Return fw
             /\ match_ fw " labels  ~bug ~p::high " =
                Some (matched_with [("labels", ["bug"; "p::high"])]).
Proof.
  destruct (labels_pattern_framework "triage-bot") as (fw & Hfw).
  exists fw. split; [exact Hfw|].
  assert (Htok : tokens fw = [literal "labels" 0; variable "labels" 1]).
  { unfold new in Hfw. cbn in Hfw. now injection Hfw as <-. }
  exact (literal_then_labels fw "labels" 0%nat 1%nat " labels  ~bug ~p::high " "labels"
           ["~bug"; "~p::high"] Htok ltac:(discriminate) ltac:(discriminate) eq_refl).
Defined.

Lemma walk_literals (ts : list token) (ws : list string) (i : nat) (vs : vars) :
  forallb is_literal ts = true ->
  walk ts ws i vs
  = if bool_decide (take (length ts) (drop i ws) = map token_text ts)
    then Some ((i + length ts)%nat, vs) else None.
Proof.
  revert i. induction ts as [|t ts IH]; intros i Hlit.
  - cbn [walk length map]. rewrite take_0, Nat.add_0_r.
    now rewrite bool_decide_eq_true_2.
  - destruct t as [v p|name p]; [|discriminate]. cbn [forallb is_literal andb] in Hlit.
    cbn [walk length map token_text].
    destruct (ws !! i) as [w|] eqn:Hw.
    + rewrite (drop_S _ _ _ Hw). cbn [take].
      destruct (String.eqb_spec w v) as [->|Hne]; cbn [negb].
      * rewrite IH by exact Hlit. rewrite Nat.add_succ_r.
        destruct (decide (take (length ts) (drop (S i) ws) = map token_text ts)) as [E|E].
        -- rewrite !bool_decide_eq_true_2; [reflexivity | now rewrite E | exact E].
        -- rewrite !bool_decide_eq_false_2; [reflexivity | congruence | exact E].
      * rewrite bool_decide_eq_false_2; [reflexivity | congruence].
    + rewrite drop_ge by (now apply lookup_ge_None).
      rewrite bool_decide_eq_false_2; [reflexivity | now rewrite take_nil].
Qed.

(** X18.  A simple command (all tokens literal, [isSimpleCommand]) matches
    an input exactly when the words of the input are the words of the
    pattern, no more and no fewer; the result then carries no variable. *)
Theorem simple_command_exact (fw : framework) (input : string) :
  isSimpleCommand fw = true ->
  trim input <> "" ->
  match_ fw input
  = if bool_decide (split_ws (trim input) = map token_text (getTokens fw))
    then Some (matched_with []) else None.
Proof.
  intros Hsimple Htrim. unfold match_, getTokens.
  destruct (String.eqb_spec input "") as [->|_]; [now contradiction Htrim|].
  cbv zeta. set (ws := split_ws (trim input)).
  assert (Hblank : ws <> [""]) by (intros H; now apply split_ws_blank in H).
  assert (Hwalk : match walk (tokens fw) ws 0 [] with
                  | Some (k, vs) =>
                      if negb (Nat.eqb k (length ws)) then None
                      else Some {| matched := true; variables := vs |}
                  | None => None
                  end
                  = if bool_decide (ws = map token_text (tokens fw))
                    then Some (matched_with []) else None).
  { rewrite walk_literals by exact Hsimple. rewrite drop_0. cbn [Nat.add].
    destruct (decide (ws = map token_text (tokens fw))) as [E|E].
    - rewrite (bool_decide_eq_true_2 _ E).
      assert (Hlen : length (tokens fw) = length ws)
        by (now rewrite E, length_map).
      rewrite bool_decide_eq_true_2 by (now rewrite Hlen, firstn_all).
      now rewrite Hlen, Nat.eqb_refl.
    - rewrite (bool_decide_eq_false_2 _ E). case_bool_decide as Ht; [|reflexivity].
      destruct (Nat.eqb_spec (length (tokens fw)) (length ws)) as [Hlen|_];
        [|reflexivity].
      exfalso. apply E. now rewrite <- Ht, Hlen, firstn_all. }
  destruct ws as [|w ws']; [exact Hwalk|].
  destruct w as [|a w]; [|exact Hwalk].
  destruct ws' as [|w' ws']; [contradiction | exact Hwalk].
Qed.

Lemma simple_command_exact_witness :
  exists fw, new "triage-bot" "close now" true = Return fw
             /\ match_ fw "close  now " = Some (matched_with [])
             /\ match_ fw "close now please" = None.
Proof.
  pose (fw := {| bot_username := "triage-bot"; command := "close now"; prefix := true;
                 tokens := [literal "close" 0%nat; literal "now" 1%nat] |}).
  exists fw. split; [reflexivity|]. split.
  - exact (simple_command_exact fw "close  now " eq_refl ltac:(discriminate)).
  - exact (simple_command_exact fw "close now please" eq_refl ltac:(discriminate)).
Defined.

(** ** Printing a pattern and parsing it again *)

Lemma trimEnd_tail (c : ascii) (s : string) :
  trimEnd (String c s) = String c s -> trimEnd s = s.
Proof.
  cbn [trimEnd]. destruct (trimEnd s) as [|d t] eqn:E.
  - destruct (is_space c); [discriminate|]. now intros [= <-].
  - now intros [= <-].
Qed.

Lemma trimEnd_idem (s : string) : trimEnd (trimEnd s) = trimEnd s.
Proof.
  induction s as [|c s IH]; [reflexivity|]. cbn [trimEnd].
  destruct (trimEnd s) as [|d t] eqn:E.
  - destruct (is_space c) eqn:Hc; [reflexivity|]. cbn [trimEnd]. now rewrite Hc.
  - change (trimEnd (String c (String d t))) with
      (match trimEnd (String d t) with
       | EmptyString => if is_space c then EmptyString else String c EmptyString
       | u => String c u
       end).
    now rewrite IH.
Qed.

Lemma trimStart_head (s : string) : clean_head (trimStart s).
Proof.
  induction s as [|c s IH]; [exact I|]. cbn [trimStart].
  destruct (is_space c) eqn:Hc; [exact IH | exact Hc].
Qed.

Lemma trimEnd_head (s : string) : clean_head s -> clean_head (trimEnd s).
Proof.
  destruct s as [|c s]; [trivial|]. cbn [clean_head trimEnd]. intros Hc.
  destruct (trimEnd s); [now rewrite Hc | exact Hc].
Qed.

Lemma trim_clean (s : string) : trimEnd (trim s) = trim s /\ clean_head (trim s).
Proof.
  unfold trim. split; [apply trimEnd_idem | apply trimEnd_head, trimStart_head].
Qed.

Lemma no_space_app (a b : string) :
  no_space (a ++ b) = no_space a && no_space b.
Proof.
  induction a as [|c a IH]; [reflexivity|]. rewrite string_app_cons.
  unfold no_space in *. cbn [PolicyEngineRulesNotions.every_char].
  now rewrite IH, andb_assoc.
Qed.

Lemma app_not_empty_r (a b : string) : b <> "" -> a ++ b <> "".
Proof. intros Hb. destruct a; [exact Hb | rewrite string_app_cons; discriminate]. Qed.

Lemma app_not_empty_l (a b : string) : a <> "" -> a ++ b <> "".
Proof. intros Ha. destruct a; [contradiction | rewrite string_app_cons; discriminate]. Qed.

(** The words of a trimmed text are proper words. *)
Lemma split_ws_from_words (s : string) (b : bool) (acc : string) :
  trimEnd s = s ->
  no_space acc = true ->
  acc <> "" \/ s <> "" ->
  (b = false -> acc = "" -> clean_head s) ->
  Forall word_like (split_ws_from b acc s).
Proof.
  revert b acc. induction s as [|c s IH]; intros b acc Hend Hacc Hne Hhead.
  - cbn [split_ws_from]. constructor; [|constructor].
    split; [|exact Hacc]. destruct Hne as [H|H]; [exact H | contradiction].
  - pose proof (trimEnd_tail c s Hend) as Hend'.
    cbn [split_ws_from]. destruct (is_space c) eqn:Hc.
    + assert (Hs : s <> "").
      { intros ->. cbn in Hend. rewrite Hc in Hend. discriminate. }
      assert (Hrest : Forall word_like (split_ws_from true "" s))
        by (apply IH; [exact Hend' | reflexivity | now right | discriminate]).
      destruct b; [exact Hrest|]. constructor; [|exact Hrest].
      split; [|exact Hacc]. intros ->. specialize (Hhead eq_refl eq_refl).
      cbn in Hhead. congruence.
    + apply IH; [exact Hend' | | left | ].
      * rewrite no_space_app, Hacc. unfold no_space. cbn. now rewrite Hc.
      * apply app_not_empty_r. discriminate.
      * intros _ H. exfalso. revert H. apply app_not_empty_r. discriminate.
Qed.

Lemma split_ws_trim_words (s : string) :
  trim s <> "" -> Forall word_like (split_ws (trim s)).
Proof.
  intros Hne. destruct (trim_clean s) as [Hend Hhead].
  apply split_ws_from_words; [exact Hend | reflexivity | now right | now intros _ _].
Qed.

Lemma trimEnd_no_space (w : string) : no_space w = true -> trimEnd w = w.
Proof.
  induction w as [|c w IH]; [reflexivity|]. unfold no_space in *.
  cbn [PolicyEngineRulesNotions.every_char trimEnd]. intros H.
  apply andb_prop in H as [Hc Hw]. apply negb_true_iff in Hc.
  rewrite (IH Hw). destruct w; [now rewrite Hc | reflexivity].
Qed.

Lemma trimEnd_app_clean (a w : string) :
  w <> "" -> trimEnd w = w -> trimEnd (a ++ w) = a ++ w.
Proof.
  intros Hne Hw. induction a as [|c a IH]; [exact Hw|].
  rewrite string_app_cons. cbn [trimEnd]. rewrite IH.
  pose proof (app_not_empty_r a w Hne) as Hn.
  now destruct (a ++ w).
Qed.

Lemma join_cons2 (sep x y : string) (rest : list string) :
  join sep (x :: y :: rest) = x ++ sep ++ join sep (y :: rest).
Proof. reflexivity. Qed.

Lemma join_words (w : string) (rest : list string) :
  Forall word_like (w :: rest) ->
  join " " (w :: rest) <> ""
  /\ clean_head (join " " (w :: rest))
  /\ trimEnd (join " " (w :: rest)) = join " " (w :: rest).
Proof.
  revert w. induction rest as [|y rest IH]; intros w Hall.
  - apply Forall_cons in Hall as [[Hne Hns] _]. cbn [join].
    split; [exact Hne|]. split; [|now apply trimEnd_no_space].
    destruct w as [|c w]; [contradiction|]. unfold no_space in Hns. cbn in Hns.
    apply andb_prop in Hns as [Hc _]. now apply negb_true_iff in Hc.
  - apply Forall_cons in Hall as [[Hne Hns] Hrest].
    destruct (IH y Hrest) as (Hj & _ & Hend). rewrite join_cons2.
    split; [now apply app_not_empty_l|]. split.
    + destruct w as [|c w]; [contradiction|]. rewrite string_app_cons.
      unfold no_space in Hns. cbn in Hns.
      apply andb_prop in Hns as [Hc _]. now apply negb_true_iff in Hc.
    + apply trimEnd_app_clean.
      * now apply app_not_empty_r.
      * change (" " ++ join " " (y :: rest)) with (String " " (join " " (y :: rest))).
        cbn [trimEnd]. rewrite Hend. now destruct (join " " (y :: rest)).
Qed.

Lemma trimStart_clean (s : string) : clean_head s -> trimStart s = s.
Proof. destruct s as [|c s]; [reflexivity|]. cbn. now intros ->. Qed.

Lemma split_ws_from_word (w acc s : string) :
  no_space w = true ->
  split_ws_from false acc (w ++ s) = split_ws_from false (acc ++ w) s.
Proof.
  revert acc. induction w as [|c w IH]; intros acc H.
  - now rewrite string_app_nil_r.
  - unfold no_space in H. cbn in H. apply andb_prop in H as [Hc Hw].
    apply negb_true_iff in Hc. rewrite string_app_cons. cbn [split_ws_from].
    rewrite Hc, (IH _ Hw), string_app_assoc. reflexivity.
Qed.

Lemma split_ws_from_run (acc s : string) :
  s <> "" -> clean_head s -> split_ws_from true acc s = split_ws_from false acc s.
Proof.
  destruct s as [|c s]; [contradiction|]. cbn [clean_head split_ws_from].
  now intros _ ->.
Qed.

Lemma split_ws_join (w : string) (rest : list string) (acc : string) :
  Forall word_like (w :: rest) ->
  split_ws_from false acc (join " " (w :: rest)) = (acc ++ w) :: rest.
Proof.
  revert w acc. induction rest as [|y rest IH]; intros w acc Hall.
  - apply Forall_cons in Hall as [[_ Hns] _]. cbn [join].
    rewrite <- (string_app_nil_r w) at 1. now rewrite split_ws_from_word.
  - apply Forall_cons in Hall as [[_ Hns] Hrest]. rewrite join_cons2.
    rewrite split_ws_from_word by exact Hns.
    change (" " ++ join " " (y :: rest)) with (String " " (join " " (y :: rest))).
    cbn [split_ws_from]. change (is_space " ") with true. cbv iota.
    destruct (join_words y rest Hrest) as (Hj & Hh & _).
    rewrite split_ws_from_run by assumption. now rewrite IH.
Qed.

Lemma split_ws_trim_join (ws : list string) :
  ws <> [] -> Forall word_like ws ->
  join " " ws <> "" /\ split_ws (trim (join " " ws)) = ws.
Proof.
  destruct ws as [|w rest]; [contradiction|]. intros _ Hall.
  destruct (join_words w rest Hall) as (Hj & Hh & Hend).
  split; [exact Hj|]. unfold trim. rewrite (trimStart_clean _ Hh), Hend.
  unfold split_ws. now rewrite split_ws_join.
Qed.

Lemma word_char_not_space (c : ascii) : is_word_char c = true -> is_space c = false.
Proof. destruct c as [[] [] [] [] [] [] [] []]; cbv; congruence. Qed.

Lemma word_run_spec (s name rest : string) :
  word_run s = (name, rest) ->
  PolicyEngineRulesNotions.every_char is_word_char name = true.
Proof.
  revert name rest. induction s as [|c s IH]; intros name rest; cbn [word_run].
  - now intros [= <- _].
  - destruct (is_word_char c) eqn:Hc; [|now intros [= <- _]].
    destruct (word_run s) as [run r]. intros [= <- _]. cbn. rewrite Hc.
    now apply (IH run r).
Qed.

Lemma word_run_app (name : string) :
  PolicyEngineRulesNotions.every_char is_word_char name = true ->
  word_run (name ++ "}}") = (name, "}}").
Proof.
  induction name as [|c name IH]; [reflexivity|]. cbn. intros H.
  apply andb_prop in H as [Hc Hn]. rewrite string_app_cons. cbn [word_run].
  now rewrite Hc, (IH Hn).
Qed.

Lemma variable_here_name (s name : string) :
  variable_here s = Some name ->
  name <> "" /\ PolicyEngineRulesNotions.every_char is_word_char name = true.
Proof.
  unfold variable_here. destruct (startsWith "{{..." s); [|discriminate].
  destruct (word_run (string_drop 5 s)) as [run rest] eqn:E.
  destruct (String.eqb_spec run ""); [discriminate|].
  destruct (startsWith "}}" rest); [|discriminate]. intros [= <-].
  split; [assumption | now apply word_run_spec in E].
Qed.

Lemma variableMatch_name (w name : string) :
  variableMatch w = Some name ->
  name <> "" /\ PolicyEngineRulesNotions.every_char is_word_char name = true.
Proof.
  induction w as [|c w IH]; cbn [variableMatch].
  - destruct (variable_here "") eqn:E; [|discriminate].
    intros [= <-]. now apply variable_here_name in E.
  - destruct (variable_here (String c w)) eqn:E.
    + intros [= <-]. now apply variable_here_name in E.
    + exact IH.
Qed.

Lemma variableMatch_printed (name : string) :
  name <> "" ->
  PolicyEngineRulesNotions.every_char is_word_char name = true ->
  variableMatch ("{{..." ++ name ++ "}}") = Some name.
Proof.
  intros Hne Hname.
  assert (Hhere : variable_here ("{{..." ++ name ++ "}}") = Some name).
  { unfold variable_here.
    change ("{{..." ++ name ++ "}}")
      with (String "{" (String "{" (String "." (String "." (String "."
              (name ++ "}}")))))).
    cbn [startsWith Ascii.eqb Bool.eqb andb string_drop].
    rewrite (word_run_app name Hname).
    destruct (String.eqb_spec name ""); [contradiction | reflexivity]. }
  change ("{{..." ++ name ++ "}}")
    with (String "{" (String "{" (String "." (String "." (String "."
            (name ++ "}}")))))) in *.
  cbn [variableMatch]. now rewrite Hhere.
Qed.

Lemma printed_variable_word_like (name : string) :
  PolicyEngineRulesNotions.every_char is_word_char name = true ->
  word_like ("{{..." ++ name ++ "}}").
Proof.
  intros Hname. split; [discriminate|].
  change ("{{..." ++ name ++ "}}") with ("{{..." ++ (name ++ "}}")).
  rewrite !no_space_app. cbn [andb].
  change (no_space "{{...") with true. change (no_space "}}") with true.
  rewrite andb_true_r. cbn [andb].
  induction name as [|c name IH]; [reflexivity|]. cbn in Hname.
  apply andb_prop in Hname as [Hc Hn]. unfold no_space in *. cbn.
  now rewrite (word_char_not_space c Hc), (IH Hn).
Qed.

Lemma tokens_of_printed (words : list string) (i : nat) :
  Forall word_like words ->
  Forall word_like (map token_text (tokens_of words i))
  /\ tokens_of (map token_text (tokens_of words i)) i = tokens_of words i.
Proof.
  revert i. induction words as [|w words IH]; intros i Hall; [now split|].
  apply Forall_cons in Hall as [Hw Hrest]. destruct (IH (S i) Hrest) as [IH1 IH2].
  cbn [tokens_of]. destruct (variableMatch w) as [name|] eqn:E.
  - destruct (variableMatch_name w name E) as [Hne Hname].
    cbn [map token_text tokens_of].
    rewrite (variableMatch_printed name Hne Hname), IH2.
    split; [|reflexivity]. constructor; [now apply printed_variable_word_like | exact IH1].
  - cbn [map token_text tokens_of]. rewrite E, IH2.
    split; [|reflexivity]. now constructor.
Qed.

(** X19.  Printing a parsed pattern with [getPattern] and parsing the
    result gives the same tokens again, names, kinds and positions; the
    one exception is a blank pattern, whose printed form is the empty
    text, which the parser refuses. *)
Theorem getPattern_parses_back (bot command : string) (p : bool) (fw : framework) :
  new bot command p = Return fw ->
  (trim command <> "" -> parseTokens (getPattern fw) = Return (getTokens fw))
  /\ (trim command = "" ->
      parseTokens (getPattern fw) = Throw "Invalid command provided: ").
Proof.
  unfold new, parseTokens at 1.
  destruct (String.eqb_spec command "") as [|_]; [discriminate|].
  destruct (String.eqb_spec (trim command) "") as [Hblank|Hne].
  - intros [= <-]. split; [contradiction | reflexivity].
  - intros [= <-]. split; [intros _ | contradiction].
    unfold getPattern, getTokens. cbn [tokens].
    pose proof (split_ws_trim_words command Hne) as Hwords.
    assert (Hsome : split_ws (trim command) <> []) by apply split_ws_from_nonempty.
    destruct (tokens_of_printed (split_ws (trim command)) 0 Hwords) as [Hlike Hsame].
    fold (token_text).
    change (map (fun token => match token with
                              | literal value _ => value
                              | variable name _ => "{{..." ++ name ++ "}}"
                              end))
      with (map token_text).
    assert (Htexts : map token_text (tokens_of (split_ws (trim command)) 0) <> []).
    { destruct (split_ws (trim command)) as [|w ws]; [contradiction|].
      cbn [tokens_of]. now destruct (variableMatch w). }
    destruct (split_ws_trim_join _ Htexts Hlike) as [Hj Hsplit].
    unfold parseTokens.
    destruct (String.eqb_spec (join " " (map token_text
                 (tokens_of (split_ws (trim command)) 0))) ""); [contradiction|].
    rewrite Hsplit.
    destruct (String.eqb_spec (trim (join " " (map token_text
                 (tokens_of (split_ws (trim command)) 0)))) "") as [E|_].
    + exfalso. rewrite E in Hsplit. cbn in Hsplit. rewrite <- Hsplit in Hlike.
      apply Forall_cons in Hlike as [[H _] _]. now apply H.
    + now rewrite Hsame.
Qed.

Lemma getPattern_parses_back_witness :
  exists fw, new "triage-bot" "  add  x{{...labels}}y to {{...who}} " true = Return fw
             /\ getPattern fw = "add {{...labels}} to {{...who}}"
             /\ parseTokens (getPattern fw) = Return (getTokens fw).
Proof.
  pose (fw := {| bot_username := "triage-bot";
                 command := "  add  x{{...labels}}y to {{...who}} "; prefix := true;
                 tokens := [literal "add" 0%nat; variable "labels" 1%nat;
                            literal "to" 2%nat; variable "who" 3%nat] |}).
  exists fw. split; [reflexivity|]. split; [reflexivity|].
  exact (proj1 (getPattern_parses_back "triage-bot"
                  "  add  x{{...labels}}y to {{...who}} " true fw eq_refl)
               ltac:(discriminate)).
Defined.

End Commands.

(* ===================================================================== *)
(** * Properties of the webhook actions *)
(* ===================================================================== *)

Section Hooks.
Import CommandFramework.
Import ActionExecutor.
Import ActionExecutorNotions.
Import HookManager.
Import HookManagerNotions.

Lemma hook_step_returns (this : executor) (h : hook) (m : option matchResult)
      (ty : string) (action : hookAction) (s : store) :
  (hook_step this h m ty action s).1 = Return tt.
Proof.
  destruct action; cbn [hook_step]; try reflexivity;
    match goal with |- context [if ?c then _ else _] => destruct c end; reflexivity.
Qed.

Lemma hook_loop_fold (this : executor) (h : hook) (m : option matchResult)
      (ty : string) (todo : list hookAction) (s : store) :
  hook_loop this h m ty todo s
  = (Return tt, fold_left (fun s action => (hook_step this h m ty action s).2) todo s).
Proof.
  revert s. induction todo as [|action later IH]; intros s; [reflexivity|].
  cbn [hook_loop fold_left]. unfold bind.
  pose proof (hook_step_returns this h m ty action s) as Hret.
  destruct (hook_step this h m ty action s) as [[[]|msg] s1]; [|discriminate].
  apply IH.
Qed.

Lemma attempt_store {A} (m : M A) (s : store) : (attempt m s).2 = (m s).2.
Proof. reflexivity. Qed.

Lemma hook_step_labels (this : executor) (h : hook) (m : option matchResult)
      (ty : string) (action : hookAction) (s : store) (old : list string) :
  labels_at s (hook_resource h) = Some old ->
  labels_at (hook_step this h m ty action s).2 (hook_resource h)
  = Some (hook_label_effect m old action).
Proof.
  intros Hold.
  destruct action; cbn [hook_step hook_label_effect].
  - destruct (labels_at_resource _ _ _ Hold) as (r & Hr & Hl).
    rewrite attempt_store. now apply addLabels_local with (r := r).
  - destruct (labels_at_resource _ _ _ Hold) as (r & Hr & Hl).
    rewrite attempt_store. now apply removeLabels_local with (r := r).
  - rewrite attempt_store. apply frames_labels_at; [apply frames_changeStatus | exact Hold].
  - rewrite attempt_store. apply frames_labels_at; [apply frames_assignResource | exact Hold].
  - destruct (String.eqb ty "merge_request"); [|exact Hold].
    rewrite attempt_store. apply frames_labels_at; [apply frames_assignReviewer | exact Hold].
  - destruct (String.eqb ty "merge_request"); [|exact Hold].
    rewrite attempt_store. apply frames_labels_at; [apply frames_mergeMergeRequest | exact Hold].
  - rewrite attempt_store. apply frames_labels_at; [apply frames_mentionUsers | exact Hold].
  - rewrite attempt_store. apply frames_labels_at; [|exact Hold].
    destruct (hook_name h); [apply frames_addComment | apply frames_throw].
  - destruct (String.eqb ty "issue"); [|exact Hold].
    rewrite attempt_store. apply frames_labels_at; [apply frames_moveResource | exact Hold].
  - exact Hold.
Qed.

Ltac calls_once :=
  unfold bind, get_resource, put_resource, getApiClient, getNotesApiClient, request;
  repeat match goal with
         | H : heap ?s !! ?l = Some _ |- context [heap ?s !! ?l] => rewrite H
         | H : labels ?r = Some _ |- context [labels ?r] => rewrite H
         | |- context [String.eqb ?a ?b] =>
             let v := eval vm_compute in (String.eqb a b) in
             lazymatch v with
             | true => change (String.eqb a b) with true
             | false => change (String.eqb a b) with false
             | _ => destruct (String.eqb a b)
             end
         | |- context [cancel ?o] => destruct (cancel o)
         | |- context [gitlab ?this ?h ?c] => destruct (gitlab this h c)
         | _ => progress cbn [negb ret throw fst snd heap log orb andb]
         end;
  eexists; reflexivity.

Lemma supported_cases (ty : string) :
  supported ty = true -> ty = "issue" \/ ty = "merge_request".
Proof.
  unfold supported. destruct (String.eqb_spec ty "issue"); [now left|].
  destruct (String.eqb_spec ty "merge_request"); [now right | discriminate].
Qed.

Lemma mergeMergeRequest_calls this l o s r :
  heap s !! l = Some r ->
  exists c, log (mergeMergeRequest this l o false s).2 = (log s ++ [remote c])%list.
Proof. intros Hl. unfold mergeMergeRequest. calls_once. Qed.

Lemma addLabels_calls this l ls ty s r old :
  supported ty = true -> heap s !! l = Some r -> labels r = Some old ->
  exists c, log (addLabels this l ls ty false s).2 = (log s ++ [remote c])%list.
Proof.
  intros Hty Hl Hr. unfold addLabels.
  destruct (supported_cases ty Hty) as [-> | ->]; calls_once.
Qed.

Lemma removeLabels_calls this l ls ty s r old :
  supported ty = true -> heap s !! l = Some r -> labels r = Some old ->
  exists c, log (removeLabels this l ls ty false s).2 = (log s ++ [remote c])%list.
Proof.
  intros Hty Hl Hr. unfold removeLabels.
  destruct (supported_cases ty Hty) as [-> | ->]; calls_once.
Qed.

Lemma changeStatus_calls this l st ty s r :
  supported ty = true -> heap s !! l = Some r ->
  exists c, log (changeStatus this l st ty false s).2 = (log s ++ [remote c])%list.
Proof.
  intros Hty Hl. unfold changeStatus, mergeMergeRequest.
  destruct (supported_cases ty Hty) as [-> | ->]; calls_once.
Qed.

Lemma assignResource_calls this l i ty s r :
  supported ty = true -> heap s !! l = Some r ->
  exists c, log (assignResource this l i ty false s).2 = (log s ++ [remote c])%list.
Proof.
  intros Hty Hl. unfold assignResource.
  destruct (supported_cases ty Hty) as [-> | ->]; calls_once.
Qed.

Lemma assignReviewer_calls this l ids s r :
  heap s !! l = Some r ->
  exists c, log (assignReviewer this l ids false s).2 = (log s ++ [remote c])%list.
Proof. intros Hl. unfold assignReviewer. calls_once. Qed.

Lemma mentionUsers_calls this l users ty s r :
  supported ty = true -> heap s !! l = Some r ->
  exists c, log (mentionUsers this l users ty false s).2 = (log s ++ [remote c])%list.
Proof.
  intros Hty Hl. unfold mentionUsers.
  destruct (supported_cases ty Hty) as [-> | ->]; calls_once.
Qed.

Lemma addComment_calls this l a ty s r :
  supported ty = true -> heap s !! l = Some r ->
  exists c, log (addComment this l a ty false s).2 = (log s ++ [remote c])%list.
Proof.
  intros Hty Hl. unfold addComment.
  destruct (supported_cases ty Hty) as [-> | ->]; calls_once.
Qed.

Lemma moveResource_calls this l target s r :
  heap s !! l = Some r ->
  exists c, log (moveResource this l target false s).2 = (log s ++ [remote c])%list.
Proof. intros Hl. unfold moveResource. calls_once. Qed.

Lemma one_more_call (before after : list event) (c : call) :
  after = (before ++ [remote c])%list ->
  length (remote_calls after) = (length (remote_calls before) + 1)%nat.
Proof. intros ->. now rewrite remote_calls_app, length_app. Qed.

Lemma hook_step_calls (this : executor) (h : hook) (m : option matchResult)
      (ty : string) (action : hookAction) (s : store) (old : list string) :
  supported ty = true ->
  labels_at s (hook_resource h) = Some old ->
  length (remote_calls (log (hook_step this h m ty action s).2))
  = (length (remote_calls (log s))
     + if reaches_remote h ty action then 1 else 0)%nat.
Proof.
  intros Hty Hold. destruct (labels_at_resource _ _ _ Hold) as (r & Hl & Hr).
  destruct action; cbn [hook_step reaches_remote]; rewrite ?attempt_store.
  - destruct (addLabels_calls this _ (hookLabels configured m) ty s r old Hty Hl Hr)
      as [c Hc]. exact (one_more_call _ _ c Hc).
  - destruct (removeLabels_calls this _ (hookLabels configured m) ty s r old Hty Hl Hr)
      as [c Hc]. exact (one_more_call _ _ c Hc).
  - destruct (changeStatus_calls this _ s0 ty s r Hty Hl) as [c Hc].
    exact (one_more_call _ _ c Hc).
  - destruct (assignResource_calls this _ assigneeId ty s r Hty Hl) as [c Hc].
    exact (one_more_call _ _ c Hc).
  - destruct (String.eqb ty "merge_request"); [|cbn; lia]. rewrite attempt_store.
    destruct (assignReviewer_calls this _ ids s r Hl) as [c Hc].
    exact (one_more_call _ _ c Hc).
  - destruct (String.eqb ty "merge_request"); [|cbn; lia]. rewrite attempt_store.
    destruct (mergeMergeRequest_calls this _
                (default {| cancel := false; when_pipeline_succeeds := Some false |} o)
                s r Hl) as [c Hc].
    exact (one_more_call _ _ c Hc).
  - destruct (mentionUsers_calls this _ users ty s r Hty Hl) as [c Hc].
    exact (one_more_call _ _ c Hc).
  - destruct (hook_name h) as [name|]; cbn [present]; [|cbn; lia].
    destruct (addComment_calls this _ (comment_actions h template) ty s r Hty Hl)
      as [c Hc]. exact (one_more_call _ _ c Hc).
  - destruct (String.eqb ty "issue"); [|cbn; lia]. rewrite attempt_store.
    destruct (moveResource_calls this _ targetProjectPath s r Hl) as [c Hc].
    exact (one_more_call _ _ c Hc).
  - cbn. lia.
Qed.



(** X21.  On the webhook path every label action works on the hook's own
    resource object: after [executeHookActions] its labels are the old
    labels run through the [labels] and [remove_labels] entries in the
    order of [hook.actions], whatever the other entries are, whatever the
    remote client answers and even for an unsupported resource type. *)
Theorem hook_labels_accumulate (this : executor) (h : hook) (m : option matchResult)
        (ty : string) (s : store) (old : list string) :
  labels_at s (hook_resource h) = Some old ->
  labels_at (executeHookActions this h m ty s).2 (hook_resource h)
  = Some (fold_left (hook_label_effect m) (hook_actions h) old).
Proof.
  unfold executeHookActions. rewrite hook_loop_fold. cbn [snd].
  generalize (hook_actions h) as todo. intros todo. revert s old.
  induction todo as [|action later IH]; intros s old Hold; [exact Hold|].
  cbn [fold_left]. apply IH. now apply hook_step_labels.
Qed.

Lemma hook_labels_accumulate_witness :
  labels_at (one_issue ["needs-triage"; "bug"]) 0 = Some ["needs-triage"; "bug"]
  /\ labels_at
       (executeHookActions failing_executor relabel_hook
          (Some {| matched := true; variables := [("labels", ["p1"])] |})
          "epic" (one_issue ["needs-triage"; "bug"])).2 0
     = Some ["bug"; "triaged"; "p1"].
Proof.
  split; [reflexivity|].
  exact (hook_labels_accumulate failing_executor relabel_hook
           (Some {| matched := true; variables := [("labels", ["p1"])] |})
           "epic" (one_issue ["needs-triage"; "bug"]) ["needs-triage"; "bug"] eq_refl).
Defined.

End Hooks.

(* ===================================================================== *)
(** * Further properties of the action executor *)
(* ===================================================================== *)

Section ExecutorEdges.
Import ActionExecutor.
Import ActionExecutorNotions.
Import HookManagerNotions.
Import ResourceProcessor.

Lemma filter_removed_app (remove old : list string) :
  List.filter (fun x => negb (includes x remove)) (old ++ remove)
  = List.filter (fun x => negb (includes x remove)) old.
Proof.
  rewrite List.filter_app.
  assert (H : forall l, (forall x, x ∈ l -> x ∈ remove) ->
                        List.filter (fun x => negb (includes x remove)) l = []).
  { induction l as [|y l IH]; intros Hl; [reflexivity|]. cbn [List.filter].
    assert (Hy : includes y remove = true)
      by (apply includes_elem_of, Hl, list_elem_of_here).
    rewrite Hy. cbn [negb]. apply IH. intros x Hx. apply Hl. now right. }
  rewrite (H remove) by auto. now rewrite List.app_nil_r.
Qed.

Lemma filter_all_kept {A} (p : A -> bool) (l : list A) :
  List.filter p l = l <-> forall x, x ∈ l -> p x = true.
Proof.
  induction l as [|y l IH]; cbn [List.filter].
  - split; [intros _ x Hx; inversion Hx | reflexivity].
  - destruct (p y) eqn:Hy.
    + split.
      * intros [= E] x Hx. apply list_elem_of_In in Hx. destruct Hx as [<-|Hx]; [exact Hy|].
        apply IH; [exact E | now apply list_elem_of_In].
      * intros H. f_equal. apply IH. intros x Hx. apply H. now right.
    + split.
      * intros E. exfalso.
        assert (Hlen : (length (List.filter p l) <= length l)%nat) by apply List.filter_length_le.
        rewrite E in Hlen. cbn in Hlen. lia.
      * intros H. specialize (H y (list_elem_of_here _ _)). congruence.
Qed.

(** X22.  Adding labels to a resource object and then removing the same
    labels from it leaves exactly the old labels that are not among them:
    the two actions are inverse to each other exactly when none of the
    labels was on the resource before.  This holds in a dry run and in a
    live run, whatever the remote client answers. *)
Theorem add_then_remove_labels (this : executor) (s : store) (l : loc) (r : resource)
        (old ls : list string) (ty : string) (d1 d2 : bool) :
  heap s !! l = Some r ->
  labels r = Some old ->
  let s1 := (addLabels this l ls ty d1 s).2 in
  let kept := List.filter (fun x => negb (includes x ls)) old in
  labels_at (removeLabels this l ls ty d2 s1).2 l = Some kept
  /\ (forall x, x ∈ kept <-> x ∈ old /\ ~ x ∈ ls)
  /\ (kept = old <-> disjoint_labels old ls).
Proof.
  intros Hl Hr s1 kept.
  pose proof (addLabels_local this s l r old ls ty d1 Hl Hr) as Hadd.
  destruct (labels_at_resource _ _ _ Hadd) as (r1 & Hl1 & Hr1).
  split; [|split].
  - rewrite (removeLabels_local this s1 l r1 (old ++ ls)%list ls ty d2 Hl1 Hr1).
    now rewrite filter_removed_app.
  - intros x. unfold kept. rewrite (list_elem_of_In _ x), List.filter_In, negb_true_iff.
    rewrite <- list_elem_of_In, <- (includes_elem_of x ls).
    destruct (includes x ls); intuition congruence.
  - unfold kept. rewrite filter_all_kept. unfold disjoint_labels.
    split.
    + intros H x Hx Hx'. specialize (H x Hx). apply includes_elem_of in Hx'.
      rewrite Hx' in H. discriminate.
    + intros H x Hx. apply negb_true_iff. destruct (includes x ls) eqn:E; [|reflexivity].
      exfalso. apply (H x Hx). now apply includes_elem_of.
Qed.

Lemma add_then_remove_labels_witness :
  labels_at (removeLabels echo_executor 0 ["bug"; "p1"] "issue" false
               (addLabels echo_executor 0 ["bug"; "p1"] "issue" false
                  (one_issue ["bug"; "ui"])).2).2 0
  = Some ["ui"].
Proof.
  exact (proj1 (add_then_remove_labels echo_executor (one_issue ["bug"; "ui"]) 0%nat
                  (issue_with ["bug"; "ui"]) ["bug"; "ui"] ["bug"; "p1"] "issue"
                  false false eq_refl eq_refl)).
Defined.

(** X23.  A live [addLabels] or [removeLabels] for a resource type other
    than [issue] and [merge_request] fails with the unsupported-type
    error without any call on the remote client, but only after the
    labels of the resource object have been rewritten. *)
Theorem label_actions_unsupported_type (this : executor) (s : store) (l : loc)
        (r : resource) (old ls : list string) (ty : string) :
  heap s !! l = Some r ->
  labels r = Some old ->
  supported ty = false ->
  let added := addLabels this l ls ty false s in
  let removed := removeLabels this l ls ty false s in
  added.1 = Throw ("Unsupported resource type: " ++ ty)
  /\ log added.2 = log s
  /\ labels_at added.2 l = Some (old ++ ls)%list
  /\ removed.1 = Throw ("Unsupported resource type: " ++ ty)
  /\ log removed.2 = log s
  /\ labels_at removed.2 l = Some (List.filter (fun x => negb (includes x ls)) old).
Proof.
  intros Hl Hr Hty added removed. unfold supported in Hty.
  apply orb_false_elim in Hty as [Hi Hm].
  assert (Hlt : (l < length (heap s))%nat) by (eapply lookup_lt_Some; exact Hl).
  subst added removed. unfold addLabels, removeLabels, bind, get_resource.
  rewrite Hl, Hr. cbn [put_resource negb]. unfold getApiClient. rewrite Hi, Hm.
  cbn [throw fst snd log]. unfold labels_at. cbn [heap].
  rewrite !list_lookup_insert_eq by exact Hlt. repeat split.
Qed.

Lemma label_actions_unsupported_type_witness :
  (addLabels echo_executor 0 ["p1"] "epic" false (one_issue ["bug"])).1
  = Throw "Unsupported resource type: epic"
  /\ labels_at (addLabels echo_executor 0 ["p1"] "epic" false (one_issue ["bug"])).2 0
     = Some ["bug"; "p1"].
Proof.
  pose proof (label_actions_unsupported_type echo_executor (one_issue ["bug"]) 0%nat
                (issue_with ["bug"]) ["bug"] ["p1"] "epic" eq_refl eq_refl eq_refl) as H.
  cbv zeta in H. destruct H as (H1 & _ & H3 & _). split; [exact H1 | exact H3].
Defined.

Lemma inert_bind {A B} (m : M A) (k : A -> M B) :
  inert m -> (forall a, inert (k a)) -> inert (bind m k).
Proof.
  intros Hm Hk s. unfold bind. specialize (Hm s).
  destruct (m s) as [[a|msg] s1]; cbn [snd] in *; subst s1; [apply Hk | reflexivity].
Qed.

Lemma inert_get_resource (l : loc) : inert (get_resource l).
Proof. intros s. unfold get_resource. now destruct (heap s !! l). Qed.

Lemma inert_rebind_if (c : bool) (act : M loc) (l : loc) :
  inert act -> inert (rebind_if c act l).
Proof. intros H. now destruct c. Qed.

Lemma inert_addComment_dry this l a ty : inert (addComment this l a ty true).
Proof. unfold addComment. apply inert_bind; [apply inert_get_resource | now intros r]. Qed.

Lemma inert_deleteBranch_dry this l : inert (deleteBranch this l true).
Proof. unfold deleteBranch. apply inert_bind; [apply inert_get_resource | now intros r]. Qed.

Lemma inert_execute_body_dry (this : executor) (a : actions) (ty : string) (l : loc) :
  labels_action a = None -> remove_labels a = None -> extension_action a = None ->
  inert (execute_body this a ty true l).
Proof.
  intros Hadd Hrem Hext. unfold execute_body, built_in_actions, label_actions.
  rewrite Hadd, Hrem. cbn [present rebind_if]. unfold dispatch_extension. rewrite Hext.
  repeat first [ solve [now intros ?]
               | apply inert_addComment_dry
               | apply inert_deleteBranch_dry
               | apply inert_rebind_if
               | apply inert_bind; [|intros ?] ].
Qed.

Lemma execute_body_dry_returns (this : executor) (a : actions) (ty : string) (l : loc)
      (s : store) (r : resource) :
  labels_action a = None -> remove_labels a = None -> extension_action a = None ->
  heap s !! l = Some r ->
  execute_body this a ty true l s = (Return next_iteration, s).
Proof.
  intros Hadd Hrem Hext Hl. unfold execute_body.
  assert (Hlabels : label_actions this a ty true l s = (Return l, s)).
  { unfold label_actions. now rewrite Hadd, Hrem. }
  rewrite (bind_step _ _ _ _ _ (built_in_actions_dry this a ty l s s r Hlabels Hl)).
  unfold dispatch_extension. now rewrite Hext.
Qed.

(** X24.  A dry run of [execute] whose actions hold neither [labels] nor
    [remove_labels] nor an extension changes nothing at all: no object is
    modified and nothing is logged, whatever the other actions are; and
    when the resources exist it completes normally. *)
Theorem dry_run_without_labels_is_inert (this : executor) (a : actions)
        (resources : list loc) (ty : string) (s : store) :
  labels_action a = None ->
  remove_labels a = None ->
  extension_action a = None ->
  (execute this a resources ty true s).2 = s
  /\ (Forall (fun l => is_Some (heap s !! l)) resources ->
      execute this a resources ty true s = (Return tt, s)).
Proof.
  intros Hadd Hrem Hext. split.
  - induction resources as [|l rest IH]; [reflexivity|]. cbn [execute]. unfold bind.
    pose proof (inert_execute_body_dry this a ty l Hadd Hrem Hext s) as Hbody.
    destruct (execute_body this a ty true l s) as [[c|msg] s1]; cbn [snd] in Hbody;
      subst s1; [|reflexivity].
    destruct c; [exact IH | reflexivity].
  - induction resources as [|l rest IH]; intros Hall; [reflexivity|].
    apply Forall_cons in Hall as [[r Hl] Hrest]. cbn [execute].
    rewrite (bind_step _ _ _ _ _ (execute_body_dry_returns this a ty l s r Hadd Hrem Hext Hl)).
    now apply IH.
Qed.

Lemma dry_run_without_labels_is_inert_witness :
  execute echo_executor other_actions [0%nat; 1%nat] "merge_request" true two_issues
  = (Return tt, two_issues).
Proof.
  refine (proj2 (dry_run_without_labels_is_inert echo_executor other_actions [0%nat; 1%nat]
                   "merge_request" two_issues eq_refl eq_refl eq_refl) _).
  repeat constructor; eexists; reflexivity.
Defined.

Lemma execute_body_extension_only (this : executor) (key : string) (ty : string)
      (d : bool) (l : loc) (s : store) :
  execute_body this (via_extension key) ty d l s
  = dispatch_extension this (via_extension key) l ty d s.
Proof. reflexivity. Qed.

Lemma extension_runs_app (l1 l2 : list event) :
  extension_runs (l1 ++ l2) = (extension_runs l1 ++ extension_runs l2)%list.
Proof. apply List.filter_app. Qed.

Lemma imported_extension_step (this : executor) (key : string) (x : extension)
      (l : loc) (ty : string) (d : bool) (s : store) :
  key <> "" ->
  extensionLoaded this !! key = None ->
  import_extension this key = Some x ->
  (forall l ty d s, (x l ty d s).1 = Return tt) ->
  execute_body this (via_extension key) ty d l s
  = (Return next_iteration,
     (x l ty d {| heap := heap s;
                  log := (log s ++ [extension_run key l ty d])%list |}).2).
Proof.
  intros Hkey Hreg Himp Hok. rewrite execute_body_extension_only.
  unfold dispatch_extension. cbn [via_extension extension_action].
  destruct (String.eqb_spec key "") as [|_]; [contradiction|].
  rewrite Hreg, Himp. unfold bind, run_extension, emit. cbn.
  specialize (Hok l ty d {| heap := heap s;
                            log := (log s ++ [extension_run key l ty d])%list |}).
  destruct (x l ty d _) as [[[]|msg] s1]; [reflexivity | discriminate].
Qed.

(** X25.  An extension that is not registered but can be imported runs for
    every resource of the batch, in order (a registered one ends the batch
    after the first resource): with no other action configured and an
    extension that does not fail and records no run of an extension
    itself, [execute] completes and the runs recorded grow by one per
    resource; if moreover the extension leaves the log as it is, the log
    grows by exactly these runs. *)
Theorem imported_extension_runs_for_all (this : executor) (key : string) (x : extension)
        (resources : list loc) (ty : string) (d : bool) (s : store) :
  key <> "" ->
  extensionLoaded this !! key = None ->
  import_extension this key = Some x ->
  (forall l ty d s, (x l ty d s).1 = Return tt) ->
  (forall l ty d s, extension_runs (log (x l ty d s).2) = extension_runs (log s)) ->
  let out := execute this (via_extension key) resources ty d s in
  out.1 = Return tt
  /\ extension_runs (log out.2)
     = (extension_runs (log s) ++ map (fun l => extension_run key l ty d) resources)%list
  /\ ((forall l ty d s, log (x l ty d s).2 = log s) ->
      log out.2 = (log s ++ map (fun l => extension_run key l ty d) resources)%list).
Proof.
  intros Hkey Hreg Himp Hok Hruns. cbv zeta. revert s.
  induction resources as [|l rest IH]; intros s.
  - cbn. now rewrite !List.app_nil_r.
  - cbn [execute map].
    rewrite (bind_step _ _ _ _ _
               (imported_extension_step this key x l ty d s Hkey Hreg Himp Hok)).
    set (s0 := {| heap := heap s; log := (log s ++ [extension_run key l ty d])%list |}).
    destruct (IH (x l ty d s0).2) as (H1 & H2 & H3).
    split; [exact H1|]. split.
    + rewrite H2, Hruns. subst s0. cbn [log].
      rewrite extension_runs_app. cbn. now rewrite <- List.app_assoc.
    + intros Hlog. rewrite (H3 Hlog), Hlog. subst s0. cbn [log].
      now rewrite <- List.app_assoc.
Qed.

Lemma imported_extension_runs_for_all_witness :
  log (execute importing_executor (via_extension "noop") [0%nat; 1%nat] "issue" false
         two_issues).2
  = [extension_run "noop" 0 "issue" false; extension_run "noop" 1 "issue" false].
Proof.
  exact (proj2 (proj2 (imported_extension_runs_for_all importing_executor "noop"
                         noop_extension [0%nat; 1%nat] "issue" false two_issues
                         ltac:(discriminate) eq_refl eq_refl
                         (fun _ _ _ _ => eq_refl) (fun _ _ _ _ => eq_refl)))
               (fun _ _ _ _ => eq_refl)).
Defined.

(** X26.  A comment template without the opening [{{] of a placeholder is
    posted as it is, whatever the resource. *)
Theorem unmarkComment_plain_text (r : resource) (commentTemplate : string) :
  has_opening commentTemplate = false ->
  unmarkComment r commentTemplate = commentTemplate.
Proof.
  unfold unmarkComment. induction commentTemplate as [|c t IH]; intros H; [reflexivity|].
  cbn [has_opening] in H. apply orb_false_elim in H as [Hhere Hlater].
  cbn [String.length replace_placeholders]. rewrite Hhere.
  now rewrite (IH Hlater).
Qed.

Lemma unmarkComment_plain_text_witness :
  unmarkComment unvoted_issue "Thanks {author}, closing }} now"
  = "Thanks {author}, closing }} now".
Proof.
  exact (unmarkComment_plain_text unvoted_issue "Thanks {author}, closing }} now" eq_refl).
Defined.

(** X27.  A short reference is accepted exactly when it starts with [#] or
    [!], and the resource type it yields is always one for which the
    executor finds both an API client and a notes client. *)
Theorem reference_types_are_supported (resourceReference : string) :
  (forall ty, getResourceTypeFromReference resourceReference = Return ty ->
              forall s, (exists c, getApiClient ty s = (Return c, s))
                        /\ (exists n, getNotesApiClient ty s = (Return n, s)))
  /\ ((exists msg, getResourceTypeFromReference resourceReference = Throw msg)
      <-> startsWith "#" resourceReference = false
          /\ startsWith "!" resourceReference = false).
Proof.
  unfold getResourceTypeFromReference. split.
  - intros ty H s.
    destruct (startsWith "#" resourceReference);
      [|destruct (startsWith "!" resourceReference); [|discriminate]];
      injection H as <-; split; eexists; reflexivity.
  - destruct (startsWith "#" resourceReference);
      [|destruct (startsWith "!" resourceReference)].
    + split; [intros [msg H]; discriminate | intros [H _]; discriminate].
    + split; [intros [msg H]; discriminate | intros [_ H]; discriminate].
    + split; [now intros _ | intros _; eexists; reflexivity].
Qed.

Lemma reference_types_are_supported_witness :
  exists c, getApiClient "merge_request" two_issues = (Return c, two_issues).
Proof.
  exact (proj1 (proj1 (reference_types_are_supported "!12") "merge_request" eq_refl
                  two_issues)).
Defined.

End ExecutorEdges.
